(** * krpc-mcp: the documentation index of [src/krpc_mcp/server.py]

    A shallow embedding of the crawler, the page/member store, its cache
    files and the three query operations, followed by the properties of
    the specification that were checked against it and by further
    properties of the code.

    Conventions of the embedding
    - a Python [str] is a list of characters; characters are the code points
      U+0000..U+00FF (Rocq's [ascii]), on which [str.lower], [str.strip],
      [str.split] and [str.splitlines] act character by character exactly as
      defined below. What is proved of the index operations is proved for
      text of these code points. [str.lower] changes the length of some
      other text; the module [Wide] embeds such text for the one place
      where the code depends on it, the snippet of [search];
    - a Python [int] is a [Z]; a [datetime] is a [Z] (microseconds, UTC);
    - a Python [dict] is an association list in insertion order;
    - a raised exception is the [Raised] case of [outcome]; the exceptions
      embedded are the [ValueError]s of [urllib.parse]. Writing the cache
      files is taken to succeed;
    - [urllib.parse] is embedded from CPython 3.11's [urllib/parse.py]. *)

From Stdlib Require Import Ascii String ZArith Lia Bool Arith List.
From Stdlib Require Import Permutation Sorted DecimalString.
From Equations Require Import Equations.
Import ListNotations.

Set Implicit Arguments.

(* ===================================================================== *)
(** ** Python strings *)
(* ===================================================================== *)

Module PyStr.

Definition str := list ascii.

(** String literals. *)
Definition py (s : string) : str := list_ascii_of_string s.

(** [ord(c)] *)
Definition ord (c : ascii) : nat := nat_of_ascii c.

Definition char_in (c : ascii) (chars : str) : bool :=
  existsb (Ascii.eqb c) chars.

(** [a == b] *)
Fixpoint str_eqb (a b : str) : bool :=
  match a, b with
  | [], [] => true
  | x :: a', y :: b' => Ascii.eqb x y && str_eqb a' b'
  | _, _ => false
  end.

(** [a <= b]: lexicographic order on code points. *)
Fixpoint str_leb (a b : str) : bool :=
  match a, b with
  | [], _ => true
  | _ :: _, [] => false
  | x :: a', y :: b' =>
      if ord x <? ord y then true
      else if ord y <? ord x then false
      else str_leb a' b'
  end.

(** [x in l] for a list of strings. *)
Definition str_in (x : str) (l : list str) : bool := existsb (str_eqb x) l.

(** [c.lower()] on U+0000..U+00FF: A-Z and the Latin-1 capitals
    U+00C0..U+00DE (except the multiplication sign U+00D7) move up by 32. *)
Definition lower_char (c : ascii) : ascii :=
  let n := ord c in
  if ((65 <=? n) && (n <=? 90))
     || ((192 <=? n) && (n <=? 222) && negb (n =? 215))
  then ascii_of_nat (n + 32) else c.

(** [s.lower()] for a text of the code points U+0000..U+00FF. On such
    text [str.lower] works character by character and keeps the length,
    so that an index into [s.lower()] is an index into [s]. This is not
    so for every text of Python: see [Wide.lower]. *)
Definition lower (s : str) : str := map lower_char s.

(** [c.isspace()] on U+0000..U+00FF. *)
Definition isspace (c : ascii) : bool :=
  let n := ord c in
  ((9 <=? n) && (n <=? 13)) || ((28 <=? n) && (n <=? 32))
  || (n =? 133) || (n =? 160).

Fixpoint dropwhile (f : ascii -> bool) (s : str) : str :=
  match s with
  | [] => []
  | c :: s' => if f c then dropwhile f s' else s
  end.

(** [bool(l)] for a string or a list. *)
Definition nonempty {A} (l : list A) : bool :=
  match l with [] => false | _ => true end.

(** [s.lstrip()], [s.rstrip()], [s.strip()] *)
Definition lstrip (s : str) : str := dropwhile isspace s.
Definition rstrip (s : str) : str := rev (dropwhile isspace (rev s)).
Definition strip (s : str) : str := rstrip (lstrip s).

(** [s.lstrip(chars)] *)
Definition lstrip_chars (chars s : str) : str :=
  dropwhile (fun c => char_in c chars) s.

(** [s.startswith(p)] *)
Fixpoint startswith (s p : str) : bool :=
  match p, s with
  | [], _ => true
  | _ :: _, [] => false
  | x :: p', y :: s' => Ascii.eqb x y && startswith s' p'
  end.

(** [s.endswith(p)] *)
Definition endswith (s p : str) : bool := startswith (rev s) (rev p).

(** Lowest index [>= i] at which [sub] occurs in [s], where [s] is the part
    of the string that starts at index [i]. *)
Fixpoint find_at (sub s : str) (i : nat) : option nat :=
  if startswith s sub then Some i
  else match s with
       | [] => None
       | _ :: s' => find_at sub s' (S i)
       end.

(** [s.find(sub)]: lowest index of an occurrence, or -1. *)
Definition str_find (s sub : str) : Z :=
  match find_at sub s 0 with
  | Some i => Z.of_nat i
  | None => (-1)%Z
  end.

(** [s.find(sub, start)] for [start >= 0]. *)
Definition str_find_from (s sub : str) (start : nat) : Z :=
  if length s <? start then (-1)%Z
  else match find_at sub (skipn start s) start with
       | Some i => Z.of_nat i
       | None => (-1)%Z
       end.

(** Highest index of an occurrence of [sub] in the part [s] that starts at
    index [i]. *)
Fixpoint rfind_at (sub s : str) (i : nat) : option nat :=
  match s with
  | [] => if startswith s sub then Some i else None
  | _ :: s' =>
      match rfind_at sub s' (S i) with
      | Some j => Some j
      | None => if startswith s sub then Some i else None
      end
  end.

(** [s.rfind(sub)] *)
Definition str_rfind (s sub : str) : Z :=
  match rfind_at sub s 0 with
  | Some i => Z.of_nat i
  | None => (-1)%Z
  end.

(** [sub in s] *)
Definition contains (sub s : str) : bool :=
  match find_at sub s 0 with
  | Some _ => true
  | None => false
  end.

(** Python's slice bound: negative bounds count from the end, and every
    bound is clipped to [0, len]. *)
Definition clip_index (len i : Z) : Z :=
  if (i <? 0)%Z then Z.max 0 (len + i) else Z.min i len.

(** [l[lo:hi]] *)
Definition slice {A} (l : list A) (lo hi : Z) : list A :=
  let n := Z.of_nat (length l) in
  let a := clip_index n lo in
  let b := clip_index n hi in
  firstn (Z.to_nat (b - a)) (skipn (Z.to_nat a) l).

(** [l[:hi]] and [l[lo:]] *)
Definition slice_to {A} (l : list A) (hi : Z) : list A := slice l 0 hi.
Definition slice_from {A} (l : list A) (lo : Z) : list A :=
  slice l lo (Z.of_nat (length l)).

(** [s.split()]: the maximal runs of non-whitespace characters. [cur] is the
    run being read, last character first. *)
Fixpoint split_ws_aux (s cur : str) : list str :=
  match s with
  | [] => match cur with [] => [] | _ => [rev cur] end
  | c :: s' =>
      if isspace c
      then match cur with
           | [] => split_ws_aux s' []
           | _ => rev cur :: split_ws_aux s' []
           end
      else split_ws_aux s' (c :: cur)
  end.

Definition split_ws (s : str) : list str := split_ws_aux s [].

(** [sep.join(l)] *)
Fixpoint join (sep : str) (l : list str) : str :=
  match l with
  | [] => []
  | [x] => x
  | x :: l' => x ++ sep ++ join sep l'
  end.

(** [s.split(sep)] for a non-empty [sep]: occurrences are taken from the
    left and do not overlap. [skip] counts the characters of the separator
    still to be passed over. *)
Fixpoint split_aux (sep s : str) (skip : nat) (cur : str) : list str :=
  match s with
  | [] => [rev cur]
  | c :: s' =>
      match skip with
      | S k => split_aux sep s' k cur
      | O =>
          if startswith s sep
          then rev cur :: split_aux sep s' (length sep - 1) []
          else split_aux sep s' 0 (c :: cur)
      end
  end.

Definition str_split (s sep : str) : list str := split_aux sep s 0 [].

(** [s.split(c, 1)] when [c in s]: the parts before and after the first
    occurrence of the character. *)
Fixpoint split_once (c : ascii) (s : str) : str * str :=
  match s with
  | [] => ([], [])
  | x :: s' =>
      if Ascii.eqb x c then ([], s')
      else let (a, b) := split_once c s' in (x :: a, b)
  end.

(** Line boundaries of [str.splitlines] on U+0000..U+00FF. *)
Definition is_linebreak (c : ascii) : bool :=
  let n := ord c in
  ((10 <=? n) && (n <=? 13)) || ((28 <=? n) && (n <=? 30)) || (n =? 133).

(** [s.splitlines()]; [after_cr] tells that the previous character was a
    carriage return, so that a line feed right after it is the same break. *)
Fixpoint splitlines_aux (s cur : str) (after_cr : bool) : list str :=
  match s with
  | [] => match cur with [] => [] | _ => [rev cur] end
  | c :: s' =>
      if after_cr && (ord c =? 10) then splitlines_aux s' cur false
      else if is_linebreak c
           then rev cur :: splitlines_aux s' [] (ord c =? 13)
           else splitlines_aux s' (c :: cur) false
  end.

Definition splitlines (s : str) : list str := splitlines_aux s [] false.

(** [str(n)] for a non-negative integer. *)
Definition str_of_nat (n : nat) : str :=
  py (NilEmpty.string_of_uint (Nat.to_uint n)).

End PyStr.
Export PyStr.

(* ===================================================================== *)
(** ** Python dictionaries, lists and exceptions *)
(* ===================================================================== *)

(** The exceptions of the embedding: the [ValueError] that [urlsplit]
    and, through it, [urlparse], [urljoin] and the URL helpers of
    [server.py] raise. What else can be raised while the code runs, such
    as an [OSError] of a file operation, is not embedded. *)
Inductive exn : Type := ValueError.

Inductive outcome (A : Type) : Type :=
| Returned (a : A)
| Raised (e : exn).
Arguments Returned {A} a.
Arguments Raised {A} e.

Module PyDict.
Section Dict.
Variable V : Type.

(** A [dict] with [str] keys, in insertion order. *)
Definition dict := list (str * V).

(** [d.get(k)] *)
Fixpoint dict_get (k : str) (d : dict) : option V :=
  match d with
  | [] => None
  | (k', v) :: d' => if str_eqb k k' then Some v else dict_get k d'
  end.

(** [d[k] = v]: an existing key keeps its place, a new key goes last. *)
Fixpoint dict_set (k : str) (v : V) (d : dict) : dict :=
  match d with
  | [] => [(k, v)]
  | (k', v') :: d' =>
      if str_eqb k k' then (k', v) :: d' else (k', v') :: dict_set k v d'
  end.

(** [d.keys()], [d.values()] *)
Definition dict_keys (d : dict) : list str := map fst d.
Definition dict_values (d : dict) : list V := map snd d.

(** [bool(d)] *)
Definition dict_nonempty (d : dict) : bool :=
  match d with [] => false | _ => true end.

(** Keys are unique in every dictionary that Python can build. *)
Definition dict_wf (d : dict) : Prop := NoDup (dict_keys d).
End Dict.
End PyDict.
Export PyDict.

(** [d.get(k, default)] for a [Dict[str, str]]. *)
Definition get_or (d : dict str) (k : str) (default : str) : str :=
  match dict_get k d with
  | Some v => v
  | None => default
  end.

(** [list.sort(key=...)]: a stable sort; among equal keys the earlier
    element stays first. *)
Section Sort.
Variables (A K : Type) (key : A -> K) (leb : K -> K -> bool).

Fixpoint insert_sorted (x : A) (l : list A) : list A :=
  match l with
  | [] => [x]
  | y :: l' =>
      if leb (key x) (key y) then x :: y :: l' else y :: insert_sorted x l'
  end.

Definition sort_by (l : list A) : list A := fold_right insert_sorted [] l.
End Sort.

(** Order of the tuples [(int, str)]. *)
Definition tuple_leb (a b : Z * str) : bool :=
  (fst a <? fst b)%Z || ((fst a =? fst b)%Z && str_leb (snd a) (snd b)).

(* ===================================================================== *)
(** ** urllib.parse *)
(* ===================================================================== *)

Module Urllib.

Record SplitResult := mkSplit {
  s_scheme : str; s_netloc : str; s_path : str;
  s_query : str; s_fragment : str }.

Record ParseResult := mkParse {
  scheme : str; netloc : str; path : str;
  params : str; query : str; fragment : str }.

Definition uses_netloc : list str :=
  [] :: map py ["ftp"; "http"; "gopher"; "nntp"; "telnet"; "imap"; "wais";
                "file"; "mms"; "https"; "shttp"; "snews"; "prospero"; "rtsp";
                "rtspu"; "rsync"; "svn"; "svn+ssh"; "sftp"; "nfs"; "git";
                "git+ssh"; "ws"; "wss"]%string.

Definition uses_params : list str :=
  [] :: map py ["ftp"; "hdl"; "prospero"; "http"; "imap"; "https"; "shttp";
                "rtsp"; "rtspu"; "sip"; "sips"; "mms"; "sftp"; "tel"]%string.

Definition is_ascii_alpha (c : ascii) : bool :=
  let n := ord c in
  ((65 <=? n) && (n <=? 90)) || ((97 <=? n) && (n <=? 122)).

Definition is_digit (c : ascii) : bool :=
  let n := ord c in (48 <=? n) && (n <=? 57).

(** [c in scheme_chars] *)
Definition scheme_char (c : ascii) : bool :=
  is_ascii_alpha c || is_digit c || char_in c (py "+-.").

(** [c in _WHATWG_C0_CONTROL_OR_SPACE] *)
Definition c0_control_or_space (c : ascii) : bool := ord c <=? 32.

(** [c in _UNSAFE_URL_BYTES_TO_REMOVE]: tab, carriage return, line feed. *)
Definition unsafe_url_byte (c : ascii) : bool :=
  let n := ord c in (n =? 9) || (n =? 13) || (n =? 10).

(** [_splitparams] *)
Definition _splitparams (u : str) : str * str :=
  if contains (py "/") u then
    let i := str_find_from u (py ";") (Z.to_nat (str_rfind u (py "/"))) in
    if (i <? 0)%Z then (u, [])
    else (slice_to u i, slice_from u (i + 1))
  else
    let i := str_find u (py ";") in
    (slice_to u i, slice_from u (i + 1)).

(** [_splitnetloc] *)
Definition _splitnetloc (u : str) (start : nat) : str * str :=
  let step (delim : Z) (c : string) : Z :=
    let wdelim := str_find_from u (py c) start in
    if (0 <=? wdelim)%Z then Z.min delim wdelim else delim in
  let delim := fold_left step ["/"; "?"; "#"]%string (Z.of_nat (length u)) in
  (slice u (Z.of_nat start) delim, slice_from u delim).

Section Parse.
(** [_check_bracketed_netloc(netloc)] returns without raising. It is
    called on an authority that holds both brackets and validates the
    bracketed host with the [ipaddress] module, which is not embedded. *)
Variable bracketed_netloc_ok : str -> bool.

(** [urlsplit(url)]. [_checknetloc] is left out: it raises only when the
    NFKC form of a non-ASCII authority holds one of [/?#@:], which no
    character of U+0000..U+00FF produces. *)
Definition urlsplit (url0 : str) : outcome SplitResult :=
  let u := dropwhile c0_control_or_space url0 in
  let u := filter (fun c => negb (unsafe_url_byte c)) u in
  let i := str_find u (py ":") in
  let '(sch, u) :=
    if (0 <? i)%Z
       && match u with c :: _ => is_ascii_alpha c | [] => false end
       && forallb scheme_char (slice_to u i)
    then (lower (slice_to u i), slice_from u (i + 1))
    else ([], u) in
  let split_authority : outcome (str * str) :=
    if str_eqb (slice_to u 2) (py "//") then
      let '(nl, rest) := _splitnetloc u 2 in
      let has_open := contains (py "[") nl in
      let has_close := contains (py "]") nl in
      if (has_open && negb has_close) || (has_close && negb has_open)
      then Raised ValueError
      else if has_open && has_close && negb (bracketed_netloc_ok nl)
           then Raised ValueError
           else Returned (nl, rest)
    else Returned ([], u) in
  match split_authority with
  | Raised e => Raised e
  | Returned (nl, u) =>
      let '(u, frag) :=
        if contains (py "#") u then split_once "#" u else (u, []) in
      let '(u, qry) :=
        if contains (py "?") u then split_once "?" u else (u, []) in
      Returned (mkSplit sch nl u qry frag)
  end.

(** [urlparse(url)] *)
Definition urlparse (url0 : str) : outcome ParseResult :=
  match urlsplit url0 with
  | Raised e => Raised e
  | Returned r =>
      let '(u, prm) :=
        if str_in (s_scheme r) uses_params && contains (py ";") (s_path r)
        then _splitparams (s_path r)
        else (s_path r, []) in
      Returned (mkParse (s_scheme r) (s_netloc r) u prm
                        (s_query r) (s_fragment r))
  end.
End Parse.

(** [urlunsplit((scheme, netloc, url, query, fragment))] *)
Definition urlunsplit (r : SplitResult) : str :=
  let u := s_path r in
  let u :=
    if nonempty (s_netloc r)
       || (nonempty (s_scheme r) && str_in (s_scheme r) uses_netloc
           && negb (str_eqb (slice_to u 2) (py "//")))
    then
      let u := if nonempty u && negb (str_eqb (slice_to u 1) (py "/"))
               then py "/" ++ u else u in
      py "//" ++ s_netloc r ++ u
    else u in
  let u := if nonempty (s_scheme r) then s_scheme r ++ py ":" ++ u else u in
  let u := if nonempty (s_query r) then u ++ py "?" ++ s_query r else u in
  let u :=
    if nonempty (s_fragment r) then u ++ py "#" ++ s_fragment r else u in
  u.

(** [urlunparse(components)] *)
Definition urlunparse (p : ParseResult) : str :=
  let u := if nonempty (params p) then path p ++ py ";" ++ params p
           else path p in
  urlunsplit (mkSplit (scheme p) (netloc p) u (query p) (fragment p)).

(** [p._replace(query=q, fragment=f)] *)
Definition _replace_query_fragment (p : ParseResult) (q f : str)
  : ParseResult :=
  mkParse (scheme p) (netloc p) (path p) (params p) q f.

(** [p.geturl()] *)
Definition geturl (p : ParseResult) : str := urlunparse p.

End Urllib.

(* ===================================================================== *)
(** ** server.py: constants and data *)
(* ===================================================================== *)

Definition ROOT_URL : str := py "https://krpc.github.io/krpc/python.html".
Definition ALLOWED_PREFIX : str := py "https://krpc.github.io/krpc/python".
Definition MAX_PAGES : nat := 300.
Definition MAX_PAGE_CHARS : Z := 20000.

(** [timedelta(hours=24)], in microseconds. *)
Definition FRESH_WINDOW : Z := 24 * 3600 * 1000000.

Definition newline : str := [ascii_of_nat 10].

Record DocPage := mkDocPage {
  url : str;
  slug : str;
  title : str;
  text : str }.

(** State of a [DocIndex] object (the lock is not part of the embedding:
    every method is run on its own). *)
Record DocIndex := mkDocIndex {
  pages : dict DocPage;
  members : dict (dict str);
  indexed_at : option Z }.

(** What [_save_to_disk] leaves in the three cache files. *)
Record Disk := mkDisk {
  pages_file : option (list DocPage);
  members_file : option (dict (dict str));
  meta_file : option (Z * str) }.

(** Everything a method can change: the index object, the cache files and
    the list of URLs requested over the network so far. *)
Record Sys := mkSys {
  index : DocIndex;
  disk : Disk;
  fetched : list str }.

(** A [dt] element with an [id] attribute, as the crawler reads it:
    [dt.get("id", "")], [dt.get_text(" ", strip=True)] and the same text of
    the [dd] sibling that follows, when there is one. *)
Record DtTag := mkDtTag {
  dt_id : str;
  dt_text : str;
  dt_dd : option str }.

(** A parsed response, as the crawler reads it through BeautifulSoup:
    [soup.title.text] when the document has a title element, the text of
    the main region [main.get_text("\n", strip=True)], the elements
    [soup.select("dt[id]")] and the [href] values of
    [soup.select("a[href]")], both in document order. *)
Record Soup := mkSoup {
  soup_title : option str;
  soup_main_text : str;
  soup_dts : list DtTag;
  soup_hrefs : list str }.

(** What the environment answers during one call of a method: the clock
    read by [is_stale], the clock read when a crawl is stamped, and the
    response to [session.get(url)] followed by [raise_for_status()]
    ([None] stands for a [requests.RequestException]). *)
Record World := mkWorld {
  clock_check : Z;
  clock_stamp : Z;
  http_get : str -> option Soup }.

(** Results of the four operations. The text of [datetime.isoformat()] is
    represented by the datetime itself. *)
Inductive stamp := Iso (t : Z) | Unknown.

Record Status := mkStatus {
  status : str;
  status_message : str;
  status_indexed_at : stamp }.

Record SearchHit := mkHit {
  hit_score : Z;
  hit_title : str;
  hit_slug : str;
  hit_url : str;
  hit_snippet : str }.

Record SearchResult := mkSearchResult {
  sr_query : str;
  sr_results : list SearchHit }.

Inductive PageResult :=
| PageFound (p_title p_slug p_url p_content : str) (p_indexed_at : option Z)
| PageNotFound (error message : str).

Record BestMatch := mkBest {
  bm_id : str;
  bm_title : str;
  bm_url : str;
  bm_signature : str;
  bm_description : str }.

Record Alternative := mkAlt {
  alt_id : str;
  alt_title : str;
  alt_url : str }.

Inductive MemberResult :=
| MemberFound (m_query : str * str * str) (best_match : BestMatch)
              (alternatives : list Alternative)
| MemberNotFound (error message : str).

(** Methods: state passing over [Sys], with exceptions. *)
Definition M (A : Type) : Type := Sys -> outcome A * Sys.

Definition ret {A} (a : A) : M A := fun s => (Returned a, s).

Definition bind {A B} (m : M A) (k : A -> M B) : M B :=
  fun s =>
    match m s with
    | (Returned a, s') => k a s'
    | (Raised e, s') => (Raised e, s')
    end.

Definition get_index : M DocIndex := fun s => (Returned (index s), s).

(** The same for code without state. *)
Definition obind {A B} (m : outcome A) (k : A -> outcome B) : outcome B :=
  match m with
  | Returned a => k a
  | Raised e => Raised e
  end.

(** Case analysis that keeps the equation, for the loops below. *)
Definition inspect {A : Type} (x : A) : {y : A | x = y} :=
  exist _ x eq_refl.

Declare Scope py_scope.
Delimit Scope py_scope with py.
Notation "x <- m ;; k" := (bind m (fun x => k))
  (at level 61, m at next level, right associativity) : py_scope.
Notation "x <~ m ;; k" := (obind m (fun x => k))
  (at level 61, m at next level, right associativity) : py_scope.
Open Scope py_scope.

(* ===================================================================== *)
(** ** server.py: URL helpers and the crawler *)
(* ===================================================================== *)

Module Server.
Section WithLibrary.
(** The two library functions that are taken as parameters:
    [_check_bracketed_netloc] of [urllib.parse] (see [Urllib.urlsplit])
    and [urljoin(base, url)], which may raise [ValueError]. *)
Variable bracketed_netloc_ok : str -> bool.
Variable urljoin : str -> str -> outcome str.

Definition urlparse := Urllib.urlparse bracketed_netloc_ok.

Definition normalize_url (u : str) : outcome str :=
  parsed <~ urlparse u ;;
  let clean := Urllib._replace_query_fragment parsed [] [] in
  Returned (Urllib.geturl clean).

(** [path.split("/krpc/")[-1]] *)
Definition after_krpc (p : str) : str :=
  last (str_split p (py "/krpc/")) [].

Definition normalize_slug_or_url (value : str) : outcome str :=
  let v := strip value in
  if startswith v (py "http://") || startswith v (py "https://") then
    u <~ normalize_url v ;;
    parsed <~ urlparse u ;;
    Returned (after_krpc (Urllib.path parsed))
  else
    let v := lstrip_chars (py "/") v in
    Returned v.

Definition allowed (u : str) : outcome bool :=
  n <~ normalize_url u ;;
  if negb (startswith n ALLOWED_PREFIX) then Returned false
  else Returned (endswith n (py ".html")).

Definition page_to_slug (u : str) : outcome str :=
  parsed <~ urlparse u ;;
  Returned (after_krpc (Urllib.path parsed)).

Definition extract_text (soup : Soup) : str :=
  let t := soup_main_text soup in
  let t := join newline
             (filter nonempty (map strip (splitlines t))) in
  slice_to t MAX_PAGE_CHARS.

(** The record stored for the element [dt] of the page at [u], whose
    stripped id is [mid]. *)
Definition member_entry (u page_title mid : str) (dt : DtTag) : dict str :=
  let signature := join (py " ") (split_ws (dt_text dt)) in
  let description :=
    match dt_dd dt with
    | Some t => slice_to (join (py " ") (split_ws t)) 1200
    | None => []
    end in
  [ (py "id", mid);
    (py "title", page_title);
    (py "url", u ++ py "#" ++ mid);
    (py "signature", signature);
    (py "description", description) ].

(** Body of [for dt in soup.select("dt[id]")]. *)
Definition add_member (u page_title : str) (mem : dict (dict str))
           (dt : DtTag) : dict (dict str) :=
  let mid := strip (dt_id dt) in
  if negb (nonempty mid) then mem
  else dict_set mid (member_entry u page_title mid dt) mem.

(** [for a in soup.select("a[href]")]: the frontier after the links of
    the page at [u] were looked at. *)
Fixpoint discover_links (u : str) (seen : list str) (hrefs : list str)
         (to_visit : list str) : outcome (list str) :=
  match hrefs with
  | [] => Returned to_visit
  | raw :: hrefs' =>
      if negb (nonempty raw) then
        discover_links u seen hrefs' to_visit
      else
        joined <~ urljoin u raw ;;
        linked <~ normalize_url joined ;;
        ok <~ allowed linked ;;
        if ok && negb (str_in linked seen)
           && negb (str_in linked to_visit)
        then discover_links u seen hrefs' (to_visit ++ [linked])
        else discover_links u seen hrefs' to_visit
  end.

(** Local variables of [crawl_docs]; [requests] lists the URLs passed to
    [session.get], in order. The set [seen] is kept as the list of its
    elements in the order they were added. *)
Record Crawl := mkCrawl {
  to_visit : list str;
  seen : list str;
  c_pages : list DocPage;
  c_members : dict (dict str);
  requests : list str }.

Inductive step :=
| Next (c : Crawl)
| Throw (e : exn) (reqs : list str).

Variable w : World.

(** What a page contributes once it was fetched and parsed. *)
Definition visit_page (u : str) (soup : Soup) (rest seen' reqs : list str)
           (c : Crawl) : step :=
  let r :=
    page_title <~
      (match soup_title soup with
       | Some t => if nonempty t then Returned (strip t)
                   else page_to_slug u
       | None => page_to_slug u
       end) ;;
    let body := extract_text soup in
    sl <~ page_to_slug u ;;
    let pages' := c_pages c ++ [mkDocPage u sl page_title body] in
    let members' :=
      fold_left (add_member u page_title) (soup_dts soup) (c_members c) in
    frontier <~ discover_links u seen' (soup_hrefs soup) rest ;;
    Returned (mkCrawl frontier seen' pages' members' reqs) in
  match r with
  | Returned c' => Next c'
  | Raised e => Throw e reqs
  end.

(** One turn of the [while] loop, entered with a non-empty frontier. *)
Definition crawl_body (c : Crawl) : step :=
  match to_visit c with
  | [] => Next c
  | first :: rest =>
      match normalize_url first with
      | Raised e => Throw e (requests c)
      | Returned u =>
          if str_in u (seen c) then
            Next (mkCrawl rest (seen c) (c_pages c) (c_members c)
                          (requests c))
          else
            let seen' := seen c ++ [u] in
            let reqs := requests c ++ [u] in
            match http_get w u with
            | None =>
                Next (mkCrawl rest seen' (c_pages c) (c_members c) reqs)
            | Some soup => visit_page u soup rest seen' reqs c
            end
      end
  end.

(** The five ways in which one turn of the loop can go. *)
Inductive turn (c : Crawl) : step -> Prop :=
| turn_bad_url first rest e :
    to_visit c = first :: rest ->
    normalize_url first = Raised e ->
    turn c (Throw e (requests c))
| turn_seen first rest u :
    to_visit c = first :: rest ->
    normalize_url first = Returned u ->
    str_in u (seen c) = true ->
    turn c (Next (mkCrawl rest (seen c) (c_pages c) (c_members c)
                          (requests c)))
| turn_failed first rest u :
    to_visit c = first :: rest ->
    normalize_url first = Returned u ->
    str_in u (seen c) = false ->
    http_get w u = None ->
    turn c (Next (mkCrawl rest (seen c ++ [u]) (c_pages c) (c_members c)
                          (requests c ++ [u])))
| turn_raised first rest u soup e :
    to_visit c = first :: rest ->
    normalize_url first = Returned u ->
    str_in u (seen c) = false ->
    http_get w u = Some soup ->
    turn c (Throw e (requests c ++ [u]))
| turn_page first rest u soup sl page_title frontier :
    to_visit c = first :: rest ->
    normalize_url first = Returned u ->
    str_in u (seen c) = false ->
    http_get w u = Some soup ->
    turn c (Next (mkCrawl frontier (seen c ++ [u])
                    (c_pages c
                     ++ [mkDocPage u sl page_title (extract_text soup)])
                    (fold_left (add_member u page_title) (soup_dts soup)
                               (c_members c))
                    (requests c ++ [u]))).

(** [to_visit and len(seen) < MAX_PAGES] *)
Definition crawl_cond (c : Crawl) : bool :=
  nonempty (to_visit c) && (length (seen c) <? MAX_PAGES).

Definition crawl_measure (c : Crawl) : nat * nat :=
  (MAX_PAGES - length (seen c), length (to_visit c)).

(** Every turn either adds a URL to [seen], which the loop condition
    caps, or only shortens the frontier. *)
Definition crawl_order : nat * nat -> nat * nat -> Prop :=
  lexprod nat nat lt lt.

#[local] Instance crawl_order_wf : WellFounded crawl_order :=
  Acc_intro_generator 12 (wf_lexprod nat nat lt lt lt_wf lt_wf).

Lemma crawl_body_decreases c c' :
  crawl_cond c = true -> crawl_body c = Next c' ->
  crawl_order (crawl_measure c') (crawl_measure c).
Proof.
  unfold crawl_order, crawl_cond, crawl_body, crawl_measure, visit_page.
  intros Hc Hb. apply andb_prop in Hc. destruct Hc as [Hne Hlt].
  apply Nat.ltb_lt in Hlt.
  destruct (to_visit c) as [|first rest] eqn:Etv; [discriminate|].
  destruct (normalize_url first) as [u|]; [|discriminate].
  destruct (str_in u (seen c)) eqn:Es.
  - inversion Hb; subst; cbn [seen to_visit]. apply right_lex.
    simpl. lia.
  - assert (Hgrow : length (seen c ++ [u]) = S (length (seen c)))
      by (rewrite length_app; simpl; lia).
    destruct (http_get w u) as [soup|].
    + match type of Hb with
      | match ?r with _ => _ end = _ => destruct r as [c''|] eqn:Er
      end; [|discriminate].
      inversion Hb; subst c''; clear Hb.
      unfold obind in Er.
      repeat match type of Er with
             | match ?x with _ => _ end = _ => destruct x; try discriminate
             end.
      inversion Er; subst; cbn [seen to_visit]. apply left_lex. rewrite Hgrow. lia.
    + inversion Hb; subst; cbn [seen to_visit]. apply left_lex.
      rewrite Hgrow. lia.
Qed.

(** The [while] loop of [crawl_docs]. *)
Equations? crawl_loop (c : Crawl) : step
  by wf (crawl_measure c) crawl_order :=
  crawl_loop c with inspect (crawl_cond c) := {
    | exist _ false _ => Next c
    | exist _ true Hc with inspect (crawl_body c) := {
        | exist _ (Next c') Hb => crawl_loop c'
        | exist _ (Throw e reqs) _ => Throw e reqs } }.
Proof. apply crawl_body_decreases; assumption. Qed.

Definition crawl_docs
  : outcome (list DocPage * dict (dict str)) * list str :=
  match crawl_loop (mkCrawl [ROOT_URL] [] [] [] []) with
  | Next c => (Returned (c_pages c, c_members c), requests c)
  | Throw e reqs => (Raised e, reqs)
  end.

(* =================================================================== *)
(** ** server.py: the [DocIndex] methods *)
(* =================================================================== *)

Definition lift {A} (o : outcome A) : M A := fun s => (o, s).

Definition is_stale (self : DocIndex) : bool :=
  match indexed_at self with
  | None => true
  | Some t => (FRESH_WINDOW <? clock_check w - t)%Z
  end.

(** [self.indexed_at.isoformat() if self.indexed_at else "unknown"] *)
Definition stamp_of (self : DocIndex) : stamp :=
  match indexed_at self with
  | Some t => Iso t
  | None => Unknown
  end.

(** [DocIndex._save_to_disk]: the three cache files after the call.
    [mkdir] and the three [write_text] calls are taken to succeed. A
    write that raises ([OSError], [UnicodeEncodeError]) would leave
    [reindex] after the index was replaced and before all files were
    written; this is not embedded. *)
Definition _save_to_disk (self : DocIndex) : Disk :=
  mkDisk (Some (dict_values (pages self)))
         (Some (members self))
         (Some (match indexed_at self with
                | Some t => t
                | None => clock_stamp w
                end, ROOT_URL)).

(** [{p.slug: p for p in pages}] *)
Definition pages_by_slug (pgs : list DocPage) : dict DocPage :=
  fold_left (fun d p => dict_set (slug p) p d) pgs [].

Definition reindex (force : bool) : M Status :=
  fun s =>
    let self := index s in
    if dict_nonempty (pages self) && negb force && negb (is_stale self)
    then
      (Returned (mkStatus (py "ok") (py "Index already fresh.")
                          (stamp_of self)), s)
    else
      match crawl_docs with
      | (Raised e, reqs) =>
          (Raised e, mkSys self (disk s) (fetched s ++ reqs))
      | (Returned (pgs, mems), reqs) =>
          let self' :=
            mkDocIndex (pages_by_slug pgs) mems (Some (clock_stamp w)) in
          (Returned
             (mkStatus (py "ok")
                (py "Indexed " ++ str_of_nat (length (pages self'))
                 ++ py " pages and " ++ str_of_nat (length (members self'))
                 ++ py " API members.")
                (Iso (clock_stamp w))),
           mkSys self' (_save_to_disk self') (fetched s ++ reqs))
      end.

Definition ensure_fresh : M Status :=
  fun s =>
    let self := index s in
    if dict_nonempty (pages self) && negb (is_stale self)
    then
      (Returned (mkStatus (py "ok") (py "Index is fresh.")
                          (stamp_of self)), s)
    else reindex true s.

(** *** search *)

(** The score that the loop of [search] gives to one page. *)
Definition page_score (q : str) (page : DocPage) : Z :=
  let score := 0%Z in
  let title_l := lower (title page) in
  let text_l := lower (text page) in
  let slug_l := lower (slug page) in
  let score := if contains q title_l then (score + 5)%Z else score in
  let score := if contains q slug_l then (score + 4)%Z else score in
  let score := if contains q text_l then (score + 1)%Z else score in
  score.

(** [for page in self.pages.values(): ...]: the list [scored]. *)
Fixpoint score_pages (q : str) (ps : list DocPage) : list (Z * DocPage) :=
  match ps with
  | [] => []
  | page :: ps' =>
      let score := page_score q page in
      if (0 <? score)%Z then (score, page) :: score_pages q ps'
      else score_pages q ps'
  end.

(** [lambda item: (-item[0], item[1].slug)] *)
Definition search_key (item : Z * DocPage) : Z * str :=
  ((- fst item)%Z, slug (snd item)).

Definition make_snippet (q : str) (page : DocPage) : str :=
  let idx := str_find (lower (text page)) q in
  let snippet :=
    if (idx <? 0)%Z then slice_to (text page) 240
    else
      let start := Z.max 0 (idx - 80) in
      let stop := Z.min (Z.of_nat (length (text page))) (idx + 160) in
      slice (text page) start stop in
  join (py " ") (split_ws snippet).

Definition make_hit (q : str) (item : Z * DocPage) : SearchHit :=
  let '(score, page) := item in
  mkHit score (title page) (slug page) (url page) (make_snippet q page).

(** [search] after [self.ensure_fresh()]. *)
Definition search_index (self : DocIndex) (query0 : str) (limit : Z)
  : SearchResult :=
  let q := lower (strip query0) in
  if negb (nonempty q) then mkSearchResult query0 []
  else
    let scored :=
      sort_by search_key tuple_leb
              (score_pages q (dict_values (pages self))) in
    let out :=
      map (make_hit q) (slice_to scored (Z.max 1 (Z.min limit 20))) in
    mkSearchResult query0 out.

Definition search (query0 : str) (limit : Z) : M SearchResult :=
  _ <- ensure_fresh ;;
  self <- get_index ;;
  ret (search_index self query0 limit).

(** *** get_page *)

Definition get_page (slug_or_url : str) : M PageResult :=
  _ <- ensure_fresh ;;
  key <- lift (normalize_slug_or_url slug_or_url) ;;
  self <- get_index ;;
  match dict_get key (pages self) with
  | None =>
      ret (PageNotFound (py "not_found")
             (py "No page found for '" ++ slug_or_url ++ py "'."))
  | Some page =>
      ret (PageFound (title page) (slug page) (url page) (text page)
                     (indexed_at self))
  end.

(** *** get_member *)

(** The score that the loop of [get_member] gives to the id [mid]. *)
Definition member_score (target class_name member mid : str) : Z :=
  let key := lower mid in
  if str_eqb target key then 100%Z
  else if contains target key then 80%Z
  else if contains (lower member) key && contains (lower class_name) key
       then 50%Z
  else if contains (lower member) key then 20%Z
  else 0%Z.

(** [for mid, entry in self.members.items(): ...]: the list
    [candidates]. *)
Fixpoint member_candidates (target class_name member : str)
         (items : dict (dict str)) : list (Z * str * dict str) :=
  match items with
  | [] => []
  | (mid, entry) :: items' =>
      let score := member_score target class_name member mid in
      if negb (score =? 0)%Z
      then (score, mid, entry)
             :: member_candidates target class_name member items'
      else member_candidates target class_name member items'
  end.

Definition make_alternative (c : Z * str * dict str) : Alternative :=
  let '(_, mid, entry) := c in
  mkAlt mid (get_or entry (py "title") []) (get_or entry (py "url") []).

(** [get_member] after [self.ensure_fresh()]. *)
Definition resolve_member (self : DocIndex)
           (service class_name member : str) : MemberResult :=
  let target :=
    lower (service ++ py "." ++ class_name ++ py "." ++ member) in
  let candidates :=
    sort_by (fun x : Z * str * dict str => (- fst (fst x))%Z) Z.leb
            (member_candidates target class_name member (members self)) in
  match candidates with
  | [] =>
      MemberNotFound (py "not_found")
        (py "No API member matched " ++ service ++ py "." ++ class_name
         ++ py "." ++ member)
  | best :: _ =>
      let '(_, best_id, best_entry) := best in
      MemberFound (service, class_name, member)
        (mkBest best_id
                (get_or best_entry (py "title") [])
                (get_or best_entry (py "url") [])
                (get_or best_entry (py "signature") [])
                (get_or best_entry (py "description") []))
        (map make_alternative (slice candidates 1 6))
  end.

Definition get_member (service class_name member : str) : M MemberResult :=
  _ <- ensure_fresh ;;
  self <- get_index ;;
  ret (resolve_member self service class_name member).

(** *** Construction from the cache files *)

(** [DocIndex._load_from_disk]: each cache file that exists replaces its
    part of the index. The files are read as documents of the shape that
    [_save_to_disk] writes, [json.loads] giving back what [json.dumps]
    wrote: a list of objects with the four fields of a page, a map of
    member records, and an object whose ["indexed_at"] is the text of a
    datetime, which is never empty, so that [if ts] holds and
    [datetime.fromisoformat] reads it back. On a file of another shape
    the constructor raises; such files are not embedded. *)
Definition _load_from_disk (self : DocIndex) (d : Disk) : DocIndex :=
  let pages' :=
    match pages_file d with
    | Some raw_pages =>
        fold_left
          (fun acc p =>
             dict_set (slug p)
                      (mkDocPage (url p) (slug p) (title p) (text p)) acc)
          raw_pages []
    | None => pages self
    end in
  let members' :=
    match members_file d with
    | Some raw_members => raw_members
    | None => members self
    end in
  let indexed_at' :=
    match meta_file d with
    | Some (ts, _) => Some ts
    | None => indexed_at self
    end in
  mkDocIndex pages' members' indexed_at'.

(** [DocIndex.__init__] on the cache files [d]: an empty index, then
    [_load_from_disk]. *)
Definition __init__ (d : Disk) : DocIndex :=
  _load_from_disk (mkDocIndex [] [] None) d.
End WithLibrary.
End Server.
Export Server.

(* ===================================================================== *)
(** ** Text beyond U+00FF *)
(* ===================================================================== *)

(** [str.lower] keeps the length of a text of the code points
    U+0000..U+00FF, and [PyStr.lower] is [str.lower] on such text only.
    It does not keep the length of every text: the capital I with dot
    above, U+0130, lowers to the two code points U+0069 U+0307. This
    module embeds the strings of the code points U+0000..U+00FF, U+0130
    and U+0307, on which [str.lower] still works code point by code
    point, and on them the lines of [search] that cut the snippet. *)
Module Wide.

Inductive wchar :=
| Latin (c : ascii)     (* U+0000..U+00FF *)
| CapitalIDot           (* U+0130 *)
| CombiningDot.         (* U+0307 *)

Definition wstr := list wchar.

(** A text of [PyStr] as a text of this module. *)
Definition wide (s : str) : wstr := map Latin s.

Definition wchar_eqb (a b : wchar) : bool :=
  match a, b with
  | Latin x, Latin y => Ascii.eqb x y
  | CapitalIDot, CapitalIDot => true
  | CombiningDot, CombiningDot => true
  | _, _ => false
  end.

(** [c.lower()] *)
Definition lower_wchar (c : wchar) : wstr :=
  match c with
  | Latin a => [Latin (lower_char a)]
  | CapitalIDot => [Latin "i"; CombiningDot]
  | CombiningDot => [CombiningDot]
  end.

(** [s.lower()] *)
Definition lower (s : wstr) : wstr := flat_map lower_wchar s.

(** [c.isspace()] *)
Definition isspace (c : wchar) : bool :=
  match c with
  | Latin a => PyStr.isspace a
  | _ => false
  end.

(** [s.startswith(p)] *)
Fixpoint startswith (s p : wstr) : bool :=
  match p, s with
  | [], _ => true
  | _ :: _, [] => false
  | x :: p', y :: s' => wchar_eqb x y && startswith s' p'
  end.

(** Lowest index [>= i] at which [sub] occurs in [s], where [s] is the
    part of the string that starts at index [i]. *)
Fixpoint find_at (sub s : wstr) (i : nat) : option nat :=
  if startswith s sub then Some i
  else match s with
       | [] => None
       | _ :: s' => find_at sub s' (S i)
       end.

(** [s.find(sub)] *)
Definition str_find (s sub : wstr) : Z :=
  match find_at sub s 0 with
  | Some i => Z.of_nat i
  | None => (-1)%Z
  end.

(** [s.split()] *)
Fixpoint split_ws_aux (s cur : wstr) : list wstr :=
  match s with
  | [] => match cur with [] => [] | _ => [rev cur] end
  | c :: s' =>
      if isspace c
      then match cur with
           | [] => split_ws_aux s' []
           | _ => rev cur :: split_ws_aux s' []
           end
      else split_ws_aux s' (c :: cur)
  end.

Definition split_ws (s : wstr) : list wstr := split_ws_aux s [].

(** [sep.join(l)] *)
Fixpoint join (sep : wstr) (l : list wstr) : wstr :=
  match l with
  | [] => []
  | [x] => x
  | x :: l' => x ++ sep ++ join sep l'
  end.

(** The snippet that [search] makes for the lower-cased query [q] from
    the text [text] of a page. *)
Definition make_snippet (q text : wstr) : wstr :=
  let idx := str_find (lower text) q in
  let snippet :=
    if (idx <? 0)%Z then slice_to text 240
    else
      let start := Z.max 0 (idx - 80) in
      let stop := Z.min (Z.of_nat (length text)) (idx + 160) in
      slice text start stop in
  join (wide (py " ")) (split_ws snippet).

End Wide.

(* ===================================================================== *)
(** ** Vocabulary of the specification *)
(* ===================================================================== *)

(** [q] occurs in [s] at index [i]. *)
Definition occurs_at (q s : str) (i : nat) : Prop :=
  exists a b, s = a ++ q ++ b /\ length a = i.

(** [q] is a substring of [s]. *)
Definition occurs_in (q s : str) : Prop := exists i, occurs_at q s i.

(** [i] is the index of the first occurrence of [q] in [s]. *)
Definition first_occurrence (q s : str) (i : nat) : Prop :=
  occurs_at q s i /\ forall j, j < i -> ~ occurs_at q s j.

(** A field adds [n] to a score when [P] holds and nothing otherwise. *)
Definition contributes (P : Prop) (n k : Z) : Prop :=
  (P /\ k = n) \/ (~ P /\ k = 0%Z).

(** The score of a page as the specification words it: title 5, slug 4,
    body text 1, each field once, compared without regard to case. *)
Definition score_is (q : str) (page : DocPage) (k : Z) : Prop :=
  exists a b c,
    k = (a + b + c)%Z
    /\ contributes (occurs_in q (lower (title page))) 5 a
    /\ contributes (occurs_in q (lower (slug page))) 4 b
    /\ contributes (occurs_in q (lower (text page))) 1 c.

(** The score of a member id as the specification words it: the first
    tier that the lower-cased id meets. *)
Definition member_tier (target class_name member mid : str) (k : Z) : Prop :=
  let key := lower mid in
  (target = key /\ k = 100%Z)
  \/ (target <> key /\ occurs_in target key /\ k = 80%Z)
  \/ (~ occurs_in target key /\ occurs_in (lower member) key
      /\ occurs_in (lower class_name) key /\ k = 50%Z)
  \/ (~ occurs_in target key /\ occurs_in (lower member) key
      /\ ~ occurs_in (lower class_name) key /\ k = 20%Z)
  \/ (~ occurs_in target key /\ ~ occurs_in (lower member) key
      /\ k = 0%Z).

(** The [dt] elements that a crawl read, in the order it read them: those
    of each page that it kept, page after page. *)
Definition page_elements (w : World) (p : DocPage) : list (DocPage * DtTag) :=
  match http_get w (url p) with
  | Some soup => map (pair p) (soup_dts soup)
  | None => []
  end.

Definition crawled_elements (w : World) (pgs : list DocPage)
  : list (DocPage * DtTag) :=
  flat_map (page_elements w) pgs.

(** The anchor id of an element and the record made from it. *)
Definition element_id (e : DocPage * DtTag) : str := strip (dt_id (snd e)).

Definition element_entry (e : DocPage * DtTag) : dict str :=
  member_entry (url (fst e)) (title (fst e)) (element_id e) (snd e).

(** Order of two elements under a sort key. *)
Definition key_le {A K} (key : A -> K) (leb : K -> K -> bool) (x y : A)
  : Prop :=
  leb (key x) (key y) = true.

(** [d[id(e)] = entry(e)] unless the id is empty. *)
Definition put {E V} (id : E -> str) (entry : E -> V) (d : dict V) (e : E)
  : dict V :=
  if negb (nonempty (id e)) then d else dict_set (id e) (entry e) d.

(** What every turn of the crawl loop keeps true: a URL is requested when
    it enters [seen], and never again; the member map is the fold of the
    elements of the pages kept so far. *)
Definition crawl_inv (chk : str -> bool) (w : World) (c : Crawl) : Prop :=
  requests c = seen c
  /\ NoDup (seen c)
  /\ length (seen c) <= MAX_PAGES
  /\ Forall (fun u => exists x, normalize_url chk x = Returned u) (seen c)
  /\ c_members c =
     fold_left (put element_id element_entry)
               (crawled_elements w (c_pages c)) [].

(** The limit of [search], clamped to 1..20. *)
Definition clamp_limit (limit : Z) : Z := Z.max 1 (Z.min limit 20).

(** Ranking of search hits: higher score first, then smaller slug. *)
Definition hit_precedes (h1 h2 : SearchHit) : Prop :=
  (hit_score h2 < hit_score h1)%Z
  \/ (hit_score h1 = hit_score h2
      /\ str_leb (hit_slug h1) (hit_slug h2) = true).

(** [" ".join(s.split())] *)
Definition collapse_ws (s : str) : str := join (py " ") (split_ws s).

(** The characters of [t] from 80 before index [i] up to 160 after it. *)
Definition window (t : str) (i : nat) : str :=
  skipn (i - 80) (firstn (i + 160) t).

(** The part of [s] before the first [c], and the part after it. *)
Fixpoint takewhile (f : ascii -> bool) (s : str) : str :=
  match s with
  | [] => []
  | x :: s' => if f x then x :: takewhile f s' else []
  end.

Definition not_char (c x : ascii) : bool := negb (Ascii.eqb x c).

Definition before (c : ascii) (s : str) : str := takewhile (not_char c) s.

Definition after (c : ascii) (s : str) : str :=
  tl (dropwhile (not_char c) s).

(** The characters that end the authority of a URL. *)
Definition authority_end (c : ascii) : bool := char_in c (py "/?#").

(** How [urlunsplit] writes a scheme. *)
Definition scheme_prefix (s : str) : str :=
  if nonempty s then s ++ py ":" else [].

(** How [urlunparse] writes a path and its params. *)
Definition with_params (pa pr : str) : str :=
  if nonempty pr then pa ++ py ";" ++ pr else pa.

(** The split of a path that [urlparse] makes for the scheme [s]. *)
Definition params_split (s u : str) : str * str :=
  if str_in s Urllib.uses_params && contains (py ";") u
  then Urllib._splitparams u
  else (u, []).

(** The authority passes the bracket checks of [urlsplit]. *)
Definition brackets_pass (chk : str -> bool) (n : str) : bool :=
  let has_open := contains (py "[") n in
  let has_close := contains (py "]") n in
  negb ((has_open && negb has_close) || (has_close && negb has_open))
  && negb (has_open && has_close && negb (chk n)).

(** A scheme as [urlsplit] returns it. *)
Definition scheme_ok (s : str) : Prop :=
  s = []
  \/ (exists c s', s = c :: s' /\ Urllib.is_ascii_alpha c = true)
     /\ forallb Urllib.scheme_char s = true
     /\ lower s = s.

(** Characters that [urlsplit] leaves in an authority and in a path. *)
Definition netloc_char (c : ascii) : bool :=
  negb (authority_end c) && negb (Urllib.unsafe_url_byte c).

Definition path_char (c : ascii) : bool :=
  negb (char_in c (py "?#")) && negb (Urllib.unsafe_url_byte c).

(** The test by which [urlsplit] finds a scheme at the start of [u]. *)
Definition scheme_cond (u : str) : bool :=
  (0 <? str_find u (py ":"))%Z
  && match u with
     | c :: _ => Urllib.is_ascii_alpha c
     | [] => false
     end
  && forallb Urllib.scheme_char (slice_to u (str_find u (py ":"))).

(** A text that [urlsplit] reads as a path without scheme: nothing is
    stripped at its start and no scheme is found. *)
Definition plain_start (u : str) : Prop :=
  match u with
  | c :: _ => Urllib.c0_control_or_space c = false
  | [] => True
  end
  /\ scheme_cond u = false.

(** A path that follows an authority. *)
Definition rooted (u : str) : Prop := u = [] \/ exists u', u = "/"%char :: u'.

(** A character that [urlsplit] does not delete. *)
Definition safe_char (c : ascii) : bool := negb (Urllib.unsafe_url_byte c).

(** The text of [u] with its fragment ([#...]) and its query ([?...])
    cut off, and nothing else changed. *)
Definition without_query_fragment (u : str) : str :=
  before "?" (before "#" u).

(** Every page of the map is stored under its own slug, and no slug is a
    key twice. *)
Definition keyed_by_slug (d : dict DocPage) : Prop :=
  dict_wf d /\ Forall (fun kv => fst kv = slug (snd kv)) d.

(** A URL of the documentation site: it starts with the allowed prefix
    and ends with the page extension. *)
Definition in_scope (u : str) : Prop :=
  startswith u ALLOWED_PREFIX = true /\ endswith u (py ".html") = true.

(** The URLs requested up to the end of a turn or of the loop. *)
Definition step_requests (r : step) : list str :=
  match r with
  | Next c => requests c
  | Throw _ reqs => reqs
  end.

(** The request for [u] is answered with a page. *)
Definition answered (w : World) (u : str) : bool :=
  match http_get w u with
  | Some _ => true
  | None => false
  end.

(** The title that the crawler gives to a page whose slug is [sl]. *)
Definition page_title_of (soup : Soup) (sl : str) : str :=
  match soup_title soup with
  | Some t => if nonempty t then strip t else sl
  | None => sl
  end.

(** A string of whitespace only. *)
Definition blank (s : str) : Prop := forallb isspace s = true.

(** A run of slashes. *)
Definition slashes (s : str) : Prop :=
  forallb (fun c => Ascii.eqb c "/") s = true.

(** A key as [get_page] looks it up: no whitespace around it, no slash
    in front, and not the start of a URL. *)
Definition plain_slug (k : str) : Prop :=
  strip k = k
  /\ startswith k (py "/") = false
  /\ startswith k (py "http://") = false
  /\ startswith k (py "https://") = false.

(** A word: a non-empty string without whitespace. *)
Definition not_space (c : ascii) : bool := negb (isspace c).

Definition word (x : str) : Prop :=
  x <> [] /\ forallb not_space x = true.

(** The pages that a query matches. *)
Definition matching (q : str) (self : DocIndex) : list DocPage :=
  filter (fun p => (0 <? page_score q p)%Z) (dict_values (pages self)).

(** The marker after which the slug of a page starts. *)
Definition marker : str := py "/krpc/".

(** A page made from the answer to the request for its URL. *)
Definition page_from (chk : str -> bool) (w : World) (p : DocPage) : Prop :=
  exists soup,
    http_get w (url p) = Some soup
    /\ page_to_slug chk (url p) = Returned (slug p)
    /\ title p = page_title_of soup (slug p)
    /\ text p = extract_text soup.

(** What every turn of the crawl keeps true of the scope: a URL of the
    frontier normalizes to a URL of the site, and every request went to
    one. *)
Definition scope_inv (chk : str -> bool) (c : Crawl) : Prop :=
  Forall (fun x => exists n, normalize_url chk x = Returned n /\ in_scope n)
         (to_visit c)
  /\ Forall in_scope (requests c).

(** What every turn keeps true of the pages: they are the requests that
    were answered, in the order of the requests, and each was made from
    the answer to the request for its URL. *)
Definition pages_inv (chk : str -> bool) (w : World) (c : Crawl) : Prop :=
  map url (c_pages c) = filter (answered w) (seen c)
  /\ Forall (page_from chk w) (c_pages c).

(** The snippet as the specification words it, for a query that occurs
    in the text at index [i]: the characters from 80 before [i] up to
    160 after it, with whitespace collapsed. *)
Definition wide_window (t : Wide.wstr) (i : nat) : Wide.wstr :=
  Wide.join (Wide.wide (py " "))
            (Wide.split_ws (skipn (i - 80) (firstn (i + 160) t))).

(** What the crawler computes from the link [raw] of the page at [u],
    up to the test that decides whether the link joins the frontier:
    [allowed(normalize_url(urljoin(u, raw)))]. *)
Definition link_outcome (chk : str -> bool)
           (urljoin : str -> str -> outcome str) (u raw : str)
  : outcome bool :=
  joined <~ urljoin u raw ;;
  linked <~ normalize_url chk joined ;;
  allowed chk linked.

(** The request for [u] is answered with a page that holds a link on
    which the URL functions raise [e]. *)
Definition bad_link (chk : str -> bool)
           (urljoin : str -> str -> outcome str) (w : World)
           (u : str) (e : exn) : Prop :=
  exists soup raw,
    http_get w u = Some soup
    /\ In raw (soup_hrefs soup) /\ raw <> []
    /\ link_outcome chk urljoin u raw = Raised e.

(** The runs of the [while] loop of [crawl_docs]: entered with the
    variables [c], the loop ends after [n] turns with [r]. It ends when
    its condition fails or when a turn raises. *)
Inductive crawl_runs (chk : str -> bool)
          (urljoin : str -> str -> outcome str) (w : World)
  : Crawl -> nat -> step -> Prop :=
| run_stop c :
    crawl_cond c = false ->
    crawl_runs chk urljoin w c 0 (Next c)
| run_turn c c' n r :
    crawl_cond c = true ->
    crawl_body chk urljoin w c = Next c' ->
    crawl_runs chk urljoin w c' n r ->
    crawl_runs chk urljoin w c (S n) r
| run_raise c e reqs :
    crawl_cond c = true ->
    crawl_body chk urljoin w c = Throw e reqs ->
    crawl_runs chk urljoin w c 1 (Throw e reqs).


(** No page requested so far holds a link on which the URL functions
    raise. *)
Definition links_inv (chk : str -> bool)
           (urljoin : str -> str -> outcome str) (w : World)
           (reqs : list str) : Prop :=
  forall u e, In u reqs -> ~ bad_link chk urljoin w u e.

(** A character that [str.splitlines] leaves in a line. *)
Definition line_char (c : ascii) : bool := negb (is_linebreak c).

(** A line that [extract_text] keeps: not empty, stripped, and without
    a line break. *)
Definition kept_line (l : str) : Prop :=
  l <> [] /\ strip l = l /\ forallb line_char l = true.

(* ===================================================================== *)
(** ** Example data *)
(* ===================================================================== *)

Module Examples.

(** Instances of the two library parameters: every bracketed authority
    is accepted, and [urljoin] returns the reference unchanged (what it
    does for an absolute reference). *)
Definition accept_all (n : str) : bool := true.
Definition join_absolute (base ref : str) : outcome str := Returned ref.

Definition space_center : DocPage :=
  mkDocPage (py "https://krpc.github.io/krpc/python/api/space-center.html")
            (py "python/api/space-center.html")
            (py "SpaceCenter")
            (py "The   Vessel class and its SpaceCenter service.").

Definition tutorials : DocPage :=
  mkDocPage (py "https://krpc.github.io/krpc/python/tutorials.html")
            (py "python/tutorials.html")
            (py "Tutorials")
            (py "Launch a vessel into orbit.").

Definition some_members : dict (dict str) :=
  [ (py "SpaceCenter.Vessel.name",
     [ (py "id", py "SpaceCenter.Vessel.name");
       (py "title", py "SpaceCenter");
       (py "url", py "https://krpc.github.io/krpc/python/api/space-center.html#SpaceCenter.Vessel.name");
       (py "signature", py "name");
       (py "description", py "The name of the vessel.") ]);
    (py "SpaceCenter.Vessel.name_tag", [ (py "title", py "SpaceCenter") ]);
    (py "SpaceCenter.Part.name", []) ].

(** An index that was filled at time 0. *)
Definition filled : DocIndex :=
  mkDocIndex [ (slug space_center, space_center);
               (slug tutorials, tutorials) ]
             some_members (Some 0%Z).

Definition no_files : Disk := mkDisk None None None.

Definition filled_sys : Sys := mkSys filled no_files [].

(** An index stamped at time 0 by a crawl that kept no page. *)
Definition empty_sys : Sys := mkSys (mkDocIndex [] [] (Some 0%Z)) no_files [].

(** One second after the index was stamped, with the network down. *)
Definition offline : World :=
  mkWorld 1000000 2000000 (fun _ => None).

(** A site of one page on which two elements carry the same id. *)
Definition twice : Soup :=
  mkSoup (Some (py "SpaceCenter"))
         (py "SpaceCenter")
         [ mkDtTag (py "Vessel.name") (py "name  (first)") None;
           mkDtTag (py " Vessel.name ") (py "name  (second)")
                   (Some (py "The   name.")) ]
         [].

Definition one_page : World :=
  mkWorld 0 5 (fun u => if str_eqb u ROOT_URL then Some twice else None).

Definition twice_page : DocPage :=
  mkDocPage ROOT_URL (py "python.html") (py "SpaceCenter")
            (py "SpaceCenter").

Definition twice_entry : dict str :=
  [ (py "id", py "Vessel.name");
    (py "title", py "SpaceCenter");
    (py "url", py "https://krpc.github.io/krpc/python.html#Vessel.name");
    (py "signature", py "name (second)");
    (py "description", py "The name.") ].

Definition vessel_hit : SearchHit :=
  mkHit 1 (py "SpaceCenter") (py "python/api/space-center.html")
        (py "https://krpc.github.io/krpc/python/api/space-center.html")
        (py "The Vessel class and its SpaceCenter service.").

Definition shouted : str :=
  py "HTTP://krpc.github.io/krpc/python.html?x=1#top".

Definition shouted_parse : Urllib.ParseResult :=
  Urllib.mkParse (py "http") (py "krpc.github.io") (py "/krpc/python.html")
                 [] (py "x=1") (py "top").

(** [urljoin] on an absolute reference: the reference is parsed, which
    raises on an unmatched bracket, and returned as it is. *)
Definition join_parsed (base ref : str) : outcome str :=
  match Urllib.urlsplit accept_all ref with
  | Returned _ => Returned ref
  | Raised e => Raised e
  end.

(** A site whose first page holds a link that the URL parser refuses. *)
Definition broken_link : Soup :=
  mkSoup (Some (py "Start")) (py "Start") [] [py "http://["].

Definition one_broken : World :=
  mkWorld 0 5
    (fun u => if str_eqb u ROOT_URL then Some broken_link else None).

(** A site of two pages with the same slug. *)
Definition second_url : str :=
  py "https://krpc.github.io/krpc/python/krpc/python.html".

Definition first_of_two : Soup :=
  mkSoup (Some (py "First")) (py "one") [] [second_url].

Definition second_of_two : Soup :=
  mkSoup (Some (py "Second")) (py "two") [] [].

Definition two_pages : World :=
  mkWorld 0 5
    (fun u => if str_eqb u ROOT_URL then Some first_of_two
              else if str_eqb u second_url then Some second_of_two
              else None).

Definition first_page : DocPage :=
  mkDocPage ROOT_URL (py "python.html") (py "First") (py "one").

Definition second_page : DocPage :=
  mkDocPage second_url (py "python.html") (py "Second") (py "two").

(** The index and the state that a crawl of that site leaves. *)
Definition two_pages_index : DocIndex :=
  mkDocIndex [(py "python.html", second_page)] [] (Some 5%Z).

Definition two_pages_sys : Sys :=
  mkSys two_pages_index
        (mkDisk (Some [second_page]) (Some []) (Some (5%Z, ROOT_URL)))
        [ROOT_URL; second_url].

Definition two_pages_status : Status :=
  mkStatus (py "ok") (py "Indexed 1 pages and 0 API members.") (Iso 5).

(** An index without pages, members and time stamp, and no cache. *)
Definition new_sys : Sys := mkSys (mkDocIndex [] [] None) no_files [].

Definition tutorials_found : PageResult :=
  PageFound (py "Tutorials") (py "python/tutorials.html")
            (py "https://krpc.github.io/krpc/python/tutorials.html")
            (py "Launch a vessel into orbit.") (Some 0%Z).

Definition name_match : BestMatch :=
  mkBest (py "SpaceCenter.Vessel.name") (py "SpaceCenter")
         (py "https://krpc.github.io/krpc/python/api/space-center.html#SpaceCenter.Vessel.name")
         (py "name") (py "The name of the vessel.").



(** A text in which an occurrence of the query follows 100 capital I
    with dot above. *)
Definition dotted_text : Wide.wstr :=
  repeat Wide.CapitalIDot 100 ++ Wide.wide (py "vessel")
  ++ repeat (Wide.Latin "x") 300.

End Examples.

(* ===================================================================== *)
(** ** Properties of the Python primitives *)
(* ===================================================================== *)

Lemma str_eqb_eq (a b : str) : str_eqb a b = true <-> a = b.
Proof.
  revert b; induction a as [|x a IH]; intros [|y b]; simpl;
    try (split; (discriminate || reflexivity)).
  rewrite andb_true_iff, Ascii.eqb_eq, IH.
  split; [intros [-> ->]; reflexivity | intros H; inversion H; auto].
Qed.

Lemma str_eqb_refl (a : str) : str_eqb a a = true.
Proof. apply str_eqb_eq; reflexivity. Qed.

Lemma false_iff_not (b : bool) (P : Prop) :
  (b = true <-> P) -> (b = false <-> ~ P).
Proof.
  intros [H1 H2]. destruct b; split; intros H; try reflexivity.
  - discriminate.
  - exfalso. apply H. apply H1. reflexivity.
  - intros HP. apply H2 in HP. discriminate.
Qed.

Lemma str_eqb_neq (a b : str) : str_eqb a b = false <-> a <> b.
Proof. apply false_iff_not, str_eqb_eq. Qed.

Lemma str_in_In (x : str) (l : list str) : str_in x l = true <-> In x l.
Proof.
  unfold str_in. rewrite existsb_exists. split.
  - intros [y [Hy He]]. apply str_eqb_eq in He. subst. exact Hy.
  - intros H. exists x. split; [exact H | apply str_eqb_refl].
Qed.

Lemma str_in_not_In (x : str) (l : list str) :
  str_in x l = false <-> ~ In x l.
Proof. apply false_iff_not, str_in_In. Qed.

Lemma ord_inj (x y : ascii) : ord x = ord y -> x = y.
Proof.
  unfold ord. intros H.
  rewrite <- (ascii_nat_embedding x), <- (ascii_nat_embedding y), H.
  reflexivity.
Qed.

(** [str_leb] is a total order. *)
Lemma str_leb_refl (a : str) : str_leb a a = true.
Proof.
  induction a as [|x a IH]; simpl; [reflexivity|].
  rewrite Nat.ltb_irrefl. exact IH.
Qed.

Lemma str_leb_total (a b : str) : str_leb a b = true \/ str_leb b a = true.
Proof.
  revert b; induction a as [|x a IH]; intros [|y b]; simpl; auto.
  destruct (ord x <? ord y) eqn:E1, (ord y <? ord x) eqn:E2; auto.
Qed.

Lemma str_leb_trans (a b c : str) :
  str_leb a b = true -> str_leb b c = true -> str_leb a c = true.
Proof.
  revert b c; induction a as [|x a IH]; intros [|y b] [|z c]; simpl;
    try discriminate; auto.
  destruct (ord x <? ord y) eqn:Exy, (ord y <? ord x) eqn:Eyx,
           (ord y <? ord z) eqn:Eyz, (ord z <? ord y) eqn:Ezy,
           (ord x <? ord z) eqn:Exz, (ord z <? ord x) eqn:Ezx;
    try discriminate; auto;
    repeat match goal with
           | H : (_ <? _) = true |- _ => apply Nat.ltb_lt in H
           | H : (_ <? _) = false |- _ => apply Nat.ltb_ge in H
           end; try lia.
  apply IH.
Qed.

Lemma str_leb_antisym (a b : str) :
  str_leb a b = true -> str_leb b a = true -> a = b.
Proof.
  revert b; induction a as [|x a IH]; intros [|y b]; simpl;
    try discriminate; auto.
  destruct (ord x <? ord y) eqn:Exy, (ord y <? ord x) eqn:Eyx;
    try discriminate; intros H1 H2.
  - apply Nat.ltb_lt in Exy, Eyx. lia.
  - apply Nat.ltb_ge in Exy, Eyx.
    assert (x = y) by (apply ord_inj; lia).
    subst. f_equal. apply IH; assumption.
Qed.

Lemma startswith_app (s p : str) :
  startswith s p = true <-> exists b, s = p ++ b.
Proof.
  revert s; induction p as [|x p IH]; intros s; simpl.
  - split; [intros _; exists s; reflexivity | destruct s; reflexivity].
  - destruct s as [|y s].
    + split; [discriminate | intros [b Hb]; discriminate].
    + simpl. rewrite andb_true_iff, Ascii.eqb_eq, IH. split.
      * intros [-> [b ->]]. exists b. reflexivity.
      * intros [b Hb]. inversion Hb; subst. split; [reflexivity|].
        exists b. reflexivity.
Qed.

Lemma occurs_at_0 (q s : str) : occurs_at q s 0 <-> startswith s q = true.
Proof.
  rewrite startswith_app. unfold occurs_at. split.
  - intros [a [b [H Hl]]]. destruct a; [|discriminate]. exists b. exact H.
  - intros [b H]. exists [], b. split; [exact H | reflexivity].
Qed.

Lemma occurs_at_S (q : str) (c : ascii) (s : str) (i : nat) :
  occurs_at q (c :: s) (S i) <-> occurs_at q s i.
Proof.
  unfold occurs_at. split.
  - intros [a [b [H Hl]]]. destruct a as [|x a]; [discriminate|].
    inversion H; subst. exists a, b. split; [reflexivity|].
    simpl in Hl. lia.
  - intros [a [b [H Hl]]]. exists (c :: a), b. subst. split; reflexivity.
Qed.

Lemma occurs_at_nil_S (q : str) (i : nat) : ~ occurs_at q [] (S i).
Proof.
  intros [a [b [H Hl]]]. destruct a; [discriminate Hl | discriminate H].
Qed.

(** [find_at] returns the first occurrence, counted from [i]. *)
Lemma find_at_eq (q s : str) (i : nat) :
  find_at q s i =
  if startswith s q then Some i
  else match s with
       | [] => None
       | _ :: s' => find_at q s' (S i)
       end.
Proof. destruct s; reflexivity. Qed.

Lemma find_at_Some (q s : str) (i k : nat) :
  find_at q s i = Some k ->
  exists j, k = i + j /\ first_occurrence q s j.
Proof.
  revert i k; induction s as [|c s IH]; intros i k; rewrite find_at_eq;
    intros H.
  - destruct (startswith [] q) eqn:E; [|discriminate H].
    inversion H; subst. exists 0. split; [lia|].
    split; [apply occurs_at_0; exact E | intros j Hj; lia].
  - destruct (startswith (c :: s) q) eqn:E.
    + inversion H; subst. exists 0. split; [lia|].
      split; [apply occurs_at_0; exact E | intros j Hj; lia].
    + apply IH in H. destruct H as [j [-> [Hocc Hmin]]].
      exists (S j). split; [lia|]. split.
      * apply occurs_at_S. exact Hocc.
      * intros [|j'] Hj.
        -- rewrite occurs_at_0, E. discriminate.
        -- rewrite occurs_at_S. apply Hmin. lia.
Qed.

Lemma find_at_None (q s : str) (i : nat) :
  find_at q s i = None -> ~ occurs_in q s.
Proof.
  revert i; induction s as [|c s IH]; intros i; rewrite find_at_eq;
    intros H.
  - destruct (startswith [] q) eqn:E; [discriminate H|].
    intros [[|j] Hj].
    + apply occurs_at_0 in Hj. congruence.
    + exact (occurs_at_nil_S Hj).
  - destruct (startswith (c :: s) q) eqn:E; [discriminate H|].
    intros [[|j] Hj].
    + apply occurs_at_0 in Hj. congruence.
    + apply occurs_at_S in Hj. apply (IH _ H). exists j. exact Hj.
Qed.

(** [sub in s] holds exactly when [sub] is a substring of [s]. *)
Lemma contains_occurs (q s : str) : contains q s = true <-> occurs_in q s.
Proof.
  unfold contains. destruct (find_at q s 0) as [k|] eqn:E.
  - apply find_at_Some in E. destruct E as [j [_ [Hocc _]]].
    split; [intros _; exists j; exact Hocc | reflexivity].
  - apply find_at_None in E. split; [discriminate | intros H; contradiction].
Qed.

Lemma contains_not_occurs (q s : str) :
  contains q s = false <-> ~ occurs_in q s.
Proof. apply false_iff_not, contains_occurs. Qed.

(** [s.find(q)] is the index of the first occurrence, or -1 when there is
    none. *)
Lemma str_find_spec (s q : str) :
  (exists i, str_find s q = Z.of_nat i /\ first_occurrence q s i)
  \/ (str_find s q = (-1)%Z /\ ~ occurs_in q s).
Proof.
  unfold str_find. destruct (find_at q s 0) as [k|] eqn:E.
  - left. apply find_at_Some in E. destruct E as [j [-> H]].
    exists j. split; [reflexivity | exact H].
  - right. split; [reflexivity | eapply find_at_None; exact E].
Qed.

Lemma contains_nil (s : str) : contains [] s = true.
Proof. unfold contains. destruct s; reflexivity. Qed.

(** Slices with non-negative bounds. *)
Lemma firstn_same_min {A} (l : list A) (j k : nat) :
  Nat.min j (length l) = Nat.min k (length l) -> firstn j l = firstn k l.
Proof.
  revert j k; induction l as [|x l IH]; intros j k H.
  - rewrite !firstn_nil. reflexivity.
  - destruct j, k; simpl in *; try reflexivity; try discriminate.
    f_equal. apply IH. lia.
Qed.

Lemma slice_nonneg {A} (l : list A) (lo hi : Z) :
  (0 <= lo)%Z -> (0 <= hi)%Z ->
  slice l lo hi = skipn (Z.to_nat lo) (firstn (Z.to_nat hi) l).
Proof.
  intros Hlo Hhi. unfold slice, clip_index.
  destruct (lo <? 0)%Z eqn:E1; [apply Z.ltb_lt in E1; lia|].
  destruct (hi <? 0)%Z eqn:E2; [apply Z.ltb_lt in E2; lia|].
  rewrite skipn_firstn_comm.
  destruct (Z.le_ge_cases lo (Z.of_nat (length l))) as [H|H].
  - replace (Z.min lo (Z.of_nat (length l))) with lo by lia.
    apply firstn_same_min. rewrite length_skipn. lia.
  - replace (Z.min lo (Z.of_nat (length l))) with (Z.of_nat (length l))
      by lia.
    rewrite Nat2Z.id, skipn_all.
    rewrite (skipn_all2 (n := Z.to_nat lo)) by lia.
    rewrite !firstn_nil. reflexivity.
Qed.

Lemma slice_to_firstn {A} (l : list A) (n : Z) :
  (0 <= n)%Z -> slice_to l n = firstn (Z.to_nat n) l.
Proof.
  intros Hn. unfold slice_to. rewrite slice_nonneg by lia. reflexivity.
Qed.

(** *** The stable sort *)

Section SortFacts.
Variables (A K : Type) (key : A -> K) (leb : K -> K -> bool).
Hypothesis leb_total : forall a b, leb a b = true \/ leb b a = true.
Hypothesis leb_trans :
  forall a b c, leb a b = true -> leb b c = true -> leb a c = true.

Lemma insert_sorted_perm (x : A) (l : list A) :
  Permutation (insert_sorted key leb x l) (x :: l).
Proof.
  induction l as [|y l IH]; simpl; [reflexivity|].
  destruct (leb (key x) (key y)); [reflexivity|].
  rewrite IH. apply perm_swap.
Qed.

Lemma sort_by_perm (l : list A) : Permutation (sort_by key leb l) l.
Proof.
  induction l as [|x l IH]; simpl; [reflexivity|].
  rewrite insert_sorted_perm. apply perm_skip. exact IH.
Qed.

Lemma insert_sorted_sorted (x : A) (l : list A) :
  StronglySorted (key_le key leb) l ->
  StronglySorted (key_le key leb) (insert_sorted key leb x l).
Proof.
  induction 1 as [|y l Hs IH Hall]; simpl.
  - constructor; constructor.
  - destruct (leb (key x) (key y)) eqn:E.
    + constructor; [constructor; assumption|].
      constructor; [exact E|].
      eapply Forall_impl; [|exact Hall].
      intros z Hz. unfold key_le in *. eapply leb_trans; eassumption.
    + constructor; [exact IH|].
      eapply Permutation_Forall.
      * symmetry. apply insert_sorted_perm.
      * constructor; [|exact Hall].
        unfold key_le. destruct (leb_total (key x) (key y)); congruence.
Qed.

Lemma sort_by_sorted (l : list A) :
  StronglySorted (key_le key leb) (sort_by key leb l).
Proof.
  induction l as [|x l IH]; simpl; [constructor|].
  apply insert_sorted_sorted. exact IH.
Qed.

End SortFacts.

Lemma In_firstn {A} (n : nat) (l : list A) (x : A) :
  In x (firstn n l) -> In x l.
Proof.
  intros H. rewrite <- (firstn_skipn n l). apply in_or_app. left. exact H.
Qed.

Lemma In_skipn {A} (n : nat) (l : list A) (x : A) :
  In x (skipn n l) -> In x l.
Proof.
  intros H. rewrite <- (firstn_skipn n l). apply in_or_app. right. exact H.
Qed.

Lemma StronglySorted_firstn {A} (R : A -> A -> Prop) (n : nat) (l : list A) :
  StronglySorted R l -> StronglySorted R (firstn n l).
Proof.
  intros H; revert n; induction H as [|x l Hs IH Hall]; intros [|n]; simpl;
    try constructor.
  - apply IH.
  - apply Forall_forall. intros y Hy. apply In_firstn in Hy.
    rewrite Forall_forall in Hall. auto.
Qed.

Lemma StronglySorted_map {A B} (R : A -> A -> Prop) (S : B -> B -> Prop)
      (f : A -> B) (l : list A) :
  (forall x y, R x y -> S (f x) (f y)) ->
  StronglySorted R l -> StronglySorted S (map f l).
Proof.
  intros Hf H; induction H as [|x l Hs IH Hall]; simpl; constructor; auto.
  apply Forall_forall. intros y Hy. apply in_map_iff in Hy.
  destruct Hy as [z [<- Hz]]. rewrite Forall_forall in Hall. auto.
Qed.

Lemma tuple_leb_total (a b : Z * str) :
  tuple_leb a b = true \/ tuple_leb b a = true.
Proof.
  unfold tuple_leb. destruct a as [x s], b as [y t]; simpl.
  destruct (Z.lt_total x y) as [H|[H|H]].
  - left. apply Z.ltb_lt in H. rewrite H. reflexivity.
  - subst. rewrite Z.ltb_irrefl, Z.eqb_refl. simpl. apply str_leb_total.
  - right. apply Z.ltb_lt in H. rewrite H. reflexivity.
Qed.

Lemma tuple_leb_trans (a b c : Z * str) :
  tuple_leb a b = true -> tuple_leb b c = true -> tuple_leb a c = true.
Proof.
  unfold tuple_leb. destruct a as [x s], b as [y t], c as [z u]; simpl.
  rewrite !orb_true_iff, !andb_true_iff, !Z.ltb_lt, !Z.eqb_eq.
  intros [H1|[H1 L1]] [H2|[H2 L2]]; subst; auto; [left; lia|].
  right. split; [reflexivity|]. eapply str_leb_trans; eassumption.
Qed.

Lemma Z_leb_total (a b : Z) : (a <=? b)%Z = true \/ (b <=? a)%Z = true.
Proof. rewrite !Z.leb_le. lia. Qed.

Lemma Z_leb_trans (a b c : Z) :
  (a <=? b)%Z = true -> (b <=? c)%Z = true -> (a <=? c)%Z = true.
Proof. rewrite !Z.leb_le. lia. Qed.

(** *** Dictionaries *)

Lemma dict_get_set {V} (k k' : str) (v : V) (d : dict V) :
  dict_get k (dict_set k' v d) =
  if str_eqb k k' then Some v else dict_get k d.
Proof.
  induction d as [|[k0 v0] d IH]; simpl.
  - destruct (str_eqb k k'); reflexivity.
  - destruct (str_eqb k' k0) eqn:E; simpl.
    + apply str_eqb_eq in E. subst k0.
      destruct (str_eqb k k'); reflexivity.
    + destruct (str_eqb k k0) eqn:E0.
      * apply str_eqb_eq in E0. subst k0.
        replace (str_eqb k k') with false; [reflexivity|].
        symmetry. apply str_eqb_neq. apply str_eqb_neq in E. congruence.
      * exact IH.
Qed.

Lemma dict_keys_set {V} (k : str) (v : V) (d : dict V) :
  dict_keys (dict_set k v d) =
  if str_in k (dict_keys d) then dict_keys d else dict_keys d ++ [k].
Proof.
  unfold dict_keys, str_in.
  induction d as [|[k0 v0] d IH]; simpl; [reflexivity|].
  destruct (str_eqb k k0) eqn:E; simpl; [reflexivity|].
  rewrite IH. destruct (existsb (str_eqb k) (map fst d)); reflexivity.
Qed.

Lemma NoDup_snoc {A} (l : list A) (x : A) :
  NoDup l -> ~ In x l -> NoDup (l ++ [x]).
Proof.
  intros Hl Hx. apply NoDup_rev in Hl.
  rewrite <- (rev_involutive (l ++ [x])). apply NoDup_rev.
  rewrite rev_app_distr. simpl. constructor; [|exact Hl].
  rewrite <- in_rev. exact Hx.
Qed.

Lemma dict_set_wf {V} (k : str) (v : V) (d : dict V) :
  dict_wf d -> dict_wf (dict_set k v d).
Proof.
  unfold dict_wf. intros H. rewrite dict_keys_set.
  destruct (str_in k (dict_keys d)) eqn:E; [exact H|].
  apply NoDup_snoc; [exact H | apply str_in_not_In; exact E].
Qed.

Lemma snoc_eq_split {A} (l before after : list A) (x e : A) :
  l ++ [x] = before ++ e :: after ->
  (after = [] /\ e = x /\ before = l)
  \/ exists after', after = after' ++ [x] /\ l = before ++ e :: after'.
Proof.
  intros H. destruct (exists_last (l := e :: after)) as [m [y Hm]];
    [discriminate|].
  rewrite Hm in H. rewrite app_assoc in H. apply app_inj_tail in H.
  destruct H as [Hl Hx]. subst y.
  destruct after as [|a after].
  - left. destruct m; inversion Hm; subst.
    + rewrite app_nil_r. auto.
    + destruct m; discriminate.
  - right. destruct (exists_last (l := a :: after)) as [m' [y' Hm']];
      [discriminate|].
    rewrite Hm' in Hm. change (e :: m' ++ [y']) with ((e :: m') ++ [y']) in Hm.
    apply app_inj_tail in Hm. destruct Hm as [Hm Hy]. subst.
    exists m'. split; [exact Hm' | reflexivity].
Qed.

(** Folding [d[id] = record] over a list of elements leaves, for every id,
    the record of the last element that carries it. *)
Section LastWins.
Variables (E V : Type) (id : E -> str) (entry : E -> V).

Lemma fold_put_wf (es : list E) (d : dict V) :
  dict_wf d -> dict_wf (fold_left (put id entry) es d).
Proof.
  revert d; induction es as [|e es IH]; intros d Hd; simpl; [exact Hd|].
  apply IH. unfold put. destruct (negb (nonempty (id e))); [exact Hd|].
  apply dict_set_wf. exact Hd.
Qed.

Lemma fold_put_last (es : list E) (mid : str) (v : V) :
  dict_get mid (fold_left (put id entry) es []) = Some v
  <-> exists before e after,
        es = before ++ e :: after
        /\ id e = mid /\ mid <> []
        /\ (forall e', In e' after -> id e' <> mid)
        /\ v = entry e.
Proof.
  induction es as [|x es IH] using rev_ind.
  - simpl. split; [discriminate|].
    intros [before [e [after [H _]]]]. destruct before; discriminate.
  - rewrite fold_left_app. simpl. unfold put at 1.
    assert (Hkeep :
      (exists before e after,
          es = before ++ e :: after
          /\ id e = mid /\ mid <> []
          /\ (forall e', In e' after -> id e' <> mid)
          /\ v = entry e) ->
      id x <> mid ->
      exists before e after,
        es ++ [x] = before ++ e :: after
        /\ id e = mid /\ mid <> []
        /\ (forall e', In e' after -> id e' <> mid)
        /\ v = entry e).
    { intros [before [e [after [H [Hid [Hne [Hafter Hv]]]]]]] Hx.
      exists before, e, (after ++ [x]).
      split; [rewrite H, <- app_assoc; reflexivity|].
      split; [exact Hid|]. split; [exact Hne|]. split; [|exact Hv].
      intros e' He'. apply in_app_or in He'.
      destruct He' as [He'|[He'|[]]]; [auto | subst e'; exact Hx]. }
    assert (Hdrop :
      (exists before e after,
          es ++ [x] = before ++ e :: after
          /\ id e = mid /\ mid <> []
          /\ (forall e', In e' after -> id e' <> mid)
          /\ v = entry e) ->
      id x <> mid ->
      exists before e after,
        es = before ++ e :: after
        /\ id e = mid /\ mid <> []
        /\ (forall e', In e' after -> id e' <> mid)
        /\ v = entry e).
    { intros [before [e [after [H [Hid [Hne [Hafter Hv]]]]]]] Hx.
      apply snoc_eq_split in H.
      destruct H as [[Ha [He Hb]]|[after' [Ha Hl]]];
        [subst; contradiction|].
      exists before, e, after'.
      split; [exact Hl|]. split; [exact Hid|]. split; [exact Hne|].
      split; [|exact Hv].
      intros e' He'. apply Hafter. subst after.
      apply in_or_app. left. exact He'. }
    destruct (id x) as [|c idx] eqn:Ex; simpl negb; cbv iota.
    + rewrite IH. split; intros H.
      * apply Hkeep; [exact H|].
        destruct H as [_ [_ [_ [_ [_ [Hne _]]]]]]. congruence.
      * apply Hdrop; [exact H|].
        destruct H as [_ [_ [_ [_ [_ [Hne _]]]]]]. congruence.
    + rewrite dict_get_set. destruct (str_eqb mid (c :: idx)) eqn:Em.
      * apply str_eqb_eq in Em. split.
        -- intros Hv. inversion Hv; subst.
           exists es, x, [].
           split; [reflexivity|]. split; [exact Ex|].
           split; [discriminate|]. split; [intros e' []|reflexivity].
        -- intros [before [e [after [H [Hid [Hne [Hafter Hv]]]]]]].
           apply snoc_eq_split in H.
           destruct H as [[Ha [He Hb]]|[after' [Ha Hl]]].
           ++ subst. reflexivity.
           ++ exfalso. apply (Hafter x); [|congruence].
              subst after. apply in_or_app. right. left. reflexivity.
      * apply str_eqb_neq in Em. rewrite IH. split; intros H.
        -- apply Hkeep; [exact H | congruence].
        -- apply Hdrop; [exact H | congruence].
Qed.
End LastWins.

(* ===================================================================== *)
(** ** Properties of the index operations *)
(* ===================================================================== *)

Section Properties.
Unset Implicit Arguments.

Variable bracketed_netloc_ok : str -> bool.
Variable urljoin : str -> str -> outcome str.
Variable w : World.

Local Abbreviation ensure_fresh := (ensure_fresh bracketed_netloc_ok urljoin w).
Local Abbreviation reindex := (reindex bracketed_netloc_ok urljoin w).
Local Abbreviation search := (search bracketed_netloc_ok urljoin w).
Local Abbreviation get_page := (get_page bracketed_netloc_ok urljoin w).
Local Abbreviation get_member := (get_member bracketed_netloc_ok urljoin w).
Local Abbreviation crawl_docs := (crawl_docs bracketed_netloc_ok urljoin w).
Local Abbreviation crawl_loop := (crawl_loop bracketed_netloc_ok urljoin w).
Local Abbreviation crawl_body := (crawl_body bracketed_netloc_ok urljoin w).
Local Abbreviation normalize_url := (normalize_url bracketed_netloc_ok).
Local Abbreviation normalize_slug_or_url :=
  (normalize_slug_or_url bracketed_netloc_ok).
Local Abbreviation crawl_inv := (crawl_inv bracketed_netloc_ok w).

(** *** search *)

Lemma search_returns query0 limit s r s' :
  search query0 limit s = (Returned r, s') ->
  r = search_index (index s') query0 limit.
Proof.
  unfold Server.search, bind, get_index, ret.
  destruct (ensure_fresh s) as [[st|e] s1]; intros H; inversion H.
  reflexivity.
Qed.

Lemma clamp_limit_range limit :
  (1 <= clamp_limit limit <= 20)%Z.
Proof. unfold clamp_limit. lia. Qed.

Lemma score_pages_eq q ps :
  score_pages q ps =
  map (fun p => (page_score q p, p))
      (filter (fun p => (0 <? page_score q p)%Z) ps).
Proof.
  induction ps as [|p ps IH]; simpl; [reflexivity|].
  destruct (0 <? page_score q p)%Z; simpl; rewrite IH; reflexivity.
Qed.

Lemma search_key_precedes q x y :
  key_le search_key tuple_leb x y ->
  hit_precedes (make_hit q x) (make_hit q y).
Proof.
  unfold key_le, search_key, tuple_leb, hit_precedes.
  destruct x as [k1 p1], y as [k2 p2]; simpl.
  rewrite orb_true_iff, andb_true_iff, Z.ltb_lt, Z.eqb_eq.
  intros [H|[H L]]; [left; lia | right; split; [lia | exact L]].
Qed.

Lemma search_index_results self query0 limit :
  lower (strip query0) <> [] ->
  sr_results (search_index self query0 limit) =
  map (make_hit (lower (strip query0)))
      (firstn (Z.to_nat (clamp_limit limit))
         (sort_by search_key tuple_leb
            (score_pages (lower (strip query0))
                         (dict_values (pages self))))).
Proof.
  intros Hq. unfold search_index.
  destruct (lower (strip query0)) as [|c q] eqn:E; [congruence|].
  simpl negb. cbv iota. simpl sr_results.
  rewrite slice_to_firstn by lia. reflexivity.
Qed.

Lemma search_index_empty self query0 limit :
  lower (strip query0) = [] ->
  sr_results (search_index self query0 limit) = [].
Proof. intros Hq. unfold search_index. rewrite Hq. reflexivity. Qed.

(** C1. The hits that [search] returns are in ranking order (higher score
    first, equal scores by ascending slug), and there are at most
    [max(1, min(limit, 20))] of them. *)
Theorem search_sorted_and_bounded query0 limit s r s' :
  search query0 limit s = (Returned r, s') ->
  StronglySorted hit_precedes (sr_results r)
  /\ (Z.of_nat (length (sr_results r)) <= clamp_limit limit)%Z.
Proof.
  intros H. apply search_returns in H. subst r.
  destruct (lower (strip query0)) as [|c q] eqn:E.
  - rewrite search_index_empty by exact E. split; [constructor|].
    pose proof (clamp_limit_range limit). simpl. lia.
  - rewrite search_index_results by (rewrite E; discriminate).
    rewrite E. split.
    + eapply StronglySorted_map; [apply search_key_precedes|].
      apply StronglySorted_firstn.
      apply sort_by_sorted; [apply tuple_leb_total | apply tuple_leb_trans].
    + rewrite length_map.
      pose proof (clamp_limit_range limit).
      pose proof (firstn_le_length (Z.to_nat (clamp_limit limit))
        (sort_by search_key tuple_leb
           (score_pages (c :: q) (dict_values (pages (index s')))))).
      lia.
Qed.

Lemma page_score_spec q page : score_is q page (page_score q page).
Proof.
  unfold score_is, page_score, contributes.
  exists (if contains q (lower (title page)) then 5 else 0)%Z,
         (if contains q (lower (slug page)) then 4 else 0)%Z,
         (if contains q (lower (text page)) then 1 else 0)%Z.
  split.
  - destruct (contains q (lower (title page))),
             (contains q (lower (slug page))),
             (contains q (lower (text page))); reflexivity.
  - repeat split.
    + destruct (contains q (lower (title page))) eqn:E;
        [left; split; [apply contains_occurs; exact E | reflexivity]
        |right; split; [apply contains_not_occurs; exact E | reflexivity]].
    + destruct (contains q (lower (slug page))) eqn:E;
        [left; split; [apply contains_occurs; exact E | reflexivity]
        |right; split; [apply contains_not_occurs; exact E | reflexivity]].
    + destruct (contains q (lower (text page))) eqn:E;
        [left; split; [apply contains_occurs; exact E | reflexivity]
        |right; split; [apply contains_not_occurs; exact E | reflexivity]].
Qed.

(** C2. For a query that is not empty after trimming, the score of every
    page is the sum of three independent checks of the lower-cased query
    against the lower-cased title (5), slug (4) and text (1); the
    candidates are exactly the pages of the index whose score is
    positive, and the hits are the first [max(1, min(limit, 20))] of
    them, each carrying its page's score. *)
Theorem search_scores query0 limit s r s' :
  search query0 limit s = (Returned r, s') ->
  lower (strip query0) <> [] ->
  let q := lower (strip query0) in
  (forall page, score_is q page (page_score q page))
  /\ (forall h, In h (sr_results r) -> (0 < hit_score h)%Z)
  /\ exists ranked,
       Permutation ranked
         (filter (fun p => (0 <? page_score q p)%Z)
                 (dict_values (pages (index s'))))
       /\ sr_results r =
          map (fun p => make_hit q (page_score q p, p))
              (firstn (Z.to_nat (clamp_limit limit)) ranked).
Proof.
  intros H Hq q. apply search_returns in H. subst r.
  split; [intros page; apply page_score_spec|].
  rewrite search_index_results by exact Hq. fold q.
  rewrite score_pages_eq.
  set (cands := filter (fun p => (0 <? page_score q p)%Z)
                       (dict_values (pages (index s')))).
  destruct (Permutation_map_inv (fun p => (page_score q p, p)) cands
              (sort_by_perm search_key tuple_leb
                 (map (fun p => (page_score q p, p)) cands)))
    as [ranked [Hr Hp]].
  assert (Hres :
    map (make_hit q)
        (firstn (Z.to_nat (clamp_limit limit))
           (sort_by search_key tuple_leb
              (map (fun p => (page_score q p, p)) cands))) =
    map (fun p => make_hit q (page_score q p, p))
        (firstn (Z.to_nat (clamp_limit limit)) ranked)).
  { rewrite Hr, firstn_map, map_map. reflexivity. }
  split.
  - intros h Hh. rewrite Hres in Hh. apply in_map_iff in Hh.
    destruct Hh as [p [<- Hp']]. simpl.
    apply In_firstn in Hp'.
    apply (Permutation_in _ (Permutation_sym Hp)) in Hp'.
    apply filter_In in Hp'. destruct Hp' as [_ Hpos].
    apply Z.ltb_lt. exact Hpos.
  - exists ranked. split; [symmetry; exact Hp | exact Hres].
Qed.

Lemma make_snippet_spec q page :
  (exists i, first_occurrence q (lower (text page)) i
             /\ make_snippet q page = collapse_ws (window (text page) i))
  \/ (~ occurs_in q (lower (text page))
      /\ make_snippet q page = collapse_ws (firstn 240 (text page))).
Proof.
  unfold make_snippet.
  destruct (str_find_spec (lower (text page)) q) as [[i [Hi Hf]]|[Hi Hn]];
    rewrite Hi.
  - left. exists i. split; [exact Hf|].
    destruct (Z.of_nat i <? 0)%Z eqn:E; [apply Z.ltb_lt in E; lia|].
    unfold collapse_ws, window. f_equal. f_equal.
    rewrite slice_nonneg by lia.
    replace (Z.to_nat (Z.max 0 (Z.of_nat i - 80))) with (i - 80) by lia.
    f_equal. apply firstn_same_min. lia.
  - right. split; [exact Hn|].
    replace (-1 <? 0)%Z with true by reflexivity.
    rewrite slice_to_firstn by lia. reflexivity.
Qed.

(** On text of the code points U+0000..U+00FF, where lower-casing keeps
    every index: every hit belongs to a page of the index, and its
    snippet is the whitespace-collapsed window from 80 characters before
    to 160 characters after the first occurrence of the lower-cased
    query in the lower-cased text when there is one, and the
    whitespace-collapsed first 240 characters of the text otherwise.
    On other text the window can miss the occurrence, as the section on
    text beyond U+00FF shows. *)
Lemma search_snippet query0 limit s r s' h :
  search query0 limit s = (Returned r, s') ->
  In h (sr_results r) ->
  let q := lower (strip query0) in
  exists page,
    In page (dict_values (pages (index s')))
    /\ hit_title h = title page
    /\ hit_slug h = slug page
    /\ hit_url h = url page
    /\ ((exists i,
           first_occurrence q (lower (text page)) i
           /\ hit_snippet h = collapse_ws (window (text page) i))
        \/ (~ occurs_in q (lower (text page))
            /\ hit_snippet h = collapse_ws (firstn 240 (text page)))).
Proof.
  intros H Hh q. apply search_returns in H. subst r.
  destruct (lower (strip query0)) as [|c q'] eqn:E.
  - rewrite search_index_empty in Hh by exact E. destruct Hh.
  - rewrite search_index_results in Hh by (rewrite E; discriminate).
    rewrite E in Hh. apply in_map_iff in Hh.
    destruct Hh as [[k page] [<- Hin]].
    apply In_firstn in Hin.
    apply (Permutation_in _ (sort_by_perm search_key tuple_leb _)) in Hin.
    rewrite score_pages_eq in Hin. apply in_map_iff in Hin.
    destruct Hin as [p [Hp Hin]]. inversion Hp; subst; clear Hp.
    apply filter_In in Hin. destruct Hin as [Hin _].
    exists page. simpl. repeat split; try assumption.
    apply make_snippet_spec.
Qed.

(** *** get_member *)

Lemma get_member_returns service class_name member s r s' :
  get_member service class_name member s = (Returned r, s') ->
  r = resolve_member (index s') service class_name member.
Proof.
  unfold Server.get_member, bind, get_index, ret.
  destruct (ensure_fresh s) as [[st|e] s1]; intros H; inversion H.
  reflexivity.
Qed.

Lemma member_score_tier target class_name member mid :
  member_tier target class_name member mid
              (member_score target class_name member mid).
Proof.
  unfold member_tier, member_score.
  destruct (str_eqb target (lower mid)) eqn:E1.
  { left. split; [apply str_eqb_eq; exact E1 | reflexivity]. }
  apply str_eqb_neq in E1.
  destruct (contains target (lower mid)) eqn:E2.
  { right; left. apply contains_occurs in E2. auto. }
  apply contains_not_occurs in E2.
  destruct (contains (lower member) (lower mid)) eqn:E3.
  - apply contains_occurs in E3.
    destruct (contains (lower class_name) (lower mid)) eqn:E4; simpl.
    + apply contains_occurs in E4. right; right; left. auto.
    + apply contains_not_occurs in E4. right; right; right; left. auto.
  - apply contains_not_occurs in E3. simpl. right; right; right; right.
    auto.
Qed.

Lemma member_score_nonneg target class_name member mid :
  (0 <= member_score target class_name member mid)%Z.
Proof.
  unfold member_score.
  repeat match goal with
         | |- context [if ?b then _ else _] => destruct b
         end; lia.
Qed.

Lemma member_candidates_eq target class_name member items :
  member_candidates target class_name member items =
  map (fun e => (member_score target class_name member (fst e),
                 fst e, snd e))
      (filter
         (fun e =>
            negb (member_score target class_name member (fst e) =? 0)%Z)
         items).
Proof.
  induction items as [|[mid entry] items IH]; simpl; [reflexivity|].
  destruct (negb (member_score target class_name member mid =? 0)%Z);
    simpl; rewrite IH; reflexivity.
Qed.

Lemma StronglySorted_map_inv {A B} (R : A -> A -> Prop)
      (S : B -> B -> Prop) (f : A -> B) (l : list A) :
  (forall x y, S (f x) (f y) -> R x y) ->
  StronglySorted S (map f l) -> StronglySorted R l.
Proof.
  intros Hf. induction l as [|x l IH]; simpl; intros H; [constructor|].
  inversion H as [|? ? Hs Hall]; subst. constructor; [auto|].
  apply Forall_forall. intros y Hy. apply Hf.
  rewrite Forall_forall in Hall. apply Hall. apply in_map. exact Hy.
Qed.

(** The candidates of [get_member], as pairs of an id and its entry. *)
Lemma resolve_member_ranked self service class_name member :
  let target :=
    lower (service ++ py "." ++ class_name ++ py "." ++ member) in
  let score := member_score target class_name member in
  exists cands : list (str * dict str),
    Permutation cands
      (filter (fun e => negb (score (fst e) =? 0)%Z) (members self))
    /\ StronglySorted
         (fun a b => (score (fst b) <= score (fst a))%Z) cands
    /\ resolve_member self service class_name member =
       match cands with
       | [] =>
           MemberNotFound (py "not_found")
             (py "No API member matched " ++ service ++ py "."
              ++ class_name ++ py "." ++ member)
       | best :: rest =>
           MemberFound (service, class_name, member)
             (mkBest (fst best)
                     (get_or (snd best) (py "title") [])
                     (get_or (snd best) (py "url") [])
                     (get_or (snd best) (py "signature") [])
                     (get_or (snd best) (py "description") []))
             (map (fun e => mkAlt (fst e)
                                  (get_or (snd e) (py "title") [])
                                  (get_or (snd e) (py "url") []))
                  (firstn 5 rest))
       end.
Proof.
  intros target score. unfold resolve_member. fold target.
  rewrite member_candidates_eq. fold score.
  set (f := fun e : str * dict str => (score (fst e), fst e, snd e)).
  set (kept := filter (fun e => negb (score (fst e) =? 0)%Z)
                      (members self)).
  set (key := fun x : Z * str * dict str => (- fst (fst x))%Z).
  destruct (Permutation_map_inv f kept
              (sort_by_perm key Z.leb (map f kept))) as [cands [Hc Hp]].
  exists cands. split; [symmetry; exact Hp|]. split.
  - apply StronglySorted_map_inv with (S := key_le key Z.leb) (f := f).
    + intros x y. unfold key_le, key, f. simpl. rewrite Z.leb_le. lia.
    + rewrite <- Hc. apply sort_by_sorted;
        [apply Z_leb_total | apply Z_leb_trans].
  - rewrite Hc. destruct cands as [|[bid bentry] rest]; [reflexivity|].
    simpl map at 1. cbv beta iota. unfold f at 1. simpl fst. simpl snd.
    f_equal. rewrite slice_nonneg by lia.
    change (Z.to_nat 6) with 6. change (Z.to_nat 1) with 1.
    replace (skipn 1 (firstn 6 (map f ((bid, bentry) :: rest))))
      with (firstn 5 (map f rest)) by reflexivity.
    rewrite firstn_map, map_map.
    apply map_ext. intros [mid entry]. reflexivity.
Qed.

(** C3. With [target] the lower-cased key "service.class.member", every
    member id is scored 100, 80, 50, 20 or 0 by the first tier it meets
    (equal to the key, containing the key, containing both names,
    containing the member name); the candidates are the ids that score
    above 0, in descending order of score; the first is returned in full
    with at most 5 runner-ups (id, title, url), and the not-found result
    is returned exactly when no id scores above 0. *)
Theorem get_member_ranking service class_name member s r s' :
  get_member service class_name member s = (Returned r, s') ->
  let target :=
    lower (service ++ py "." ++ class_name ++ py "." ++ member) in
  let score := member_score target class_name member in
  (forall mid, member_tier target class_name member mid (score mid))
  /\ (exists cands : list (str * dict str),
        Permutation cands
          (filter (fun e => negb (score (fst e) =? 0)%Z)
                  (members (index s')))
        /\ StronglySorted
             (fun a b => (score (fst b) <= score (fst a))%Z) cands
        /\ r =
           match cands with
           | [] =>
               MemberNotFound (py "not_found")
                 (py "No API member matched " ++ service ++ py "."
                  ++ class_name ++ py "." ++ member)
           | best :: rest =>
               MemberFound (service, class_name, member)
                 (mkBest (fst best)
                         (get_or (snd best) (py "title") [])
                         (get_or (snd best) (py "url") [])
                         (get_or (snd best) (py "signature") [])
                         (get_or (snd best) (py "description") []))
                 (map (fun e => mkAlt (fst e)
                                      (get_or (snd e) (py "title") [])
                                      (get_or (snd e) (py "url") []))
                      (firstn 5 rest))
           end)
  /\ ((exists e m, r = MemberNotFound e m)
      <-> forall mid entry,
            In (mid, entry) (members (index s')) -> (score mid <= 0)%Z).
Proof.
  intros H target score. apply get_member_returns in H. subst r.
  split; [intros mid; apply member_score_tier|].
  destruct (resolve_member_ranked (index s') service class_name member)
    as [cands [Hp [Hs Hr]]].
  fold target in Hp, Hs, Hr. fold score in Hp, Hs, Hr.
  split; [exists cands; auto|].
  rewrite Hr. split.
  - intros [e [m Hnf]] mid entry Hin.
    destruct cands as [|best rest]; [|discriminate Hnf].
    apply Permutation_nil in Hp.
    destruct (score mid =? 0)%Z eqn:E; [apply Z.eqb_eq in E; lia|].
    assert (Hk : In (mid, entry)
                    (filter (fun e => negb (score (fst e) =? 0)%Z)
                            (members (index s')))).
    { apply filter_In. split; [exact Hin|]. simpl. rewrite E. reflexivity. }
    rewrite Hp in Hk. destruct Hk.
  - intros Hall. destruct cands as [|[bid bentry] rest].
    + eexists. eexists. reflexivity.
    + exfalso.
      assert (Hk : In (bid, bentry)
                      (filter (fun e => negb (score (fst e) =? 0)%Z)
                              (members (index s')))).
      { apply (Permutation_in _ Hp). left. reflexivity. }
      apply filter_In in Hk. destruct Hk as [Hin Hnz]. simpl in Hnz.
      pose proof (Hall _ _ Hin) as Hle.
      pose proof (member_score_nonneg target class_name member bid) as Hge.
      fold score in Hge.
      assert (score bid = 0%Z) as Hz by lia.
      rewrite Hz in Hnz. discriminate Hnz.
Qed.

(** C9. With the empty string as member name every id scores at least
    20, so on a non-empty member map [get_member] returns a best match
    and never the not-found result. *)
Theorem get_member_empty_name service class_name s r s' :
  get_member service class_name [] s = (Returned r, s') ->
  members (index s') <> [] ->
  let target := lower (service ++ py "." ++ class_name ++ py "." ++ []) in
  (forall mid, (20 <= member_score target class_name [] mid)%Z)
  /\ exists q best alts, r = MemberFound q best alts.
Proof.
  intros H Hne target.
  assert (Hscore : forall mid,
             (20 <= member_score target class_name [] mid)%Z).
  { intros mid. unfold member_score. simpl lower.
    rewrite contains_nil. simpl.
    repeat match goal with
           | |- context [if ?b then _ else _] => destruct b
           end; lia. }
  split; [exact Hscore|].
  apply get_member_returns in H. subst r.
  destruct (resolve_member_ranked (index s') service class_name [])
    as [cands [Hp [_ Hr]]].
  fold target in Hp, Hr. rewrite Hr.
  destruct cands as [|best rest]; [|eexists; eexists; eexists; reflexivity].
  exfalso. apply Permutation_nil in Hp.
  destruct (members (index s')) as [|[mid entry] ms]; [congruence|].
  simpl in Hp. pose proof (Hscore mid) as Hm.
  destruct (member_score target class_name [] mid =? 0)%Z eqn:E;
    [apply Z.eqb_eq in E; lia | discriminate Hp].
Qed.

(** *** get_page and the shape of a miss *)

Lemma get_page_after_refresh slug_or_url s st s1 :
  ensure_fresh s = (Returned st, s1) ->
  get_page slug_or_url s =
  match normalize_slug_or_url slug_or_url with
  | Raised e => (Raised e, s1)
  | Returned key =>
      match dict_get key (pages (index s1)) with
      | None =>
          (Returned
             (PageNotFound (py "not_found")
                (py "No page found for '" ++ slug_or_url ++ py "'.")), s1)
      | Some page =>
          (Returned
             (PageFound (title page) (slug page) (url page) (text page)
                        (indexed_at (index s1))), s1)
      end
  end.
Proof.
  intros H. unfold Server.get_page, bind, lift, get_index, ret.
  rewrite H.
  destruct (normalize_slug_or_url slug_or_url) as [key|e]; [|reflexivity].
  destruct (dict_get key (pages (index s1))); reflexivity.
Qed.



(** *** reindex *)

(** C6, as amended. On a store whose page map is not empty and whose
    snapshot is fresh ([indexed_at] set, at most 24 hours before the
    clock), [reindex(force=False)] returns the current status and
    changes nothing: same pages, members and [indexed_at], same cache
    files, and no URL is requested. *)
Theorem reindex_fresh_is_noop s t :
  pages (index s) <> [] ->
  indexed_at (index s) = Some t ->
  (clock_check w - t <= FRESH_WINDOW)%Z ->
  reindex false s =
  (Returned (mkStatus (py "ok") (py "Index already fresh.") (Iso t)), s).
Proof.
  intros Hne Ht Hfresh. unfold Server.reindex, is_stale, stamp_of.
  rewrite Ht.
  destruct (pages (index s)) as [|p ps]; [congruence|].
  replace (FRESH_WINDOW <? clock_check w - t)%Z with false
    by (symmetry; apply Z.ltb_ge; exact Hfresh).
  reflexivity.
Qed.

(** *** The crawler *)

(** The loop, as the [while] statement reads. *)
Lemma crawl_loop_eq c :
  crawl_loop c =
  if crawl_cond c then
    match crawl_body c with
    | Next c' => crawl_loop c'
    | Throw e reqs => Throw e reqs
    end
  else Next c.
Proof.
  assert (Hbody : forall st (Hb : crawl_body c = st) Hc,
    crawl_loop_unfold_clause_1_clause_2 bracketed_netloc_ok urljoin w c
      (exist _ st Hb) Hc =
    match st with
    | Next c' => crawl_loop c'
    | Throw e reqs => Throw e reqs
    end).
  { intros [c'|e reqs] Hb Hc; simp crawl_loop; reflexivity. }
  assert (Hcond : forall b (Hc : crawl_cond c = b),
    crawl_loop_unfold_clause_1 bracketed_netloc_ok urljoin w c
      (exist _ b Hc) =
    if b then
      match crawl_body c with
      | Next c' => crawl_loop c'
      | Throw e reqs => Throw e reqs
      end
    else Next c).
  { intros [|] Hc; simp crawl_loop; [|reflexivity].
    apply (Hbody (crawl_body c) eq_refl Hc). }
  rewrite crawl_loop_equation_1. apply (Hcond (crawl_cond c) eq_refl).
Qed.

(** Induction over the turns of the loop. *)
Lemma crawl_loop_induction (P : Crawl -> step -> Prop) :
  (forall c, crawl_cond c = false -> P c (Next c)) ->
  (forall c c', crawl_cond c = true -> crawl_body c = Next c' ->
                P c' (crawl_loop c') -> P c (crawl_loop c')) ->
  (forall c e reqs, crawl_cond c = true ->
                    crawl_body c = Throw e reqs -> P c (Throw e reqs)) ->
  forall c, P c (crawl_loop c).
Proof.
  intros Hstop Hnext Hthrow c.
  remember (crawl_measure c) as m eqn:Hm. revert c Hm.
  induction (crawl_order_wf m) as [m _ IH]. intros c Hm. subst m.
  rewrite crawl_loop_eq.
  destruct (crawl_cond c) eqn:Hc; [|apply Hstop; exact Hc].
  destruct (crawl_body c) as [c'|e reqs] eqn:Hb.
  - apply Hnext; [exact Hc | exact Hb|].
    apply (IH (crawl_measure c')); [|reflexivity].
    eapply crawl_body_decreases; eassumption.
  - apply Hthrow; assumption.
Qed.

Lemma crawl_body_turn c :
  to_visit c <> [] -> turn bracketed_netloc_ok w c (crawl_body c).
Proof.
  intros Hne. unfold Server.crawl_body.
  destruct (to_visit c) as [|first rest] eqn:Etv; [congruence|].
  destruct (normalize_url first) as [u|e] eqn:En;
    [|eapply turn_bad_url; eassumption].
  destruct (str_in u (seen c)) eqn:Es; [eapply turn_seen; eassumption|].
  destruct (http_get w u) as [soup|] eqn:Eg;
    [|eapply turn_failed; eassumption].
  unfold visit_page.
  match goal with
  | |- turn _ _ _ (match ?r with _ => _ end) => destruct r as [c'|e] eqn:Er
  end; [|eapply turn_raised; eassumption].
  unfold obind in Er.
  repeat match type of Er with
         | match ?x with _ => _ end = _ =>
             let E := fresh "E" in destruct x eqn:E; try discriminate Er
         end;
    inversion Er; subst c'; eapply turn_page; eassumption.
Qed.

Lemma crawled_elements_snoc pgs p :
  crawled_elements w (pgs ++ [p]) =
  crawled_elements w pgs ++ page_elements w p.
Proof.
  unfold crawled_elements. rewrite flat_map_app. simpl.
  rewrite app_nil_r. reflexivity.
Qed.

Lemma fold_add_member u sl page_title body dts m :
  fold_left (add_member u page_title) dts m =
  fold_left (put element_id element_entry)
            (map (pair (mkDocPage u sl page_title body)) dts) m.
Proof.
  revert m; induction dts as [|dt dts IH]; intros m; simpl; [reflexivity|].
  rewrite IH. reflexivity.
Qed.

Lemma crawl_turn_inv c r :
  crawl_cond c = true -> crawl_inv c -> turn bracketed_netloc_ok w c r ->
  match r with
  | Next c' => crawl_inv c'
  | Throw e reqs => NoDup reqs /\ length reqs <= MAX_PAGES
                    /\ Forall (fun u => exists x,
                                 normalize_url x = Returned u) reqs
  end.
Proof.
  intros Hc [Hreq [Hnd [Hlen [Hnorm Hmem]]]] Ht.
  unfold crawl_cond in Hc. apply andb_prop in Hc. destruct Hc as [_ Hlt].
  apply Nat.ltb_lt in Hlt.
  assert (Hsnoc : forall first u,
             normalize_url first = Returned u ->
             str_in u (seen c) = false ->
             NoDup (seen c ++ [u])
             /\ length (seen c ++ [u]) <= MAX_PAGES
             /\ Forall (fun u => exists x, normalize_url x = Returned u)
                       (seen c ++ [u])).
  { intros first u Hn Hs. split; [|split].
    - apply NoDup_snoc; [exact Hnd | apply str_in_not_In; exact Hs].
    - rewrite length_app. simpl. lia.
    - apply Forall_app. split; [exact Hnorm|].
      constructor; [exists first; exact Hn | constructor]. }
  destruct Ht as [first rest e Htv Hn
                 |first rest u Htv Hn Hs
                 |first rest u Htv Hn Hs Hg
                 |first rest u soup e Htv Hn Hs Hg
                 |first rest u soup sl page_title frontier Htv Hn Hs Hg].
  - rewrite Hreq. auto.
  - unfold crawl_inv; simpl. auto.
  - destruct (Hsnoc _ _ Hn Hs) as [H1 [H2 H3]].
    unfold crawl_inv; simpl. rewrite Hreq. auto.
  - rewrite Hreq. exact (Hsnoc _ _ Hn Hs).
  - destruct (Hsnoc _ _ Hn Hs) as [H1 [H2 H3]].
    unfold crawl_inv; simpl. rewrite Hreq.
    repeat (split; [assumption || reflexivity|]).
    rewrite crawled_elements_snoc, fold_left_app, <- Hmem.
    unfold page_elements. simpl url. rewrite Hg.
    apply fold_add_member.
Qed.

Lemma crawl_loop_inv c :
  crawl_inv c ->
  match crawl_loop c with
  | Next c' => crawl_inv c' /\ crawl_cond c' = false
  | Throw e reqs => NoDup reqs /\ length reqs <= MAX_PAGES
                    /\ Forall (fun u => exists x,
                                 normalize_url x = Returned u) reqs
  end.
Proof.
  apply (crawl_loop_induction
           (fun c r =>
              crawl_inv c ->
              match r with
              | Next c' => crawl_inv c' /\ crawl_cond c' = false
              | Throw e reqs =>
                  NoDup reqs /\ length reqs <= MAX_PAGES
                  /\ Forall (fun u => exists x,
                               normalize_url x = Returned u) reqs
              end)).
  - intros c0 Hc Hinv. auto.
  - intros c0 c' Hc Hb IH Hinv. apply IH.
    assert (Hne : to_visit c0 <> []).
    { unfold crawl_cond in Hc. destruct (to_visit c0); [discriminate Hc|].
      discriminate. }
    pose proof (crawl_turn_inv c0 _ Hc Hinv (crawl_body_turn c0 Hne)) as Ht.
    rewrite Hb in Ht. exact Ht.
  - intros c0 e reqs Hc Hb Hinv.
    assert (Hne : to_visit c0 <> []).
    { unfold crawl_cond in Hc. destruct (to_visit c0); [discriminate Hc|].
      discriminate. }
    pose proof (crawl_turn_inv c0 _ Hc Hinv (crawl_body_turn c0 Hne)) as Ht.
    rewrite Hb in Ht. exact Ht.
Qed.

Lemma crawl_inv_start : crawl_inv (mkCrawl [ROOT_URL] [] [] [] []).
Proof.
  unfold crawl_inv; simpl. repeat split; try constructor. simpl. lia.
Qed.

(** C10. The member map that a crawl returns has one record per id, and
    for every id it is the record of the last element read with that
    id: records of earlier elements with the same id were overwritten. *)
Theorem crawl_members_last_wins pgs mems reqs :
  crawl_docs = (Returned (pgs, mems), reqs) ->
  dict_wf mems
  /\ forall mid entry,
       dict_get mid mems = Some entry
       <-> exists before e after,
             crawled_elements w pgs = before ++ e :: after
             /\ element_id e = mid /\ mid <> []
             /\ (forall e', In e' after -> element_id e' <> mid)
             /\ entry = element_entry e.
Proof.
  unfold Server.crawl_docs. intros H.
  pose proof (crawl_loop_inv _ crawl_inv_start) as Hinv.
  destruct (crawl_loop (mkCrawl [ROOT_URL] [] [] [] []))
    as [c|e reqs'] eqn:E; [|discriminate H].
  inversion H; subst; clear H.
  destruct Hinv as [[_ [_ [_ [_ Hmem]]]] _]. rewrite Hmem. split.
  - apply fold_put_wf. constructor.
  - intros mid entry. apply fold_put_last.
Qed.
End Properties.

(* ===================================================================== *)
(** ** Properties of URL normalization *)
(* ===================================================================== *)

(** *** Searching for one character *)

Lemma char_in_cons (c x : ascii) (s : str) :
  char_in c (x :: s) = Ascii.eqb c x || char_in c s.
Proof. reflexivity. Qed.

Lemma char_in_app (c : ascii) (a b : str) :
  char_in c (a ++ b) = char_in c a || char_in c b.
Proof. unfold char_in. apply existsb_app. Qed.

Lemma not_char_eqb (c x : ascii) : not_char c x = negb (Ascii.eqb c x).
Proof. unfold not_char. rewrite Ascii.eqb_sym. reflexivity. Qed.

Lemma before_after (c : ascii) (s : str) :
  char_in c s = true -> s = before c s ++ c :: after c s.
Proof.
  unfold before, after. induction s as [|x s IH]; [discriminate|].
  rewrite char_in_cons. cbn [takewhile dropwhile]. rewrite not_char_eqb.
  destruct (Ascii.eqb c x) eqn:E; cbn [negb orb tl app].
  - intros _. apply Ascii.eqb_eq in E. subst. reflexivity.
  - intros H. f_equal. apply IH. exact H.
Qed.

Lemma before_clean (c : ascii) (s : str) : char_in c (before c s) = false.
Proof.
  unfold before. induction s as [|x s IH]; [reflexivity|].
  cbn [takewhile]. rewrite not_char_eqb.
  destruct (Ascii.eqb c x) eqn:E; cbn [negb].
  - reflexivity.
  - rewrite char_in_cons, E, IH. reflexivity.
Qed.

Lemma before_all (c : ascii) (s : str) :
  char_in c s = false -> before c s = s.
Proof.
  unfold before. induction s as [|x s IH]; [reflexivity|].
  rewrite char_in_cons. cbn [takewhile]. rewrite not_char_eqb.
  destruct (Ascii.eqb c x); cbn [negb orb]; [discriminate|].
  intros H. f_equal. apply IH. exact H.
Qed.

Lemma before_app (c : ascii) (a b : str) :
  char_in c a = false -> before c (a ++ c :: b) = a.
Proof.
  unfold before. induction a as [|x a IH]; cbn [app takewhile].
  - intros _. unfold not_char. rewrite Ascii.eqb_refl. reflexivity.
  - rewrite char_in_cons, not_char_eqb.
    destruct (Ascii.eqb c x); cbn [negb orb]; [discriminate|].
    intros H. f_equal. apply IH. exact H.
Qed.

Lemma startswith_char (s : str) (c : ascii) :
  startswith s [c] =
  match s with
  | x :: _ => Ascii.eqb c x
  | [] => false
  end.
Proof.
  destruct s as [|x s]; [reflexivity|]. simpl.
  destruct s; apply andb_true_r.
Qed.

Lemma find_at_char (c : ascii) (s : str) (i : nat) :
  find_at [c] s i =
  if char_in c s then Some (i + length (before c s)) else None.
Proof.
  revert i; induction s as [|x s IH]; intros i; rewrite find_at_eq,
    startswith_char; [reflexivity|].
  rewrite char_in_cons. unfold before. cbn [takewhile].
  rewrite not_char_eqb.
  destruct (Ascii.eqb c x); cbn [negb orb length].
  - f_equal. lia.
  - rewrite IH. destruct (char_in c s); [|reflexivity].
    f_equal. unfold before. lia.
Qed.

Lemma contains_char (c : ascii) (s : str) : contains [c] s = char_in c s.
Proof.
  unfold contains. rewrite find_at_char. destruct (char_in c s); reflexivity.
Qed.

Lemma str_find_char (c : ascii) (s : str) :
  str_find s [c] =
  if char_in c s then Z.of_nat (length (before c s)) else (-1)%Z.
Proof.
  unfold str_find. rewrite find_at_char. destruct (char_in c s); reflexivity.
Qed.

Lemma str_find_from_char (c : ascii) (s : str) (k : nat) :
  k <= length s ->
  str_find_from s [c] k =
  if char_in c (skipn k s)
  then Z.of_nat (k + length (before c (skipn k s)))
  else (-1)%Z.
Proof.
  intros Hk. unfold str_find_from.
  replace (length s <? k) with false by (symmetry; apply Nat.ltb_ge; lia).
  rewrite find_at_char. destruct (char_in c (skipn k s)); reflexivity.
Qed.

Lemma split_once_char (c : ascii) (s : str) :
  char_in c s = true -> split_once c s = (before c s, after c s).
Proof.
  unfold before, after. induction s as [|x s IH]; [discriminate|].
  rewrite char_in_cons. cbn [split_once takewhile dropwhile].
  unfold not_char at 1 3. rewrite (Ascii.eqb_sym c x).
  destruct (Ascii.eqb x c); cbn [negb orb tl]; [reflexivity|].
  intros H. rewrite (IH H). reflexivity.
Qed.

(** *** Slices of a concatenation *)

Lemma slice_to_app (a b : str) :
  slice_to (a ++ b) (Z.of_nat (length a)) = a.
Proof.
  rewrite slice_to_firstn by lia. rewrite Nat2Z.id.
  rewrite firstn_app, Nat.sub_diag, firstn_all. simpl. apply app_nil_r.
Qed.

Lemma slice_from_app (a b : str) :
  slice_from (a ++ b) (Z.of_nat (length a)) = b.
Proof.
  unfold slice_from. rewrite slice_nonneg by lia.
  rewrite !Nat2Z.id, firstn_all, skipn_app, Nat.sub_diag, skipn_all.
  reflexivity.
Qed.

Lemma slice_from_app_next (a : str) (c : ascii) (b : str) :
  slice_from (a ++ c :: b) (Z.of_nat (length a) + 1) = b.
Proof.
  replace (a ++ c :: b) with ((a ++ [c]) ++ b)
    by (rewrite <- app_assoc; reflexivity).
  replace (Z.of_nat (length a) + 1)%Z with (Z.of_nat (length (a ++ [c])))
    by (rewrite length_app; simpl; lia).
  apply slice_from_app.
Qed.

Lemma slice_mid (a b c : str) :
  slice (a ++ b ++ c) (Z.of_nat (length a)) (Z.of_nat (length a + length b))
  = b.
Proof.
  rewrite slice_nonneg by lia. rewrite !Nat2Z.id.
  rewrite app_assoc.
  replace (length a + length b) with (length (a ++ b))
    by (rewrite length_app; reflexivity).
  rewrite firstn_app, Nat.sub_diag, firstn_all. simpl. rewrite app_nil_r.
  rewrite skipn_app, Nat.sub_diag, skipn_all. reflexivity.
Qed.

(** *** Character classes *)

Ltac ascii_cases c := destruct c as [[] [] [] [] [] [] [] []].

Lemma scheme_char_facts (c : ascii) :
  Urllib.scheme_char c = true ->
  Urllib.unsafe_url_byte c = false
  /\ Urllib.c0_control_or_space c = false
  /\ char_in c (py ":/?#;") = false.
Proof. ascii_cases c; vm_compute; intros H; try discriminate H; auto. Qed.

Lemma alpha_not_c0 (c : ascii) :
  Urllib.is_ascii_alpha c = true -> Urllib.c0_control_or_space c = false.
Proof. ascii_cases c; vm_compute; intros H; try discriminate H; auto. Qed.

Lemma netloc_char_facts (c : ascii) :
  netloc_char c = true ->
  Urllib.unsafe_url_byte c = false /\ char_in c (py "/?#") = false.
Proof.
  unfold netloc_char, authority_end. rewrite andb_true_iff, !negb_true_iff.
  tauto.
Qed.

Lemma path_char_facts (c : ascii) :
  path_char c = true ->
  Urllib.unsafe_url_byte c = false /\ char_in c (py "?#") = false.
Proof.
  unfold path_char. rewrite andb_true_iff, !negb_true_iff. tauto.
Qed.

(** No character of [s] is [x] when every character of [s] is in a class
    that leaves [x] out. *)
Lemma forallb_char_out (f : ascii -> bool) (x : ascii) (s : str) :
  (forall c, f c = true -> Ascii.eqb x c = false) ->
  forallb f s = true -> char_in x s = false.
Proof.
  intros Hf. induction s as [|c s IH]; [reflexivity|].
  cbn [forallb]. rewrite andb_true_iff, char_in_cons. intros [Hc Hs].
  rewrite (Hf c Hc), (IH Hs). reflexivity.
Qed.

Lemma forallb_weaken (f g : ascii -> bool) (s : str) :
  (forall c, f c = true -> g c = true) ->
  forallb f s = true -> forallb g s = true.
Proof.
  intros Hfg. rewrite !forallb_forall. auto.
Qed.

Lemma filter_all {A} (f : A -> bool) (l : list A) :
  forallb f l = true -> filter f l = l.
Proof.
  induction l as [|x l IH]; [reflexivity|]. cbn [forallb filter].
  rewrite andb_true_iff. intros [Hx Hl]. rewrite Hx, (IH Hl). reflexivity.
Qed.

Lemma filter_forallb {A} (f : A -> bool) (l : list A) :
  forallb f (filter f l) = true.
Proof.
  apply forallb_forall. intros x Hx. apply filter_In in Hx. tauto.
Qed.

Lemma scheme_char_colon (c : ascii) :
  Urllib.scheme_char c = true -> Ascii.eqb ":" c = false.
Proof. ascii_cases c; vm_compute; intros H; try discriminate H; auto. Qed.

Lemma scheme_char_safe (c : ascii) :
  Urllib.scheme_char c = true -> safe_char c = true.
Proof.
  intros H. unfold safe_char. destruct (scheme_char_facts c H) as [Hs _].
  rewrite Hs. reflexivity.
Qed.

Lemma netloc_char_safe (c : ascii) : netloc_char c = true -> safe_char c = true.
Proof.
  intros H. unfold safe_char. destruct (netloc_char_facts c H) as [Hs _].
  rewrite Hs. reflexivity.
Qed.

Lemma path_char_safe (c : ascii) : path_char c = true -> safe_char c = true.
Proof.
  intros H. unfold safe_char. destruct (path_char_facts c H) as [Hs _].
  rewrite Hs. reflexivity.
Qed.

Lemma netloc_char_out (x c : ascii) :
  char_in x (py "/?#") = true -> netloc_char c = true -> Ascii.eqb x c = false.
Proof.
  intros Hx Hc. destruct (netloc_char_facts c Hc) as [_ Hout].
  destruct (Ascii.eqb x c) eqn:E; [|reflexivity].
  apply Ascii.eqb_eq in E. subst. congruence.
Qed.

Lemma path_char_out (x c : ascii) :
  char_in x (py "?#") = true -> path_char c = true -> Ascii.eqb x c = false.
Proof.
  intros Hx Hc. destruct (path_char_facts c Hc) as [_ Hout].
  destruct (Ascii.eqb x c) eqn:E; [|reflexivity].
  apply Ascii.eqb_eq in E. subst. congruence.
Qed.

(** *** Splitting a URL that [urlunsplit] wrote *)

Lemma dropwhile_head (f : ascii -> bool) (x : ascii) (s : str) :
  f x = false -> dropwhile f (x :: s) = x :: s.
Proof. intros H. cbn [dropwhile]. rewrite H. reflexivity. Qed.

Lemma splitnetloc_authority (n pth : str) :
  forallb netloc_char n = true ->
  forallb path_char pth = true ->
  rooted pth ->
  Urllib._splitnetloc (py "//" ++ n ++ pth) 2 = (n, pth).
Proof.
  intros Hn Hp Hroot.
  assert (Hlen : 2 <= length (py "//" ++ n ++ pth))
    by (rewrite length_app; simpl; lia).
  assert (Hskip : skipn 2 (py "//" ++ n ++ pth) = n ++ pth) by reflexivity.
  assert (Hout : forall x, char_in x (py "/?#") = true -> char_in x n = false).
  { intros x Hx. apply (forallb_char_out netloc_char); [|exact Hn].
    intros c Hc. apply (netloc_char_out x c Hx Hc). }
  assert (Hpout : forall x, char_in x (py "?#") = true ->
                            char_in x pth = false).
  { intros x Hx. apply (forallb_char_out path_char); [|exact Hp].
    intros c Hc. apply (path_char_out x c Hx Hc). }
  assert (Hq : str_find_from (py "//" ++ n ++ pth) (py "?") 2 = (-1)%Z).
  { change (py "?") with ["?"%char]. rewrite str_find_from_char by exact Hlen.
    rewrite Hskip, char_in_app, (Hout "?"%char eq_refl),
      (Hpout "?"%char eq_refl). reflexivity. }
  assert (Hh : str_find_from (py "//" ++ n ++ pth) (py "#") 2 = (-1)%Z).
  { change (py "#") with ["#"%char]. rewrite str_find_from_char by exact Hlen.
    rewrite Hskip, char_in_app, (Hout "#"%char eq_refl),
      (Hpout "#"%char eq_refl). reflexivity. }
  assert (Hs : (pth = [] /\
                str_find_from (py "//" ++ n ++ pth) (py "/") 2 = (-1)%Z)
               \/ str_find_from (py "//" ++ n ++ pth) (py "/") 2
                  = Z.of_nat (2 + length n)).
  { change (py "/") with ["/"%char]. rewrite str_find_from_char by exact Hlen.
    rewrite Hskip. destruct Hroot as [->|[p' ->]].
    - left. split; [reflexivity|]. rewrite app_nil_r.
      rewrite (Hout "/"%char eq_refl). reflexivity.
    - right. rewrite char_in_app, char_in_cons, Ascii.eqb_refl, orb_true_r.
      rewrite before_app by (apply (Hout "/"%char eq_refl)). reflexivity. }
  unfold Urllib._splitnetloc. cbn [fold_left]. rewrite Hq, Hh.
  replace (0 <=? -1)%Z with false by reflexivity.
  assert (Hdelim :
    (if (0 <=? str_find_from (py "//" ++ n ++ pth) (py "/") 2)%Z
     then Z.min (Z.of_nat (length (py "//" ++ n ++ pth)))
                (str_find_from (py "//" ++ n ++ pth) (py "/") 2)
     else Z.of_nat (length (py "//" ++ n ++ pth)))
    = Z.of_nat (length (py "//") + length n)).
  { destruct Hs as [[-> Hs]|Hs]; rewrite Hs.
    - replace (0 <=? -1)%Z with false by reflexivity.
      rewrite app_nil_r, length_app. reflexivity.
    - replace (0 <=? Z.of_nat (2 + length n))%Z with true
        by (symmetry; apply Z.leb_le; lia).
      rewrite !length_app. change (length (py "//")) with 2. lia. }
  rewrite Hdelim. f_equal.
  - change 2%Z with (Z.of_nat (length (py "//"))). apply slice_mid.
  - rewrite app_assoc. rewrite <- length_app. apply slice_from_app.
Qed.


(** *** Splitting off the params of a path *)

Lemma last_split (c : ascii) (s : str) :
  char_in c s = true ->
  exists a b, s = a ++ c :: b /\ char_in c b = false.
Proof.
  induction s as [|x s IH]; [discriminate|].
  rewrite char_in_cons. destruct (char_in c s) eqn:Es.
  - intros _. destruct (IH eq_refl) as [a [b [-> Hb]]].
    exists (x :: a), b. split; [reflexivity | exact Hb].
  - rewrite orb_false_r. intros E. apply Ascii.eqb_eq in E. subst x.
    exists [], s. split; [reflexivity | exact Es].
Qed.

Lemma rfind_at_none (c : ascii) (s : str) (i : nat) :
  char_in c s = false -> rfind_at [c] s i = None.
Proof.
  revert i; induction s as [|x s IH]; intros i; [reflexivity|].
  rewrite char_in_cons. intros H. apply orb_false_iff in H.
  destruct H as [Hx Hs]. cbn [rfind_at]. rewrite (IH _ Hs).
  rewrite startswith_char, Hx. reflexivity.
Qed.

Lemma rfind_at_last (c : ascii) (a b : str) (i : nat) :
  char_in c b = false -> rfind_at [c] (a ++ c :: b) i = Some (i + length a).
Proof.
  intros Hb. revert i; induction a as [|x a IH]; intros i; cbn [app rfind_at].
  - rewrite (rfind_at_none c b (S i) Hb), startswith_char, Ascii.eqb_refl.
    f_equal. simpl. lia.
  - rewrite IH. f_equal. simpl. lia.
Qed.

Lemma str_rfind_last (c : ascii) (a b : str) :
  char_in c b = false -> str_rfind (a ++ c :: b) [c] = Z.of_nat (length a).
Proof.
  intros Hb. unfold str_rfind. rewrite (rfind_at_last c a b 0 Hb).
  reflexivity.
Qed.

(** [_splitparams] on a path with a slash: the params start at the first
    semicolon of the last segment. *)
Lemma splitparams_slash (a b : str) :
  char_in "/" b = false ->
  Urllib._splitparams (a ++ "/"%char :: b) =
  if char_in ";" b
  then (a ++ "/"%char :: before ";" b, after ";" b)
  else (a ++ "/"%char :: b, []).
Proof.
  intros Hb. unfold Urllib._splitparams.
  change (py "/") with ["/"%char]. change (py ";") with [";"%char].
  rewrite contains_char, char_in_app, char_in_cons, Ascii.eqb_refl,
    orb_true_r.
  rewrite (str_rfind_last "/" a b Hb), Nat2Z.id.
  rewrite str_find_from_char by (rewrite length_app; lia).
  rewrite skipn_app, Nat.sub_diag, skipn_all. cbn [app skipn].
  rewrite char_in_cons. change (Ascii.eqb ";" "/") with false. cbn [orb].
  destruct (char_in ";" b) eqn:Hsemi.
  - replace (Z.of_nat (length a + length (before ";" ("/"%char :: b)))
             <? 0)%Z with false by (symmetry; apply Z.ltb_ge; lia).
    assert (Hbef : before ";" ("/"%char :: b) = "/"%char :: before ";" b)
      by reflexivity.
    rewrite Hbef.
    rewrite (before_after ";" b Hsemi) at 1 3.
    replace (a ++ "/"%char :: before ";" b ++ ";"%char :: after ";" b)
      with ((a ++ "/"%char :: before ";" b) ++ ";"%char :: after ";" b)
      by (rewrite <- app_assoc; reflexivity).
    replace (length a + length ("/"%char :: before ";" b))
      with (length (a ++ "/"%char :: before ";" b))
      by (rewrite length_app; reflexivity).
    rewrite slice_to_app, slice_from_app_next. reflexivity.
  - reflexivity.
Qed.

(** [_splitparams] on a path without a slash that holds a semicolon. *)
Lemma splitparams_flat (u : str) :
  char_in "/" u = false -> char_in ";" u = true ->
  Urllib._splitparams u = (before ";" u, after ";" u).
Proof.
  intros Hslash Hsemi. unfold Urllib._splitparams.
  change (py "/") with ["/"%char]. change (py ";") with [";"%char].
  rewrite contains_char, Hslash, str_find_char, Hsemi.
  rewrite (before_after ";" u Hsemi) at 1 3.
  rewrite slice_to_app, slice_from_app_next. reflexivity.
Qed.

Lemma params_split_plain (s u : str) :
  char_in ";" u = false -> params_split s u = (u, []).
Proof.
  intros H. unfold params_split. change (py ";") with [";"%char].
  rewrite contains_char, H, andb_false_r. reflexivity.
Qed.

(** Writing a path with its params and splitting it again gives the same
    two parts; the text written is the path, or the path without a
    semicolon that ended it. *)
Lemma params_rejoin (s path0 pa pr : str) :
  params_split s path0 = (pa, pr) ->
  params_split s (with_params pa pr) = (pa, pr)
  /\ (with_params pa pr = path0 \/ path0 = with_params pa pr ++ py ";").
Proof.
  unfold params_split at 1.
  destruct (str_in s Urllib.uses_params) eqn:Euses; cbn [andb];
    [|intros H; inversion H; subst; unfold with_params, params_split;
      rewrite Euses; cbn [nonempty andb]; auto].
  change (py ";") with [";"%char]. rewrite contains_char.
  destruct (char_in ";" path0) eqn:Esemi;
    [|intros H; inversion H; subst; unfold with_params; cbn [nonempty];
      split; [apply params_split_plain; exact Esemi | auto]].
  assert (Hsame : forall pr', pr' <> [] ->
             with_params pa pr' = pa ++ ";"%char :: pr').
  { intros pr' Hne. unfold with_params. destruct pr'; [congruence|].
    reflexivity. }
  destruct (char_in "/" path0) eqn:Eslash.
  - destruct (last_split "/" path0 Eslash) as [a [b [-> Hb]]].
    rewrite (splitparams_slash a b Hb).
    assert (Hsb : char_in ";" b = true \/ char_in ";" b = false)
      by (destruct (char_in ";" b); auto).
    destruct Hsb as [Hsb|Hsb]; rewrite Hsb; intros H; inversion H; subst;
      clear H.
    + pose proof (before_after ";" b Hsb) as Hbb.
      destruct (after ";" b) as [|y rest] eqn:Eaft.
      * unfold with_params; cbn [nonempty]. split.
        -- unfold params_split. rewrite Euses. cbn [andb].
           change (py ";") with [";"%char]. rewrite contains_char.
           destruct (char_in ";" (a ++ "/"%char :: before ";" b)) eqn:E;
             [|reflexivity].
           assert (Hb1 : char_in "/" (before ";" b) = false).
           { rewrite Hbb, char_in_app in Hb. apply orb_false_iff in Hb.
             tauto. }
           rewrite (splitparams_slash a (before ";" b) Hb1).
           rewrite before_clean. reflexivity.
        -- right. rewrite Hbb at 1. rewrite <- app_assoc. reflexivity.
      * rewrite Hsame by discriminate.
        replace ((a ++ "/"%char :: before ";" b) ++ ";"%char :: y :: rest)
          with (a ++ "/"%char :: b)
          by (rewrite Hbb at 1; rewrite <- app_assoc; reflexivity).
        split; [|left; reflexivity].
        unfold params_split. rewrite Euses. cbn [andb].
        change (py ";") with [";"%char]. rewrite contains_char, Esemi.
        rewrite (splitparams_slash a b Hb), Hsb, Eaft. reflexivity.
    + unfold with_params; cbn [nonempty]. split; [|left; reflexivity].
      unfold params_split. rewrite Euses. cbn [andb].
      change (py ";") with [";"%char]. rewrite contains_char, Esemi.
      rewrite (splitparams_slash a b Hb), Hsb. reflexivity.
  - rewrite (splitparams_flat path0 Eslash Esemi).
    intros H; inversion H; subst; clear H.
    pose proof (before_after ";" path0 Esemi) as Hbb.
    destruct (after ";" path0) as [|y rest] eqn:Eaft.
    + unfold with_params; cbn [nonempty]. split.
      * apply params_split_plain. apply before_clean.
      * right. exact Hbb.
    + rewrite Hsame by discriminate. rewrite <- Hbb.
      split; [|left; reflexivity].
      unfold params_split. rewrite Euses. cbn [andb].
      change (py ";") with [";"%char]. rewrite contains_char, Esemi.
      rewrite (splitparams_flat path0 Eslash Esemi), Eaft. reflexivity.
Qed.


(** *** What [urlsplit] returns *)

Lemma lower_char_alpha (c : ascii) :
  Urllib.is_ascii_alpha c = true ->
  Urllib.is_ascii_alpha (lower_char c) = true.
Proof. ascii_cases c; vm_compute; intros H; try discriminate H; auto. Qed.

Lemma lower_char_scheme (c : ascii) :
  Urllib.scheme_char c = true -> Urllib.scheme_char (lower_char c) = true.
Proof. ascii_cases c; vm_compute; intros H; try discriminate H; auto. Qed.

Lemma lower_char_idem (c : ascii) : lower_char (lower_char c) = lower_char c.
Proof. ascii_cases c; vm_compute; reflexivity. Qed.

Lemma lower_idem (s : str) : lower (lower s) = lower s.
Proof.
  unfold lower. rewrite map_map. apply map_ext. apply lower_char_idem.
Qed.

Lemma authority_end_cases (c : ascii) :
  authority_end c = true -> c = "/"%char \/ c = "?"%char \/ c = "#"%char.
Proof.
  ascii_cases c; vm_compute; intros H; try discriminate H; auto.
Qed.

Lemma takewhile_dropwhile (f : ascii -> bool) (s : str) :
  s = takewhile f s ++ dropwhile f s.
Proof.
  induction s as [|x s IH]; [reflexivity|]. cbn [takewhile dropwhile].
  destruct (f x); [|reflexivity]. cbn [app]. f_equal. exact IH.
Qed.

Lemma takewhile_forallb (f : ascii -> bool) (s : str) :
  forallb f (takewhile f s) = true.
Proof.
  induction s as [|x s IH]; [reflexivity|]. cbn [takewhile].
  destruct (f x) eqn:E; [|reflexivity]. cbn [forallb]. rewrite E, IH.
  reflexivity.
Qed.

Lemma dropwhile_head_fails (f : ascii -> bool) (s : str) (x : ascii)
      (s' : str) :
  dropwhile f s = x :: s' -> f x = false.
Proof.
  induction s as [|y s IH]; [discriminate|]. cbn [dropwhile].
  destruct (f y) eqn:E; [exact IH|].
  intros H. inversion H; subst. exact E.
Qed.

Lemma before_app_l (c : ascii) (a b : str) :
  char_in c a = false -> before c (a ++ b) = a ++ before c b.
Proof.
  unfold before. induction a as [|x a IH]; [reflexivity|].
  rewrite char_in_cons. cbn [app takewhile]. rewrite not_char_eqb.
  destruct (Ascii.eqb c x); cbn [negb orb]; [discriminate|].
  intros H. f_equal. apply IH. exact H.
Qed.

Lemma forallb_sublist {A} (f : A -> bool) (l l' : list A) :
  (forall x, In x l' -> In x l) ->
  forallb f l = true -> forallb f l' = true.
Proof. rewrite !forallb_forall. auto. Qed.

Lemma In_slice {A} (l : list A) (lo hi : Z) (x : A) :
  In x (slice l lo hi) -> In x l.
Proof. unfold slice. intros H. apply In_firstn, In_skipn in H. exact H. Qed.

Lemma In_takewhile (f : ascii -> bool) (s : str) (x : ascii) :
  In x (takewhile f s) -> In x s.
Proof.
  intros H. rewrite (takewhile_dropwhile f s). apply in_or_app. auto.
Qed.

Lemma In_dropwhile (f : ascii -> bool) (s : str) (x : ascii) :
  In x (dropwhile f s) -> In x s.
Proof.
  intros H. rewrite (takewhile_dropwhile f s). apply in_or_app. auto.
Qed.

Lemma char_in_In (c : ascii) (s : str) : char_in c s = true <-> In c s.
Proof.
  unfold char_in. rewrite existsb_exists. split.
  - intros [x [Hx E]]. apply Ascii.eqb_eq in E. subst. exact Hx.
  - intros H. exists c. split; [exact H | apply Ascii.eqb_refl].
Qed.

Lemma char_in_sublist (c : ascii) (s s' : str) :
  (forall x, In x s' -> In x s) ->
  char_in c s = false -> char_in c s' = false.
Proof.
  intros Hsub Hs. destruct (char_in c s') eqn:E; [|reflexivity].
  apply char_in_In in E. apply Hsub in E. apply char_in_In in E. congruence.
Qed.

Lemma delimiter_min (len m v1 v2 v3 : Z) :
  (m <= len)%Z ->
  (v1 = -1 \/ m <= v1)%Z -> (v2 = -1 \/ m <= v2)%Z ->
  (v3 = -1 \/ m <= v3)%Z ->
  (0 <= m)%Z ->
  (v1 = m \/ v2 = m \/ v3 = m \/ len = m) ->
  fold_left (fun delim v => if (0 <=? v)%Z then Z.min delim v else delim)
            [v1; v2; v3] len = m.
Proof.
  intros Hlen H1 H2 H3 Hm Hhit. cbn [fold_left].
  destruct (0 <=? v1)%Z eqn:E1, (0 <=? v2)%Z eqn:E2, (0 <=? v3)%Z eqn:E3;
    repeat match goal with
           | H : (_ <=? _)%Z = true |- _ => apply Z.leb_le in H
           | H : (_ <=? _)%Z = false |- _ => apply Z.leb_gt in H
           end; lia.
Qed.

(** [_splitnetloc] cuts at the first of the characters [/?#]. *)
Lemma splitnetloc_span (u : str) :
  Urllib._splitnetloc (py "//" ++ u) 2 =
  (takewhile (fun c => negb (authority_end c)) u,
   dropwhile (fun c => negb (authority_end c)) u).
Proof.
  set (f := fun c => negb (authority_end c)).
  set (t := takewhile f u). set (d := dropwhile f u).
  assert (Hu : u = t ++ d) by apply takewhile_dropwhile.
  assert (Ht : forall c, authority_end c = true -> char_in c t = false).
  { intros c Hc. apply (forallb_char_out f); [|apply takewhile_forallb].
    intros x Hx. destruct (Ascii.eqb c x) eqn:E; [|reflexivity].
    apply Ascii.eqb_eq in E. subst x. unfold f in Hx. rewrite Hc in Hx.
    discriminate Hx. }
  assert (Hfind : forall c, authority_end c = true ->
    str_find_from (py "//" ++ u) [c] 2 =
    if char_in c d
    then Z.of_nat (2 + length t + length (before c d))
    else (-1)%Z).
  { intros c Hc. rewrite str_find_from_char
      by (rewrite length_app; simpl; lia).
    replace (skipn 2 (py "//" ++ u)) with (t ++ d)
      by (rewrite <- Hu; reflexivity).
    rewrite char_in_app, (Ht c Hc). cbn [orb].
    rewrite (before_app_l c t d (Ht c Hc)), length_app.
    destruct (char_in c d); [f_equal; lia | reflexivity]. }
  assert (Hdelim :
    fold_left
      (fun delim v => if (0 <=? v)%Z then Z.min delim v else delim)
      [str_find_from (py "//" ++ u) ["/"%char] 2;
       str_find_from (py "//" ++ u) ["?"%char] 2;
       str_find_from (py "//" ++ u) ["#"%char] 2]
      (Z.of_nat (length (py "//" ++ u)))
    = Z.of_nat (length (py "//") + length t)).
  { apply delimiter_min.
    - rewrite length_app, Hu, length_app. lia.
    - rewrite (Hfind "/"%char eq_refl). destruct (char_in "/" d); [right|left];
        [change (length (py "//")) with 2; lia | reflexivity].
    - rewrite (Hfind "?"%char eq_refl). destruct (char_in "?" d); [right|left];
        [change (length (py "//")) with 2; lia | reflexivity].
    - rewrite (Hfind "#"%char eq_refl). destruct (char_in "#" d); [right|left];
        [change (length (py "//")) with 2; lia | reflexivity].
    - lia.
    - destruct d as [|c0 d'] eqn:Ed.
      + right; right; right. rewrite Hu, app_nil_r, length_app. reflexivity.
      + assert (Hc0 : authority_end c0 = true).
        { pose proof (@dropwhile_head_fails f u c0 d' Ed) as Hf. unfold f in Hf.
          apply negb_false_iff in Hf. exact Hf. }
        assert (Hhit : str_find_from (py "//" ++ u) [c0] 2
                       = Z.of_nat (length (py "//") + length t)).
        { rewrite (Hfind c0 Hc0), char_in_cons, Ascii.eqb_refl. cbn [orb].
          unfold before. cbn [takewhile]. unfold not_char.
          rewrite Ascii.eqb_refl. cbn [negb length].
          change (length (py "//")) with 2. f_equal. lia. }
        destruct (authority_end_cases c0 Hc0) as [->|[->| ->]]; auto. }
  unfold Urllib._splitnetloc.
  change (fold_left _ ["/"; "?"; "#"]%string
                    (Z.of_nat (length (py "//" ++ u))))
    with (fold_left
            (fun delim v => if (0 <=? v)%Z then Z.min delim v else delim)
            [str_find_from (py "//" ++ u) ["/"%char] 2;
             str_find_from (py "//" ++ u) ["?"%char] 2;
             str_find_from (py "//" ++ u) ["#"%char] 2]
            (Z.of_nat (length (py "//" ++ u)))).
  rewrite Hdelim. rewrite Hu. f_equal.
  - change 2%Z with (Z.of_nat (length (py "//"))). apply slice_mid.
  - rewrite app_assoc. rewrite <- length_app. apply slice_from_app.
Qed.


Lemma split_at_char (c : ascii) (rest : str) :
  (if contains [c] rest then split_once c rest else (rest, [])) =
  (before c rest, if char_in c rest then after c rest else []).
Proof.
  rewrite contains_char. destruct (char_in c rest) eqn:E.
  - apply split_once_char. exact E.
  - rewrite (before_all c rest E). reflexivity.
Qed.

Lemma In_before (c : ascii) (s : str) (x : ascii) :
  In x (before c s) -> In x s.
Proof. apply In_takewhile. Qed.

(** The path that [urlsplit] cuts out of what follows the authority. *)
Lemma path_of_rest_chars (rest : str) :
  forallb safe_char rest = true ->
  forallb path_char (before "?" (before "#" rest)) = true.
Proof.
  intros Hsafe. apply forallb_forall. intros x Hx.
  unfold path_char. fold (safe_char x).
  assert (Hq : char_in "?" (before "?" (before "#" rest)) = false)
    by apply before_clean.
  assert (Hh : char_in "#" (before "?" (before "#" rest)) = false).
  { apply (char_in_sublist "#" (before "#" rest)).
    - intros y. apply In_before.
    - apply before_clean. }
  assert (Hs : safe_char x = true).
  { rewrite forallb_forall in Hsafe. apply Hsafe.
    apply In_before in Hx. apply In_before in Hx. exact Hx. }
  rewrite Hs, andb_true_r. apply negb_true_iff.
  change (py "?#") with ["?"%char; "#"%char].
  rewrite !char_in_cons. cbn [char_in existsb orb].
  destruct (Ascii.eqb x "?") eqn:E1.
  { apply Ascii.eqb_eq in E1. subst x. apply char_in_In in Hx. congruence. }
  destruct (Ascii.eqb x "#") eqn:E2.
  { apply Ascii.eqb_eq in E2. subst x. apply char_in_In in Hx. congruence. }
  reflexivity.
Qed.

Lemma path_of_rest_rooted (rest : str) :
  (rest = [] \/ exists c0 d, rest = c0 :: d /\ authority_end c0 = true) ->
  rooted (before "?" (before "#" rest)).
Proof.
  intros [->|[c0 [d [-> Hc0]]]]; [left; reflexivity|].
  destruct (authority_end_cases c0 Hc0) as [->|[->| ->]].
  - right. eexists. reflexivity.
  - left. reflexivity.
  - left. reflexivity.
Qed.

Lemma starts_with_two_slashes (u : str) :
  str_eqb (slice_to u 2) (py "//") = true -> exists u', u = py "//" ++ u'.
Proof.
  intros H. apply str_eqb_eq in H. rewrite slice_to_firstn in H by lia.
  change (Z.to_nat 2) with 2 in H.
  destruct u as [|a [|b u']]; try discriminate H.
  cbn [firstn] in H. inversion H. exists u'. reflexivity.
Qed.

Lemma brackets_pass_nil (chk : str -> bool) : brackets_pass chk [] = true.
Proof. reflexivity. Qed.


Lemma class_out (f : ascii -> bool) (cls : str) (x c : ascii) :
  (forall y, f y = true -> char_in y cls = false) ->
  char_in x cls = true -> f c = true -> Ascii.eqb x c = false.
Proof.
  intros Hf Hx Hc. destruct (Ascii.eqb x c) eqn:E; [|reflexivity].
  apply Ascii.eqb_eq in E. subst c. rewrite (Hf x Hc) in Hx. discriminate Hx.
Qed.

Lemma scheme_char_not_mark (c : ascii) :
  Urllib.scheme_char c = true -> char_in c (py "?#") = false.
Proof. ascii_cases c; vm_compute; intros H; try discriminate H; auto. Qed.

Lemma mark_facts (x : ascii) :
  char_in x (py "?#") = true ->
  char_in x (py ":") = false /\ char_in x (py "//") = false
  /\ char_in x (py "/?#") = true.
Proof. ascii_cases x; vm_compute; intros H; try discriminate H; auto. Qed.


(** *** Paths without a scheme *)

Lemma before_app_in (c : ascii) (a b : str) :
  char_in c a = true -> before c (a ++ b) = before c a.
Proof.
  unfold before. induction a as [|x a IH]; [discriminate|].
  rewrite char_in_cons. cbn [app takewhile]. rewrite not_char_eqb.
  destruct (Ascii.eqb c x); cbn [negb orb]; [reflexivity|].
  intros H. f_equal. apply IH. exact H.
Qed.

Lemma slice_to_before (c : ascii) (s : str) :
  slice_to s (Z.of_nat (length (before c s))) = before c s.
Proof.
  destruct (char_in c s) eqn:E.
  - rewrite (before_after c s E) at 1. apply slice_to_app.
  - rewrite (before_all c s E). rewrite slice_to_firstn by lia.
    rewrite Nat2Z.id. apply firstn_all.
Qed.

Lemma scheme_cond_prefix (a b : str) :
  scheme_cond (a ++ b) = false -> scheme_cond a = false.
Proof.
  unfold scheme_cond. change (py ":") with [":"%char].
  rewrite !str_find_char. destruct (char_in ":" a) eqn:Ea.
  - rewrite char_in_app, Ea. cbn [orb].
    rewrite !slice_to_before, (before_app_in ":" a b Ea).
    destruct a as [|x a']; [discriminate Ea|]. cbn [app]. auto.
  - intros _. reflexivity.
Qed.

Lemma plain_start_prefix (a b : str) : plain_start (a ++ b) -> plain_start a.
Proof.
  intros [Hhead Hcond]. split.
  - destruct a as [|x a']; [exact I | exact Hhead].
  - apply (scheme_cond_prefix a b Hcond).
Qed.

Lemma rooted_plain_start (u : str) : rooted u -> plain_start u.
Proof.
  intros [->|[u' ->]]; split; try reflexivity.
  unfold scheme_cond.
  replace (Urllib.is_ascii_alpha "/") with false by reflexivity.
  rewrite andb_false_r. reflexivity.
Qed.

Lemma unsafe_is_c0 (c : ascii) :
  Urllib.c0_control_or_space c = false -> safe_char c = true.
Proof. ascii_cases c; vm_compute; intros H; try discriminate H; auto. Qed.

Lemma stripped_head (u : str) :
  match filter safe_char (dropwhile Urllib.c0_control_or_space u) with
  | c :: _ => Urllib.c0_control_or_space c = false
  | [] => True
  end.
Proof.
  destruct (dropwhile Urllib.c0_control_or_space u) as [|x v] eqn:E;
    [exact I|].
  pose proof (@dropwhile_head_fails _ u x v E) as Hx.
  cbn [filter]. rewrite (unsafe_is_c0 x Hx). exact Hx.
Qed.

(** *** Params of a path that got a leading slash *)

Lemma with_params_slash (pa pr : str) :
  with_params ("/"%char :: pa) pr = "/"%char :: with_params pa pr.
Proof. unfold with_params. destruct (nonempty pr); reflexivity. Qed.

Lemma params_split_slash (s y : str) :
  params_split s ("/"%char :: y) =
  ("/"%char :: fst (params_split s y), snd (params_split s y)).
Proof.
  unfold params_split. change (py ";") with [";"%char].
  rewrite !contains_char, char_in_cons.
  change (Ascii.eqb ";" "/") with false. cbn [orb].
  destruct (str_in s Urllib.uses_params); cbn [andb]; [|reflexivity].
  destruct (char_in ";" y) eqn:Esemi; [|reflexivity].
  destruct (char_in "/" y) eqn:Eslash.
  - destruct (last_split "/" y Eslash) as [a [b [-> Hb]]].
    change ("/"%char :: a ++ "/"%char :: b)
      with (("/"%char :: a) ++ "/"%char :: b).
    rewrite !(splitparams_slash _ b Hb).
    destruct (char_in ";" b); reflexivity.
  - change ("/"%char :: y) with ([] ++ "/"%char :: y).
    rewrite (splitparams_slash [] y Eslash), Esemi.
    rewrite (splitparams_flat y Eslash Esemi). reflexivity.
Qed.

Section NormalizeFacts.
Unset Implicit Arguments.

Variable bracketed_netloc_ok : str -> bool.

Local Abbreviation urlsplit := (Urllib.urlsplit bracketed_netloc_ok).
Local Abbreviation urlparse := (Urllib.urlparse bracketed_netloc_ok).
Local Abbreviation normalize_url := (normalize_url bracketed_netloc_ok).

Lemma urlsplit_written (s n pth : str) :
  scheme_ok s ->
  forallb netloc_char n = true ->
  forallb path_char pth = true ->
  rooted pth ->
  brackets_pass bracketed_netloc_ok n = true ->
  urlsplit (scheme_prefix s ++ py "//" ++ n ++ pth) =
  Returned (Urllib.mkSplit s n pth [] []).
Proof.
  intros Hs Hn Hp Hroot Hb.
  set (rest := py "//" ++ n ++ pth).
  assert (Hsafe_rest : forallb safe_char rest = true).
  { unfold rest. rewrite !forallb_app. 
    rewrite (forallb_weaken _ _ _ netloc_char_safe Hn).
    rewrite (forallb_weaken _ _ _ path_char_safe Hp). reflexivity. }
  assert (Hscheme :
    exists u,
      filter (fun c => negb (Urllib.unsafe_url_byte c))
             (dropwhile Urllib.c0_control_or_space
                        (scheme_prefix s ++ rest)) = u
      /\ (if (0 <? str_find u (py ":"))%Z
             && match u with
                | c :: _ => Urllib.is_ascii_alpha c
                | [] => false
                end
             && forallb Urllib.scheme_char
                        (slice_to u (str_find u (py ":")))
          then (lower (slice_to u (str_find u (py ":"))),
                slice_from u (str_find u (py ":") + 1))
          else ([], u)) = (s, rest)).
  { exists (scheme_prefix s ++ rest). split.
    - assert (Hd : dropwhile Urllib.c0_control_or_space
                            (scheme_prefix s ++ rest)
                   = scheme_prefix s ++ rest).
      { destruct Hs as [->|[[c [s' [-> Hc]]] _]].
        - reflexivity.
        - unfold scheme_prefix. cbn [nonempty app].
          apply dropwhile_head. apply alpha_not_c0. exact Hc. }
      rewrite Hd. apply filter_all.
      fold safe_char. rewrite forallb_app, Hsafe_rest, andb_true_r.
      destruct Hs as [->|[_ [Hall _]]]; [reflexivity|].
      unfold scheme_prefix. destruct (nonempty s); [|reflexivity].
      rewrite forallb_app.
      rewrite (forallb_weaken _ _ _ scheme_char_safe Hall). reflexivity.
    - destruct Hs as [->|[[c [s' [Es Hc]]] [Hall Hlow]]].
      + unfold scheme_prefix, rest. cbn [nonempty app].
        change (py "//" ++ n ++ pth) with ("/"%char :: "/"%char :: n ++ pth).
        cbv iota. replace (Urllib.is_ascii_alpha "/") with false
          by reflexivity.
        rewrite andb_false_r. reflexivity.
      + assert (Hcolon : char_in ":" s = false).
        { apply (forallb_char_out Urllib.scheme_char); [|exact Hall].
          apply scheme_char_colon. }
        unfold scheme_prefix. replace (nonempty s) with true
          by (rewrite Es; reflexivity).
        change (py ":") with [":"%char].
        rewrite <- app_assoc. change ([":"%char] ++ rest)
          with (":"%char :: rest).
        rewrite str_find_char.
        rewrite char_in_app, char_in_cons, Ascii.eqb_refl, orb_true_r.
        rewrite before_app by exact Hcolon.
        rewrite slice_to_app, slice_from_app_next, Hall, Hlow.
        replace (0 <? Z.of_nat (length s))%Z with true
          by (symmetry; apply Z.ltb_lt; rewrite Es; simpl; lia).
        rewrite Es at 1. cbn [app]. rewrite Hc. reflexivity. }
  destruct Hscheme as [u [Hu Hsplit]].
  unfold Urllib.urlsplit. fold rest. rewrite Hu. cbv zeta.
  rewrite Hsplit.
  replace (str_eqb (slice_to rest 2) (py "//")) with true
    by (rewrite slice_to_firstn by lia; reflexivity).
  unfold rest at 1. rewrite (splitnetloc_authority n pth Hn Hp Hroot).
  unfold brackets_pass in Hb. apply andb_prop in Hb.
  destruct Hb as [Hb1 Hb2]. apply negb_true_iff in Hb1, Hb2.
  cbv zeta in Hb1, Hb2. rewrite Hb1, Hb2.
  change (py "#") with ["#"%char]. change (py "?") with ["?"%char].
  rewrite !contains_char.
  rewrite (forallb_char_out path_char "#" pth
             (fun c Hc => @path_char_out "#" c eq_refl Hc) Hp).
  cbv beta iota. rewrite contains_char.
  rewrite (forallb_char_out path_char "?" pth
             (fun c Hc => @path_char_out "?" c eq_refl Hc) Hp).
  reflexivity.
Qed.

Lemma before_is_prefix (c : ascii) (s : str) :
  exists b, s = before c s ++ b.
Proof.
  exists (dropwhile (not_char c) s). apply takewhile_dropwhile.
Qed.

Lemma urlsplit_facts (u : str) (sr : Urllib.SplitResult) :
  urlsplit u = Returned sr ->
  scheme_ok (Urllib.s_scheme sr)
  /\ forallb netloc_char (Urllib.s_netloc sr) = true
  /\ forallb path_char (Urllib.s_path sr) = true
  /\ brackets_pass bracketed_netloc_ok (Urllib.s_netloc sr) = true
  /\ (Urllib.s_netloc sr <> [] -> rooted (Urllib.s_path sr))
  /\ (Urllib.s_scheme sr = [] -> plain_start (Urllib.s_path sr)).
Proof.
  unfold Urllib.urlsplit.
  set (u1 := filter (fun c => negb (Urllib.unsafe_url_byte c))
                    (dropwhile Urllib.c0_control_or_space u)).
  assert (Hsafe1 : forallb safe_char u1 = true) by apply filter_forallb.
  assert (Hhead1 : match u1 with
                   | c :: _ => Urllib.c0_control_or_space c = false
                   | [] => True
                   end) by apply stripped_head.
  cbv zeta. fold (scheme_cond u1).
  match goal with
  | |- context [if scheme_cond u1 then (lower ?a, ?b) else ([], ?d)] =>
      set (pr := if scheme_cond u1 then (lower a, b) else ([], d))
  end.
  assert (Hpr : scheme_ok (fst pr) /\ forallb safe_char (snd pr) = true
                /\ (fst pr = [] -> plain_start (snd pr))).
  { unfold pr. destruct (scheme_cond u1) eqn:Ec; cbn [fst snd].
    - unfold scheme_cond in Ec. apply andb_prop in Ec.
      destruct Ec as [Ec Hall].
      apply andb_prop in Ec. destruct Ec as [Hpos Halpha].
      apply Z.ltb_lt in Hpos.
      destruct u1 as [|c u1']; [discriminate Halpha|].
      rewrite slice_to_firstn in Hall |- * by lia.
      destruct (Z.to_nat (str_find (c :: u1') (py ":"))) as [|k] eqn:Ek;
        [lia|].
      cbn [firstn lower map] in Hall |- *. split; [|split].
      + right. split; [|split].
        * eexists. eexists. split; [reflexivity|].
          apply lower_char_alpha. exact Halpha.
        * fold (lower (firstn k u1')).
          change (forallb Urllib.scheme_char
                    (lower (c :: firstn k u1')) = true).
          unfold lower. rewrite forallb_forall. intros x Hx.
          apply in_map_iff in Hx. destruct Hx as [y [<- Hy]].
          apply lower_char_scheme.
          rewrite forallb_forall in Hall. apply Hall. exact Hy.
        * change (lower (lower (c :: firstn k u1'))
                  = lower (c :: firstn k u1')).
          apply lower_idem.
      + apply (forallb_sublist safe_char (c :: u1')); [|exact Hsafe1].
        intros x. unfold slice_from. apply In_slice.
      + intros Hnil. discriminate Hnil.
    - split; [left; reflexivity|]. split; [exact Hsafe1|].
      intros _. split; [exact Hhead1 | exact Ec]. }
  clearbody pr. destruct pr as [s u2]. cbn [fst snd] in Hpr.
  destruct Hpr as [Hs [Hsafe2 Hplain2]]. cbv beta iota.
  assert (Htail : forall nl rest,
    forallb netloc_char nl = true ->
    brackets_pass bracketed_netloc_ok nl = true ->
    forallb safe_char rest = true ->
    (nl <> [] ->
     rest = [] \/ exists c0 d, rest = c0 :: d /\ authority_end c0 = true) ->
    (s = [] -> plain_start (before "?" (before "#" rest))) ->
    (let '(u0, frag) :=
       if contains (py "#") rest then split_once "#" rest else (rest, []) in
     let '(u3, qry) :=
       if contains (py "?") u0 then split_once "?" u0 else (u0, []) in
     Returned (Urllib.mkSplit s nl u3 qry frag)) = Returned sr ->
    scheme_ok (Urllib.s_scheme sr)
    /\ forallb netloc_char (Urllib.s_netloc sr) = true
    /\ forallb path_char (Urllib.s_path sr) = true
    /\ brackets_pass bracketed_netloc_ok (Urllib.s_netloc sr) = true
    /\ (Urllib.s_netloc sr <> [] -> rooted (Urllib.s_path sr))
    /\ (Urllib.s_scheme sr = [] -> plain_start (Urllib.s_path sr))).
  { intros nl rest Hnl Hbr Hsafe Hroot Hplain.
    change (py "#") with ["#"%char]. change (py "?") with ["?"%char].
    rewrite split_at_char. cbv beta iota. rewrite split_at_char.
    cbv beta iota. intros H. inversion H; subst sr; clear H.
    cbn [Urllib.s_scheme Urllib.s_netloc Urllib.s_path].
    split; [exact Hs|]. split; [exact Hnl|].
    split; [apply path_of_rest_chars; exact Hsafe|].
    split; [exact Hbr|]. split; [|exact Hplain].
    intros Hne. apply path_of_rest_rooted. apply Hroot. exact Hne. }
  destruct (str_eqb (slice_to u2 2) (py "//")) eqn:Eauth.
  - destruct (starts_with_two_slashes u2 Eauth) as [u3 ->].
    rewrite splitnetloc_span.
    set (f := fun c => negb (authority_end c)).
    set (t := takewhile f u3). set (d := dropwhile f u3).
    cbv beta iota.
    match goal with
    | |- context [if ?b1 then Raised ValueError
                  else if ?b2 then Raised ValueError else _] =>
        destruct b1 eqn:Eb1; [intros H; discriminate H|];
        destruct b2 eqn:Eb2; [intros H; discriminate H|]
    end.
    assert (Hd : d = [] \/
                 exists c0 d', d = c0 :: d' /\ authority_end c0 = true).
    { destruct d as [|c0 d'] eqn:Ed; [left; reflexivity|].
      right. exists c0, d'. split; [reflexivity|].
      pose proof (@dropwhile_head_fails f u3 c0 d' Ed) as Hf.
      unfold f in Hf. apply negb_false_iff in Hf. exact Hf. }
    apply Htail.
    + apply forallb_forall. intros x Hx. unfold netloc_char.
      assert (Hfx : f x = true).
      { pose proof (takewhile_forallb f u3) as Hall.
        rewrite forallb_forall in Hall. apply Hall. exact Hx. }
      unfold f in Hfx. rewrite Hfx. cbn [andb]. fold (safe_char x).
      rewrite forallb_forall in Hsafe2. apply Hsafe2.
      right. right. apply In_takewhile in Hx. exact Hx.
    + unfold brackets_pass. cbv zeta. rewrite Eb1, Eb2. reflexivity.
    + apply (forallb_sublist safe_char (py "//" ++ u3)); [|exact Hsafe2].
      intros x Hx. right. right. apply In_dropwhile in Hx. exact Hx.
    + intros _. exact Hd.
    + intros _. apply rooted_plain_start, path_of_rest_rooted. exact Hd.
  - apply Htail.
    + reflexivity.
    + apply brackets_pass_nil.
    + exact Hsafe2.
    + intros Hne. congruence.
    + intros Hnil. specialize (Hplain2 Hnil).
      destruct (before_is_prefix "#" u2) as [b1 Hb1].
      destruct (before_is_prefix "?" (before "#" u2)) as [b2 Hb2].
      rewrite Hb1 in Hplain2. apply plain_start_prefix in Hplain2.
      rewrite Hb2 in Hplain2. apply plain_start_prefix in Hplain2.
      exact Hplain2.
Qed.

Lemma urlunsplit_authority (s n pth : str) :
  n <> [] -> rooted pth ->
  Urllib.urlunsplit (Urllib.mkSplit s n pth [] []) =
  scheme_prefix s ++ py "//" ++ n ++ pth.
Proof.
  intros Hn Hroot. unfold Urllib.urlunsplit.
  cbn [Urllib.s_scheme Urllib.s_netloc Urllib.s_path Urllib.s_query
       Urllib.s_fragment].
  cbv zeta. destruct n as [|c n']; [congruence|]. cbn [nonempty orb].
  assert (Hp : (if nonempty pth && negb (str_eqb (slice_to pth 1) (py "/"))
                then py "/" ++ pth else pth) = pth).
  { destruct Hroot as [->|[p' ->]]; [reflexivity|].
    rewrite slice_to_firstn by lia. reflexivity. }
  rewrite Hp. unfold scheme_prefix.
  destruct (nonempty s); [|reflexivity].
  rewrite <- app_assoc. reflexivity.
Qed.

Lemma dropwhile_plain (u : str) :
  match u with
  | c :: _ => Urllib.c0_control_or_space c = false
  | [] => True
  end ->
  dropwhile Urllib.c0_control_or_space u = u.
Proof.
  destruct u as [|c u']; [reflexivity|]. intros H. apply dropwhile_head.
  exact H.
Qed.

(** [urlsplit] on a URL that [urlunsplit] wrote without authority. *)
Lemma urlsplit_written_plain (s pth : str) :
  scheme_ok s ->
  forallb path_char pth = true ->
  str_eqb (slice_to pth 2) (py "//") = false ->
  (s = [] -> plain_start pth) ->
  urlsplit (scheme_prefix s ++ pth) = Returned (Urllib.mkSplit s [] pth [] []).
Proof.
  intros Hs Hp Hno Hplain.
  assert (Hsafe : forallb safe_char pth = true)
    by exact (forallb_weaken _ _ _ path_char_safe Hp).
  assert (Hscheme :
    exists u,
      filter (fun c => negb (Urllib.unsafe_url_byte c))
             (dropwhile Urllib.c0_control_or_space
                        (scheme_prefix s ++ pth)) = u
      /\ (if scheme_cond u
          then (lower (slice_to u (str_find u (py ":"))),
                slice_from u (str_find u (py ":") + 1))
          else ([], u)) = (s, pth)).
  { exists (scheme_prefix s ++ pth). split.
    - assert (Hd : dropwhile Urllib.c0_control_or_space
                            (scheme_prefix s ++ pth)
                   = scheme_prefix s ++ pth).
      { destruct Hs as [->|[[c [s' [-> Hc]]] _]].
        - apply dropwhile_plain. exact (proj1 (Hplain eq_refl)).
        - unfold scheme_prefix. cbn [nonempty app].
          apply dropwhile_head. apply alpha_not_c0. exact Hc. }
      rewrite Hd. apply filter_all.
      fold safe_char. rewrite forallb_app, Hsafe, andb_true_r.
      destruct Hs as [->|[_ [Hall _]]]; [reflexivity|].
      unfold scheme_prefix. destruct (nonempty s); [|reflexivity].
      rewrite forallb_app.
      rewrite (forallb_weaken _ _ _ scheme_char_safe Hall). reflexivity.
    - destruct Hs as [->|[[c [s' [Es Hc]]] [Hall Hlow]]].
      + unfold scheme_prefix. cbn [nonempty app].
        rewrite (proj2 (Hplain eq_refl)). reflexivity.
      + assert (Hcolon : char_in ":" s = false).
        { apply (forallb_char_out Urllib.scheme_char); [|exact Hall].
          apply scheme_char_colon. }
        unfold scheme_prefix, scheme_cond. replace (nonempty s) with true
          by (rewrite Es; reflexivity).
        change (py ":") with [":"%char].
        rewrite <- app_assoc. change ([":"%char] ++ pth)
          with (":"%char :: pth).
        rewrite str_find_char.
        rewrite char_in_app, char_in_cons, Ascii.eqb_refl, orb_true_r.
        rewrite before_app by exact Hcolon.
        rewrite slice_to_app, slice_from_app_next, Hall, Hlow.
        replace (0 <? Z.of_nat (length s))%Z with true
          by (symmetry; apply Z.ltb_lt; rewrite Es; simpl; lia).
        rewrite Es at 1. cbn [app]. rewrite Hc. reflexivity. }
  destruct Hscheme as [u [Hu Hsplit]].
  unfold Urllib.urlsplit. rewrite Hu. cbv zeta. fold (scheme_cond u).
  rewrite Hsplit, Hno.
  change (py "#") with ["#"%char]. change (py "?") with ["?"%char].
  rewrite contains_char.
  rewrite (forallb_char_out path_char "#" pth
             (fun c Hc => @path_char_out "#" c eq_refl Hc) Hp).
  cbv beta iota. rewrite contains_char.
  rewrite (forallb_char_out path_char "?" pth
             (fun c Hc => @path_char_out "?" c eq_refl Hc) Hp).
  reflexivity.
Qed.

(** What [urlunsplit] writes when there is no authority. *)
Lemma urlunsplit_no_authority (s pth : str) :
  Urllib.urlunsplit (Urllib.mkSplit s [] pth [] []) =
  scheme_prefix s
  ++ (if nonempty s && str_in s Urllib.uses_netloc
         && negb (str_eqb (slice_to pth 2) (py "//"))
      then py "//"
           ++ (if nonempty pth && negb (str_eqb (slice_to pth 1) (py "/"))
               then py "/" ++ pth else pth)
      else pth).
Proof.
  unfold Urllib.urlunsplit, scheme_prefix.
  cbn [Urllib.s_scheme Urllib.s_netloc Urllib.s_path Urllib.s_query
       Urllib.s_fragment nonempty orb app].
  cbv zeta. destruct (nonempty s); [|reflexivity].
  rewrite <- app_assoc. reflexivity.
Qed.

Lemma startswith_two (x : str) :
  startswith x (py "//") = str_eqb (firstn 2 x) (py "//").
Proof.
  change (py "//") with ["/"%char; "/"%char].
  destruct x as [|c1 [|c2 x']]; cbn [startswith str_eqb firstn].
  - reflexivity.
  - rewrite !andb_false_r. reflexivity.
  - rewrite (Ascii.eqb_sym c1), (Ascii.eqb_sym c2).
    destruct x'; reflexivity.
Qed.

Lemma with_params_no_slashes (pa pr : str) :
  startswith pa (py "//") = false ->
  str_eqb (slice_to (with_params pa pr) 2) (py "//") = false.
Proof.
  rewrite startswith_two. intros H.
  rewrite slice_to_firstn by lia. change (Z.to_nat 2) with 2.
  unfold with_params. destruct pr as [|y pr']; cbn [nonempty]; [exact H|].
  change (py ";" ++ y :: pr') with (";"%char :: y :: pr').
  destruct pa as [|c1 [|c2 pa']]; cbn [app firstn].
  - reflexivity.
  - change (py "//") with ["/"%char; "/"%char]. cbn [str_eqb].
    change (Ascii.eqb ";" "/") with false. cbn [andb].
    apply andb_false_r.
  - exact H.
Qed.

Lemma rooted_fix (pth : str) :
  rooted pth ->
  (if nonempty pth && negb (str_eqb (slice_to pth 1) (py "/"))
   then py "/" ++ pth else pth) = pth.
Proof.
  intros [->|[p' ->]]; [reflexivity|].
  rewrite slice_to_firstn by lia. reflexivity.
Qed.

(** C7, as amended. For a URL [u] that [urlparse] accepts, with [r] the
    URL written from the parsed scheme, netloc, path and params alone:
    [normalize_url] returns [r], and [r] holds neither [?] nor [#]; when
    [u] has an authority (a non-empty netloc), or when its path does not
    start with two slashes, normalizing [r] again returns [r]; and when
    [u] has an authority, parsing [r] gives back exactly the scheme,
    netloc, path and params of [u] with an empty query and an empty
    fragment. *)
Theorem normalize_url_idempotent (u : str) (p : Urllib.ParseResult) :
  urlparse u = Returned p ->
  let clean := Urllib._replace_query_fragment p [] [] in
  let r := Urllib.geturl clean in
  normalize_url u = Returned r
  /\ ~ In "?"%char r
  /\ ~ In "#"%char r
  /\ (Urllib.netloc p <> [] \/ startswith (Urllib.path p) (py "//") = false ->
      normalize_url r = Returned r)
  /\ (Urllib.netloc p <> [] -> urlparse r = Returned clean).
Proof.
  intros Hparse clean r.
  assert (Hnorm : normalize_url u = Returned r).
  { unfold Server.normalize_url, Server.urlparse, obind.
    rewrite Hparse. reflexivity. }
  split; [exact Hnorm|].
  unfold Urllib.urlparse in Hparse.
  destruct (urlsplit u) as [sr|e] eqn:Esr; [|discriminate Hparse].
  destruct (urlsplit_facts u sr Esr) as [Hs [Hn [Hp [Hb [Hroot Hplain]]]]].
  fold (params_split (Urllib.s_scheme sr) (Urllib.s_path sr)) in Hparse.
  destruct (params_split (Urllib.s_scheme sr) (Urllib.s_path sr))
    as [pa pr] eqn:Eps.
  inversion Hparse; subst p; clear Hparse.
  cbn [Urllib.netloc Urllib.path].
  destruct (@params_rejoin _ _ pa pr Eps) as [Hre Hshape].
  set (s := Urllib.s_scheme sr) in *. set (n := Urllib.s_netloc sr) in *.
  set (url0 := with_params pa pr) in *.
  assert (Hprefix : exists b, Urllib.s_path sr = url0 ++ b).
  { destruct Hshape as [-> | ->]; [exists []; symmetry; apply app_nil_r|].
    eexists. reflexivity. }
  destruct Hprefix as [b Hprefix].
  assert (Hp0 : forallb path_char url0 = true).
  { rewrite Hprefix, forallb_app in Hp. apply andb_prop in Hp. tauto. }
  assert (Hroot0 : n <> [] -> rooted url0).
  { intros Hne. specialize (Hroot Hne). rewrite Hprefix in Hroot.
    destruct Hroot as [H|[p' H]].
    - apply app_eq_nil in H. left. tauto.
    - destruct url0 as [|x url0']; [left; reflexivity|].
      right. inversion H. eexists. reflexivity. }
  assert (Hplain0 : s = [] -> plain_start url0).
  { intros Hnil. specialize (Hplain Hnil). rewrite Hprefix in Hplain.
    apply (plain_start_prefix _ _ Hplain). }
  assert (Hr0 : r = Urllib.urlunsplit (Urllib.mkSplit s n url0 [] []))
    by reflexivity.
  assert (Hagain : forall pa' pr',
             urlparse r = Returned (Urllib.mkParse s n pa' pr' [] []) ->
             with_params pa' pr' = url0 ->
             normalize_url r = Returned r).
  { intros pa' pr' Hparse' Hw.
    unfold Server.normalize_url, Server.urlparse, obind. rewrite Hparse'.
    unfold Urllib.geturl, Urllib.urlunparse, Urllib._replace_query_fragment.
    cbn [Urllib.scheme Urllib.netloc Urllib.path Urllib.params
         Urllib.query Urllib.fragment].
    change (if nonempty pr' then pa' ++ py ";" ++ pr' else pa')
      with (with_params pa' pr').
    rewrite Hw, <- Hr0. reflexivity. }
  assert (Hparsed : forall pth,
             urlsplit r = Returned (Urllib.mkSplit s n pth [] []) ->
             urlparse r =
             Returned (Urllib.mkParse s n (fst (params_split s pth))
                                      (snd (params_split s pth)) [] [])).
  { intros pth Hsplit. unfold Urllib.urlparse. rewrite Hsplit.
    cbn [Urllib.s_scheme Urllib.s_netloc Urllib.s_path Urllib.s_query
         Urllib.s_fragment].
    fold (params_split s pth). destruct (params_split s pth); reflexivity. }
  (* the text of [r]: the scheme, a run of slashes with the netloc, and
     the path with its params *)
  assert (Hcases :
    (n <> [] /\ r = scheme_prefix s ++ py "//" ++ n ++ url0)
    \/ (n = [] /\ exists pre,
          r = scheme_prefix s ++ pre ++ url0
          /\ (pre = [] \/ ((pre = py "//" \/ pre = py "///")
                           /\ nonempty s = true
                           /\ str_in s Urllib.uses_netloc = true
                           /\ str_eqb (slice_to url0 2) (py "//") = false
                           /\ rooted (skipn 2 pre ++ url0)))
          /\ (pre = [] ->
              nonempty s && str_in s Urllib.uses_netloc
              && negb (str_eqb (slice_to url0 2) (py "//")) = false))).
  { destruct n as [|c n'] eqn:En.
    - right. split; [reflexivity|]. rewrite Hr0, urlunsplit_no_authority.
      destruct (nonempty s && str_in s Urllib.uses_netloc
                && negb (str_eqb (slice_to url0 2) (py "//"))) eqn:Ec.
      + apply andb_prop in Ec. destruct Ec as [Ec E3].
        apply andb_prop in Ec. destruct Ec as [E1 E2].
        apply negb_true_iff in E3.
        destruct (nonempty url0 && negb (str_eqb (slice_to url0 1) (py "/")))
          eqn:Ex.
        * exists (py "///"). split; [reflexivity|]. split; [|discriminate].
          right. repeat split; auto. right. eexists. reflexivity.
        * exists (py "//"). split; [reflexivity|]. split; [|discriminate].
          right. repeat split; auto. cbn [skipn app].
          destruct url0 as [|x url0']; [left; reflexivity|].
          cbn [nonempty andb] in Ex. apply negb_false_iff in Ex.
          rewrite slice_to_firstn in Ex by lia.
          apply str_eqb_eq in Ex. inversion Ex. right. eexists. reflexivity.
      + exists []. split; [reflexivity|]. split; [left; reflexivity|].
        intros _. reflexivity.
    - left. split; [discriminate|]. rewrite Hr0.
      apply urlunsplit_authority; [discriminate|].
      apply Hroot0. discriminate. }
  assert (Hout : forall x, char_in x (py "?#") = true -> char_in x r = false).
  { intros x Hx.
    destruct (mark_facts x Hx) as [Hcolon [Hslashes Hend]].
    assert (H1 : char_in x (scheme_prefix s) = false).
    { unfold scheme_prefix. destruct (nonempty s) eqn:Ens; [|reflexivity].
      destruct Hs as [Hs|[_ [Hall _]]]; [rewrite Hs in Ens; discriminate|].
      rewrite char_in_app, Hcolon, orb_false_r.
      apply (forallb_char_out Urllib.scheme_char); [|exact Hall].
      intros c Hc.
      apply (@class_out Urllib.scheme_char (py "?#") x c
                        scheme_char_not_mark Hx Hc). }
    assert (H3 : char_in x n = false).
    { apply (forallb_char_out netloc_char); [|exact Hn].
      intros c Hc. apply (@netloc_char_out x c Hend Hc). }
    assert (H4 : char_in x url0 = false).
    { apply (forallb_char_out path_char); [|exact Hp0].
      intros c Hc. apply (@path_char_out x c Hx Hc). }
    assert (H5 : char_in x (py "///") = false).
    { change (py "///") with ("/"%char :: py "//").
      rewrite char_in_cons, Hslashes.
      change (py "//") with ["/"%char; "/"%char] in Hslashes.
      rewrite char_in_cons in Hslashes. apply orb_false_iff in Hslashes.
      destruct Hslashes as [Hsl _]. rewrite Hsl. reflexivity. }
    destruct Hcases as [[_ ->]|[_ [pre [-> [Hpre _]]]]].
    - rewrite !char_in_app, H1, Hslashes, H3, H4. reflexivity.
    - rewrite !char_in_app, H1, H4.
      destruct Hpre as [->|[[->| ->] _]]; [reflexivity | |].
      + rewrite Hslashes. reflexivity.
      + rewrite H5. reflexivity. }
  split.
  { intros Hin; apply char_in_In in Hin.
    rewrite (Hout "?"%char eq_refl) in Hin. discriminate Hin. }
  split.
  { intros Hin; apply char_in_In in Hin.
    rewrite (Hout "#"%char eq_refl) in Hin. discriminate Hin. }
  assert (Hauth : n <> [] -> urlparse r = Returned clean).
  { intros Hne. destruct Hcases as [[_ Hr]|[Hnil _]]; [|congruence].
    rewrite (Hparsed url0).
    - rewrite Hre. reflexivity.
    - rewrite Hr. apply urlsplit_written; auto. }
  split; [|exact Hauth].
  intros Hdom. destruct Hcases as [[Hne Hr]|[Hnil [pre [Hr [Hpre Hpre0]]]]].
  - apply (Hagain pa pr); [|reflexivity]. apply (Hauth Hne).
  - destruct Hdom as [Hne|Hno]; [congruence|].
    pose proof (with_params_no_slashes pa pr Hno) as Hno0. fold url0 in Hno0.
    destruct Hpre as [->|[Hpre [E1 [E2 [_ Hrooted]]]]].
    + (* nothing was put before the path *)
      cbn [app] in Hr.
      assert (Hsplit : urlsplit r = Returned (Urllib.mkSplit s n url0 [] [])).
      { rewrite Hr, Hnil. apply urlsplit_written_plain; auto. }
      apply (Hagain pa pr); [|reflexivity].
      rewrite (Hparsed url0 Hsplit), Hre. reflexivity.
    + (* the scheme takes an authority: slashes were put before the path *)
      set (X := skipn 2 pre ++ url0) in *.
      assert (HrX : r = scheme_prefix s ++ py "//" ++ [] ++ X).
      { rewrite Hr. unfold X. destruct Hpre as [->| ->]; reflexivity. }
      assert (HX : X = url0 \/ (X = "/"%char :: url0 /\ ~ rooted url0)).
      { unfold X. destruct Hpre as [->| ->]; [left; reflexivity|].
        right. split; [reflexivity|]. intros Hr0'.
        rewrite Hr0, Hnil, urlunsplit_no_authority, E1, E2, Hno0 in Hr.
        cbn [andb negb] in Hr. rewrite (rooted_fix url0 Hr0') in Hr.
        apply app_inv_head in Hr.
        apply (f_equal (@length ascii)) in Hr.
        rewrite !length_app in Hr. cbn in Hr. lia. }
      assert (HpX : forallb path_char X = true).
      { destruct HX as [->|[-> _]]; [exact Hp0|].
        cbn [forallb]. rewrite Hp0. reflexivity. }
      assert (Hsplit : urlsplit r = Returned (Urllib.mkSplit s n X [] [])).
      { rewrite HrX, Hnil. apply urlsplit_written; auto. }
      assert (HwX : with_params (fst (params_split s X))
                                (snd (params_split s X)) = X).
      { destruct HX as [->|[-> _]].
        - rewrite Hre. reflexivity.
        - rewrite params_split_slash. cbn [fst snd].
          rewrite with_params_slash, Hre. reflexivity. }
      assert (HnoX : str_eqb (slice_to X 2) (py "//") = false).
      { destruct HX as [->|[-> Hnr]]; [exact Hno0|].
        rewrite slice_to_firstn by lia. change (Z.to_nat 2) with 2.
        destruct url0 as [|x url0']; [reflexivity|].
        cbn [firstn]. apply str_eqb_neq. intros Heq. apply Hnr.
        inversion Heq. right. eexists. reflexivity. }
      unfold Server.normalize_url, Server.urlparse, obind.
      rewrite (Hparsed X Hsplit).
      unfold Urllib.geturl, Urllib.urlunparse, Urllib._replace_query_fragment.
      cbn [Urllib.scheme Urllib.netloc Urllib.path Urllib.params
           Urllib.query Urllib.fragment].
      change (if nonempty (snd (params_split s X))
              then fst (params_split s X) ++ py ";"
                   ++ snd (params_split s X)
              else fst (params_split s X))
        with (with_params (fst (params_split s X))
                          (snd (params_split s X))).
      rewrite HwX, Hnil, urlunsplit_no_authority, E1, E2, HnoX.
      cbn [andb negb]. rewrite (rooted_fix X Hrooted).
      f_equal. rewrite HrX. reflexivity.
Qed.
End NormalizeFacts.

Unset Implicit Arguments.

(* ===================================================================== *)
(** ** More properties of the Python primitives *)
(* ===================================================================== *)

(** *** Stripping *)

Lemma forallb_rev {A} (f : A -> bool) (l : list A) :
  forallb f (rev l) = forallb f l.
Proof.
  induction l as [|x l IH]; [reflexivity|].
  cbn [rev forallb]. rewrite forallb_app, IH. cbn [forallb].
  rewrite andb_true_r. apply andb_comm.
Qed.

Lemma dropwhile_all (f : ascii -> bool) (s : str) :
  forallb f s = true -> dropwhile f s = [].
Proof.
  induction s as [|c s IH]; simpl; [reflexivity|].
  intros H. apply andb_prop in H. destruct H as [Hc Hs].
  rewrite Hc. apply IH. exact Hs.
Qed.

Lemma dropwhile_app_all (f : ascii -> bool) (a b : str) :
  forallb f a = true -> dropwhile f (a ++ b) = dropwhile f b.
Proof.
  induction a as [|c a IH]; simpl; [reflexivity|].
  intros H. apply andb_prop in H. destruct H as [Hc Ha].
  rewrite Hc. apply IH. exact Ha.
Qed.

Lemma dropwhile_shorter (f : ascii -> bool) (s : str) :
  dropwhile f s = s \/ length (dropwhile f s) < length s.
Proof.
  assert (Hle : forall t, length (dropwhile f t) <= length t).
  { induction t as [|c t IH]; simpl; [lia|]. destruct (f c); simpl; lia. }
  destruct s as [|c s]; simpl; [left; reflexivity|].
  destruct (f c); [right | left; reflexivity].
  pose proof (Hle s). lia.
Qed.

Lemma rstrip_length (s : str) : length (rstrip s) <= length s.
Proof.
  unfold rstrip. rewrite length_rev.
  destruct (dropwhile_shorter isspace (rev s)) as [H|H].
  - rewrite H, length_rev. lia.
  - rewrite length_rev in H. lia.
Qed.

(** A string is its own [strip] exactly when neither end is whitespace. *)
Lemma strip_fixed (k : str) :
  strip k = k <-> lstrip k = k /\ rstrip k = k.
Proof.
  unfold strip. split.
  - intros H.
    destruct (dropwhile_shorter isspace k) as [Hl|Hl].
    + unfold lstrip in *. rewrite Hl in H. auto.
    + exfalso. pose proof (rstrip_length (lstrip k)) as Hr.
      rewrite H in Hr. unfold lstrip in Hr. lia.
  - intros [Hl Hr]. rewrite Hl. exact Hr.
Qed.

Lemma lstrip_app (x y : str) :
  lstrip x = x -> x <> [] -> lstrip (x ++ y) = x ++ y.
Proof.
  unfold lstrip. destruct x as [|c x]; [congruence|]. intros H _.
  cbn [app dropwhile] in *. destruct (isspace c); [|reflexivity].
  exfalso. destruct (dropwhile_shorter isspace x) as [E|E].
  - rewrite E in H. apply (f_equal (@length ascii)) in H. simpl in H. lia.
  - apply (f_equal (@length ascii)) in H. simpl in H. lia.
Qed.

Lemma rstrip_rev (s : str) : rstrip s = rev (lstrip (rev s)).
Proof. reflexivity. Qed.

Lemma rstrip_app (x y : str) :
  rstrip y = y -> y <> [] -> rstrip (x ++ y) = x ++ y.
Proof.
  intros H Hne. rewrite rstrip_rev, rev_app_distr.
  rewrite lstrip_app.
  - rewrite <- rev_app_distr. apply rev_involutive.
  - rewrite rstrip_rev in H. apply (f_equal (@rev ascii)) in H.
    rewrite rev_involutive in H. exact H.
  - intros E. apply Hne. apply (f_equal (@rev ascii)) in E.
    rewrite rev_involutive in E. exact E.
Qed.

Lemma strip_app (x y : str) :
  strip x = x -> strip y = y -> strip (x ++ y) = x ++ y.
Proof.
  intros Hx Hy. apply strip_fixed in Hx. apply strip_fixed in Hy.
  destruct Hx as [Hxl Hxr], Hy as [Hyl Hyr]. apply strip_fixed.
  destruct x as [|c x].
  - cbn [app]. auto.
  - destruct y as [|d y].
    + rewrite app_nil_r. auto.
    + split; [apply lstrip_app; [exact Hxl | discriminate]|].
      apply rstrip_app; [exact Hyr | discriminate].
Qed.

(** Whitespace around a string that has none at its ends is what
    [strip] takes away. *)
Lemma strip_pad (a k b : str) :
  blank a -> blank b -> strip k = k -> strip (a ++ k ++ b) = k.
Proof.
  unfold blank. intros Ha Hb Hk. apply strip_fixed in Hk.
  destruct Hk as [Hl Hr]. unfold strip.
  assert (E1 : lstrip (a ++ k ++ b) = lstrip (k ++ b))
    by (apply dropwhile_app_all; exact Ha).
  rewrite E1. destruct k as [|c k].
  - cbn [app]. unfold lstrip. rewrite (dropwhile_all _ _ Hb). reflexivity.
  - rewrite lstrip_app by (assumption || discriminate).
    rewrite rstrip_rev, rev_app_distr. unfold lstrip at 1.
    rewrite dropwhile_app_all by (rewrite forallb_rev; exact Hb).
    fold (lstrip (rev (c :: k))). rewrite <- rstrip_rev. exact Hr.
Qed.

Lemma strip_blank (s : str) : blank s -> strip s = [].
Proof.
  intros H. rewrite <- (app_nil_r s).
  change (s ++ []) with (s ++ [] ++ []).
  apply strip_pad; [exact H | reflexivity | reflexivity].
Qed.

Lemma strip_slashes (sl : str) : slashes sl -> strip sl = sl.
Proof.
  unfold slashes. intros H. apply strip_fixed.
  assert (Hl : forall t, forallb (fun c => Ascii.eqb c "/") t = true ->
                         lstrip t = t).
  { intros [|c t]; [reflexivity|]. cbn [forallb]. intros Ht.
    apply andb_prop in Ht. destruct Ht as [Hc _].
    apply Ascii.eqb_eq in Hc. subst c. reflexivity. }
  split; [apply Hl; exact H|].
  rewrite rstrip_rev, Hl; [apply rev_involutive|].
  rewrite forallb_rev. exact H.
Qed.

(** *** Collapsing whitespace *)

Lemma split_ws_aux_words (s cur : str) :
  forallb not_space cur = true ->
  Forall word (split_ws_aux s cur).
Proof.
  assert (Hrev : forall c0 cur0,
             forallb not_space (c0 :: cur0) = true ->
             word (rev (c0 :: cur0))).
  { intros c0 cur0 H. split.
    - intros E. apply (f_equal (@length ascii)) in E.
      rewrite length_rev in E. discriminate E.
    - rewrite forallb_rev. exact H. }
  revert cur; induction s as [|c s IH]; intros cur Hcur; cbn [split_ws_aux].
  - destruct cur as [|c0 cur0]; constructor; [|constructor].
    apply Hrev. exact Hcur.
  - destruct (isspace c) eqn:Ec.
    + destruct cur as [|c0 cur0]; [apply IH; reflexivity|].
      constructor; [apply Hrev; exact Hcur | apply IH; reflexivity].
    + apply IH. cbn [forallb]. unfold not_space at 1. rewrite Ec.
      exact Hcur.
Qed.

Lemma split_ws_words (s : str) : Forall word (split_ws s).
Proof. apply split_ws_aux_words. reflexivity. Qed.

Lemma join_cons (sep x : str) (l : list str) :
  l <> [] -> join sep (x :: l) = x ++ sep ++ join sep l.
Proof. destruct l; [congruence | reflexivity]. Qed.

Lemma join_length_le (sep x : str) (l : list str) :
  length (join sep (x :: l)) <= length x + length sep + length (join sep l).
Proof.
  destruct l as [|y l]; cbn [join]; [simpl; lia|].
  rewrite !length_app. lia.
Qed.

Lemma split_ws_aux_length (s cur : str) :
  length (join (py " ") (split_ws_aux s cur)) <= length s + length cur.
Proof.
  revert cur; induction s as [|c s IH]; intros cur; cbn [split_ws_aux].
  - destruct cur; cbn [join]; [simpl; lia|]. rewrite length_rev. simpl. lia.
  - destruct (isspace c).
    + destruct cur as [|c0 cur0].
      * specialize (IH []). simpl in *. lia.
      * pose proof (join_length_le (py " ") (rev (c0 :: cur0))
                      (split_ws_aux s [])) as H.
        specialize (IH []). rewrite length_rev in H.
        change (length (py " ")) with 1 in H. simpl in *. lia.
    + specialize (IH (c :: cur)). simpl in *. lia.
Qed.

(** Collapsing never makes a text longer. *)
Lemma collapse_ws_length (s : str) : length (collapse_ws s) <= length s.
Proof.
  unfold collapse_ws, split_ws.
  pose proof (split_ws_aux_length s []). simpl in *. lia.
Qed.

Lemma split_ws_aux_word (x rest cur : str) :
  forallb not_space x = true ->
  split_ws_aux (x ++ rest) cur = split_ws_aux rest (rev x ++ cur).
Proof.
  revert cur; induction x as [|c x IH]; intros cur; [reflexivity|].
  cbn [forallb app split_ws_aux]. intros H. apply andb_prop in H.
  destruct H as [Hc Hx]. unfold not_space in Hc.
  apply negb_true_iff in Hc. rewrite Hc, (IH _ Hx).
  cbn [rev]. rewrite <- app_assoc. reflexivity.
Qed.

(** Splitting what was joined from words gives the words. *)
Lemma split_ws_join (ws : list str) :
  Forall word ws -> split_ws (join (py " ") ws) = ws.
Proof.
  unfold split_ws. induction 1 as [|x ws [Hne Hx] Hws IH]; [reflexivity|].
  assert (Hrx : exists c r, rev x = c :: r).
  { destruct (rev x) as [|c r] eqn:E; [|eauto]. exfalso. apply Hne.
    apply (f_equal (@rev ascii)) in E. rewrite rev_involutive in E.
    exact E. }
  destruct Hrx as [c [r Hrx]].
  destruct ws as [|y ws].
  - cbn [join]. rewrite <- (app_nil_r x) at 1.
    rewrite (split_ws_aux_word x [] [] Hx), app_nil_r, Hrx.
    cbn [split_ws_aux]. rewrite <- Hrx, rev_involutive. reflexivity.
  - rewrite join_cons by discriminate.
    rewrite (split_ws_aux_word x _ [] Hx), app_nil_r, Hrx.
    change (py " " ++ join (py " ") (y :: ws))
      with (" "%char :: join (py " ") (y :: ws)).
    cbn [split_ws_aux]. replace (isspace " ") with true by reflexivity.
    rewrite <- Hrx, rev_involutive, IH. reflexivity.
Qed.

(** A collapsed text is collapsed: collapsing it again changes nothing.
    So it has no whitespace at its ends, and between two words exactly
    one space. *)
Lemma collapse_ws_idem (s : str) :
  collapse_ws (collapse_ws s) = collapse_ws s.
Proof.
  unfold collapse_ws at 1. unfold collapse_ws at 1.
  rewrite (split_ws_join _ (split_ws_words s)). reflexivity.
Qed.

(** *** Splitting at a separator *)

Lemma split_aux_skip (sep s : str) (k : nat) (cur : str) :
  split_aux sep s k cur = split_aux sep (skipn k s) 0 cur.
Proof.
  revert k; induction s as [|c s IH]; intros k.
  - destruct k; reflexivity.
  - destruct k as [|k]; [reflexivity|]. cbn [split_aux skipn]. apply IH.
Qed.

Lemma find_at_shift (q s : str) (i : nat) :
  find_at q s (S i) = option_map S (find_at q s i).
Proof.
  revert i; induction s as [|c s IH]; intros i.
  - cbn [find_at]. destruct (startswith [] q); reflexivity.
  - rewrite (find_at_eq q (c :: s) (S i)), (find_at_eq q (c :: s) i).
    destruct (startswith (c :: s) q); [reflexivity | apply IH].
Qed.

(** [str.split(sep)], one piece at a time: the text up to the first
    occurrence of the separator, then the pieces of what follows it. *)
Lemma split_aux_find (sep s cur : str) :
  sep <> [] ->
  split_aux sep s 0 cur =
  match find_at sep s 0 with
  | None => [rev cur ++ s]
  | Some i =>
      (rev cur ++ firstn i s)
        :: split_aux sep (skipn (i + length sep) s) 0 []
  end.
Proof.
  intros Hsep. revert cur; induction s as [|c s IH]; intros cur.
  - cbn [split_aux find_at]. destruct sep; [congruence|].
    cbn [startswith]. rewrite app_nil_r. reflexivity.
  - cbn [split_aux]. rewrite (find_at_eq sep (c :: s) 0).
    destruct (startswith (c :: s) sep) eqn:Es.
    + cbn [firstn]. rewrite app_nil_r, split_aux_skip.
      destruct sep as [|x sep']; [congruence|].
      change (length (x :: sep') - 1) with (length sep' - 0).
      rewrite Nat.sub_0_r. reflexivity.
    + rewrite IH, find_at_shift.
      destruct (find_at sep s 0) as [i|]; cbn [option_map].
      * cbn [rev Nat.add firstn skipn]. rewrite <- app_assoc. reflexivity.
      * cbn [rev]. rewrite <- app_assoc. reflexivity.
Qed.

Lemma split_aux_nonempty (sep s : str) (k : nat) (cur : str) :
  split_aux sep s k cur <> [].
Proof.
  revert k cur; induction s as [|c s IH]; intros k cur; cbn [split_aux];
    [discriminate|].
  destruct k; [|apply IH].
  destruct (startswith (c :: s) sep); [discriminate | apply IH].
Qed.

Lemma last_cons {A} (x : A) (l : list A) (d : A) :
  l <> [] -> last (x :: l) d = last l d.
Proof. destruct l; [congruence | reflexivity]. Qed.

Lemma occurs_at_split (q s : str) (i : nat) :
  occurs_at q s i -> s = firstn i s ++ q ++ skipn (i + length q) s.
Proof.
  intros [a [b [-> <-]]].
  rewrite firstn_app, Nat.sub_diag, firstn_all. cbn [firstn].
  rewrite app_nil_r. f_equal.
  rewrite skipn_app.
  replace (length a + length q - length a) with (length q) by lia.
  rewrite skipn_all2 by lia. cbn [app].
  rewrite skipn_app, Nat.sub_diag, skipn_all. reflexivity.
Qed.

(** The last piece of a split holds no separator, and it is the whole
    text, if that holds none, or what follows a separator. *)
Lemma last_piece (sep s : str) :
  sep <> [] ->
  let r := last (str_split s sep) [] in
  ~ occurs_in sep r
  /\ ((~ occurs_in sep s /\ r = s) \/ exists a, s = a ++ sep ++ r).
Proof.
  intros Hsep. unfold str_split.
  remember (length s) as n eqn:Hn. revert s Hn.
  induction n as [n IH] using lt_wf_ind. intros s Hn. cbv zeta.
  rewrite (split_aux_find sep s [] Hsep). cbn [rev app].
  destruct (find_at sep s 0) as [i|] eqn:Ef.
  - destruct (@find_at_Some _ _ _ _ Ef) as [j [Hj [Hocc _]]].
    cbn [Nat.add] in Hj. subst j.
    pose proof (occurs_at_split _ _ _ Hocc) as Hs.
    set (s2 := skipn (i + length sep) s) in *.
    rewrite last_cons by apply split_aux_nonempty.
    assert (Hlen : length s2 < n).
    { subst n. pose proof (f_equal (@length ascii) Hs) as Hl.
      rewrite !length_app in Hl.
      destruct sep; [congruence|]. simpl in Hl. lia. }
    destruct (IH _ Hlen s2 eq_refl) as [Hfree Hshape]. cbv zeta in *.
    split; [exact Hfree|]. right.
    destruct Hshape as [[_ Hr]|[a Ha]].
    + exists (firstn i s). rewrite Hr. exact Hs.
    + exists (firstn i s ++ sep ++ a). rewrite Hs at 1. rewrite Ha at 1.
      rewrite <- !app_assoc. reflexivity.
  - pose proof (@find_at_None _ _ _ Ef) as Hno. cbn [last].
    split; [exact Hno|]. left. auto.
Qed.

(** *** Lines *)

Lemma splitlines_aux_chars (s cur : str) (after_cr : bool) :
  forallb line_char cur = true ->
  Forall (fun l => forallb line_char l = true)
         (splitlines_aux s cur after_cr).
Proof.
  revert cur after_cr; induction s as [|c s IH]; intros cur after_cr Hcur;
    cbn [splitlines_aux].
  - destruct cur; constructor; [|constructor].
    rewrite forallb_rev. exact Hcur.
  - destruct (after_cr && (ord c =? 10)); [apply IH; exact Hcur|].
    destruct (is_linebreak c) eqn:Ec.
    + constructor; [rewrite forallb_rev; exact Hcur|].
      apply IH. reflexivity.
    + apply IH. cbn [forallb]. unfold line_char at 1. rewrite Ec.
      exact Hcur.
Qed.

Lemma forallb_dropwhile (f g : ascii -> bool) (s : str) :
  forallb f s = true -> forallb f (dropwhile g s) = true.
Proof.
  induction s as [|c s IH]; [reflexivity|]. cbn [forallb dropwhile].
  intros H. apply andb_prop in H. destruct H as [Hc Hs].
  destruct (g c); [apply IH; exact Hs|]. cbn [forallb]. rewrite Hc.
  exact Hs.
Qed.

Lemma forallb_strip (f : ascii -> bool) (s : str) :
  forallb f s = true -> forallb f (strip s) = true.
Proof.
  intros H. unfold strip, rstrip, lstrip. rewrite forallb_rev.
  apply forallb_dropwhile. rewrite forallb_rev.
  apply forallb_dropwhile. exact H.
Qed.

Lemma strip_strip (s : str) : strip (strip s) = strip s.
Proof.
  assert (Hl : forall t, lstrip (lstrip t) = lstrip t).
  { intros t. unfold lstrip. induction t as [|c t IH]; [reflexivity|].
    cbn [dropwhile]. destruct (isspace c) eqn:Ec; [exact IH|].
    cbn [dropwhile]. rewrite Ec. reflexivity. }
  apply strip_fixed. split.
  - unfold strip.
    destruct (lstrip s) as [|c t] eqn:E; [reflexivity|].
    assert (Hc : isspace c = false)
      by (apply (dropwhile_head_fails isspace s c t); exact E).
    assert (Hp : exists z, c :: t = rstrip (c :: t) ++ z).
    { exists (rev (takewhile isspace (rev (c :: t)))).
      unfold rstrip. rewrite <- rev_app_distr.
      rewrite <- takewhile_dropwhile. symmetry. apply rev_involutive. }
    destruct Hp as [z Hz].
    destruct (rstrip (c :: t)) as [|c' t']; [reflexivity|].
    inversion Hz; subst c'. unfold lstrip. cbn [dropwhile].
    rewrite Hc. reflexivity.
  - unfold strip. rewrite rstrip_rev at 1. rewrite rstrip_rev at 1.
    rewrite rev_involutive, Hl. reflexivity.
Qed.

Lemma kept_lines (t : str) :
  Forall kept_line (filter nonempty (map strip (splitlines t))).
Proof.
  apply Forall_forall. intros l Hl. apply filter_In in Hl.
  destruct Hl as [Hin Hne]. apply in_map_iff in Hin.
  destruct Hin as [x [<- Hx]]. split; [|split].
  - destruct (strip x); [discriminate Hne | discriminate].
  - apply strip_strip.
  - apply forallb_strip.
    pose proof (splitlines_aux_chars t [] false eq_refl) as H.
    rewrite Forall_forall in H. apply H. exact Hx.
Qed.

Lemma kept_line_head (l : str) :
  kept_line l -> exists c r, l = c :: r /\ isspace c = false
                             /\ line_char c = true.
Proof.
  intros [Hne [Hs Hc]]. destruct l as [|c r]; [congruence|].
  exists c, r. split; [reflexivity|]. split.
  - apply strip_fixed in Hs. destruct Hs as [Hl _]. unfold lstrip in Hl.
    cbn [dropwhile] in Hl. destruct (isspace c); [|reflexivity].
    exfalso. destruct (dropwhile_shorter isspace r) as [E|E].
    + rewrite E in Hl. apply (f_equal (@length ascii)) in Hl.
      simpl in Hl. lia.
    + apply (f_equal (@length ascii)) in Hl. simpl in Hl. lia.
  - cbn [forallb] in Hc. apply andb_prop in Hc. tauto.
Qed.

Lemma line_char_newline (l : str) :
  forallb line_char l = true -> char_in (ascii_of_nat 10) l = false.
Proof.
  intros H. apply (forallb_char_out line_char); [|exact H].
  intros c Hc. destruct (Ascii.eqb (ascii_of_nat 10) c) eqn:E;
    [|reflexivity].
  apply Ascii.eqb_eq in E. subst c. discriminate Hc.
Qed.

(** Lines that are joined by newlines leave no empty line. *)
Lemma join_no_empty_line (ls : list str) :
  Forall kept_line ls ->
  forall a b,
    join newline ls <> a ++ newline ++ newline ++ b.
Proof.
  unfold newline. set (nl := ascii_of_nat 10).
  induction 1 as [|x ls Hx Hls IH]; intros a b.
  - cbn [join]. destruct a; discriminate.
  - assert (Hxn : char_in nl x = false)
      by (apply line_char_newline; apply Hx).
    destruct ls as [|y ls].
    + cbn [join]. intros E. rewrite E in Hxn.
      rewrite char_in_app in Hxn. cbn [app] in Hxn.
      rewrite char_in_cons, Ascii.eqb_refl in Hxn.
      rewrite orb_true_r in Hxn. discriminate Hxn.
    + rewrite join_cons by discriminate. cbn [app].
      set (J := join [nl] (y :: ls)) in *. intros E.
      destruct (char_in nl a) eqn:Ea.
      * pose proof (before_after nl a Ea) as Ha.
        rewrite Ha in E. rewrite <- app_assoc in E. cbn [app] in E.
        pose proof (f_equal (before nl) E) as E1.
        rewrite (before_app nl x J Hxn) in E1.
        rewrite (before_app nl (before nl a) _ (before_clean nl a)) in E1.
        rewrite <- E1 in E. apply app_inv_head in E.
        inversion E as [E2]. apply (IH (after nl a) b). exact E2.
      * pose proof (f_equal (before nl) E) as E1.
        rewrite (before_app nl x J Hxn) in E1.
        rewrite (before_app nl a _ Ea) in E1.
        rewrite <- E1 in E. apply app_inv_head in E.
        inversion E as [E2].
        inversion Hls as [|? ? Hy _]; subst.
        destruct (kept_line_head y Hy) as [c [r [-> [_ Hc]]]].
        unfold J in E2. destruct ls; cbn [join app] in E2;
          inversion E2; subst c; discriminate Hc.
Qed.

(** *** A stable sort puts first the earliest of the smallest *)

Section SortHead.
Variables (A K : Type) (key : A -> K) (leb : K -> K -> bool).
Hypothesis leb_total : forall a b, leb a b = true \/ leb b a = true.
Hypothesis leb_trans :
  forall a b c, leb a b = true -> leb b c = true -> leb a c = true.

Lemma sort_by_head (l : list A) (x : A) (rest : list A) :
  sort_by key leb l = x :: rest ->
  exists l1 l2,
    l = l1 ++ x :: l2
    /\ (forall y, In y l1 -> leb (key y) (key x) = false)
    /\ (forall y, In y l2 -> leb (key x) (key y) = true).
Proof.
  revert x rest; induction l as [|a l IH]; intros x rest;
    [discriminate|].
  cbn [sort_by fold_right].
  change (fold_right (insert_sorted key leb) [] l) with (sort_by key leb l).
  destruct (sort_by key leb l) as [|y r] eqn:Es.
  - cbn [insert_sorted]. intros H. inversion H; subst.
    assert (l = []).
    { pose proof (sort_by_perm key leb l) as Hp. rewrite Es in Hp.
      apply Permutation_nil in Hp. exact Hp. }
    subst l. exists [], []. repeat split; intros ? [].
  - destruct (IH y r eq_refl) as [m1 [m2 [-> [H1 H2]]]].
    cbn [insert_sorted]. destruct (leb (key a) (key y)) eqn:Ea.
    + intros H. inversion H; subst. exists [], (m1 ++ y :: m2).
      split; [reflexivity|]. split; [intros ? []|].
      intros z Hz. apply in_app_or in Hz.
      destruct Hz as [Hz|[<-|Hz]]; [|exact Ea|].
      * destruct (leb_total (key y) (key z)) as [Hyz|Hzy].
        -- eapply leb_trans; eassumption.
        -- rewrite (H1 z Hz) in Hzy. discriminate Hzy.
      * eapply leb_trans; [exact Ea | apply H2; exact Hz].
    + intros H. inversion H; subst. exists (a :: m1), m2.
      split; [reflexivity|]. split; [|exact H2].
      intros z [<-|Hz]; [exact Ea | apply H1; exact Hz].
Qed.
End SortHead.

Lemma filter_split {A} (f : A -> bool) (l l1 l2 : list A) (x : A) :
  filter f l = l1 ++ x :: l2 ->
  exists m1 m2, l = m1 ++ x :: m2 /\ filter f m1 = l1 /\ filter f m2 = l2
                /\ f x = true.
Proof.
  revert l1; induction l as [|a l IH]; intros l1; cbn [filter].
  - destruct l1; discriminate.
  - destruct (f a) eqn:Ea.
    + destruct l1 as [|b l1]; cbn [app]; intros H; inversion H; subst.
      * exists [], l. auto.
      * destruct (IH _ H2) as [m1 [m2 [-> [H3 [H4 H5]]]]].
        exists (b :: m1), m2. cbn [filter app]. rewrite Ea, H3. auto.
    + intros H. destruct (IH _ H) as [m1 [m2 [-> [H3 [H4 H5]]]]].
      exists (a :: m1), m2. cbn [filter app]. rewrite Ea. auto.
Qed.

(* ===================================================================== *)
(** ** Properties of the page map and of the cache files *)
(* ===================================================================== *)

Lemma dict_set_fresh {V} (k : str) (v : V) (d : dict V) :
  ~ In k (dict_keys d) -> dict_set k v d = d ++ [(k, v)].
Proof.
  induction d as [|[k' v'] d IH]; simpl; intros Hk; [reflexivity|].
  destruct (str_eqb k k') eqn:E.
  - apply str_eqb_eq in E. subst k'. exfalso. apply Hk. left. reflexivity.
  - rewrite IH; [reflexivity|]. intros Hin. apply Hk. right. exact Hin.
Qed.

Lemma dict_get_In {V} (k : str) (v : V) (d : dict V) :
  dict_get k d = Some v -> In (k, v) d.
Proof.
  induction d as [|[k' v'] d IH]; simpl; [discriminate|].
  destruct (str_eqb k k') eqn:E.
  - apply str_eqb_eq in E. subst k'. intros H. inversion H. left.
    reflexivity.
  - intros H. right. apply IH. exact H.
Qed.

Lemma In_dict_get {V} (k : str) (v : V) (d : dict V) :
  dict_wf d -> In (k, v) d -> dict_get k d = Some v.
Proof.
  unfold dict_wf, dict_keys.
  induction d as [|[k' v'] d IH]; simpl; intros Hwf Hin; [destruct Hin|].
  inversion Hwf as [|? ? Hnot Hwf']; subst.
  destruct Hin as [Heq|Hin].
  - inversion Heq; subst. rewrite str_eqb_refl. reflexivity.
  - destruct (str_eqb k k') eqn:E; [|apply IH; assumption].
    apply str_eqb_eq in E. subst k'. exfalso. apply Hnot.
    apply in_map_iff. exists (k, v). split; [reflexivity | exact Hin].
Qed.

Lemma rebuild_page (p : DocPage) :
  mkDocPage (url p) (slug p) (title p) (text p) = p.
Proof. destruct p; reflexivity. Qed.

Lemma dict_set_keyed (p : DocPage) (d : dict DocPage) :
  keyed_by_slug d -> keyed_by_slug (dict_set (slug p) p d).
Proof.
  intros [Hwf Hk]. split; [apply dict_set_wf; exact Hwf|].
  clear Hwf. induction d as [|[k' p'] d IH]; simpl.
  - constructor; [reflexivity | constructor].
  - inversion Hk as [|? ? Hhd Htl]; subst. simpl in Hhd.
    destruct (str_eqb (slug p) k') eqn:E.
    + apply str_eqb_eq in E. constructor; [simpl; congruence | exact Htl].
    + constructor; [exact Hhd | apply IH; exact Htl].
Qed.

Lemma fold_set_keyed (pgs : list DocPage) (d : dict DocPage) :
  keyed_by_slug d ->
  keyed_by_slug (fold_left (fun d p => dict_set (slug p) p d) pgs d).
Proof.
  revert d; induction pgs as [|p pgs IH]; intros d Hd; simpl; [exact Hd|].
  apply IH. apply dict_set_keyed. exact Hd.
Qed.

Lemma keyed_nil : keyed_by_slug [].
Proof. split; constructor. Qed.

Lemma pages_by_slug_keyed (pgs : list DocPage) :
  keyed_by_slug (pages_by_slug pgs).
Proof. apply fold_set_keyed. exact keyed_nil. Qed.

(** The pages that [_load_from_disk] builds from a page file. *)
Lemma loaded_pages (raw_pages : list DocPage) (d : dict DocPage) :
  fold_left
    (fun acc p =>
       dict_set (slug p) (mkDocPage (url p) (slug p) (title p) (text p)) acc)
    raw_pages d =
  fold_left (fun d p => dict_set (slug p) p d) raw_pages d.
Proof.
  revert d; induction raw_pages as [|p ps IH]; intros d; simpl;
    [reflexivity|].
  rewrite rebuild_page. apply IH.
Qed.

(** Writing the values of a map that is keyed by slug into a new map
    gives the same map. *)
Lemma fold_set_values (d2 d1 : dict DocPage) :
  NoDup (dict_keys (d1 ++ d2)) ->
  Forall (fun kv => fst kv = slug (snd kv)) d2 ->
  fold_left (fun d p => dict_set (slug p) p d) (dict_values d2) d1 = d1 ++ d2.
Proof.
  revert d1; induction d2 as [|[k p] d2 IH]; intros d1 Hnd Hk; simpl.
  - rewrite app_nil_r. reflexivity.
  - inversion Hk as [|? ? Hhd Htl]; subst. simpl in Hhd. subst k.
    assert (Hfresh : ~ In (slug p) (dict_keys d1)).
    { unfold dict_keys in *. rewrite map_app in Hnd. simpl in Hnd.
      apply NoDup_remove_2 in Hnd. intros Hin. apply Hnd.
      apply in_or_app. left. exact Hin. }
    rewrite (dict_set_fresh _ _ _ Hfresh).
    change (fold_left (fun d p0 => dict_set (slug p0) p0 d) (map snd d2)
              (d1 ++ [(slug p, p)]))
      with (fold_left (fun d p0 => dict_set (slug p0) p0 d) (dict_values d2)
              (d1 ++ [(slug p, p)])).
    rewrite IH.
    + rewrite <- app_assoc. reflexivity.
    + rewrite <- app_assoc. exact Hnd.
    + exact Htl.
Qed.

Lemma pages_by_slug_values (d : dict DocPage) :
  keyed_by_slug d -> pages_by_slug (dict_values d) = d.
Proof.
  intros [Hwf Hk]. unfold pages_by_slug.
  apply (fold_set_values d []); assumption.
Qed.

(** [{p.slug: p for p in pages}]: the page found under a slug is the
    last page of the list that has this slug. *)
Lemma fold_set_get (pgs : list DocPage) (d : dict DocPage) (k : str)
      (p : DocPage) :
  dict_get k (fold_left (fun d p => dict_set (slug p) p d) pgs d) = Some p
  <-> (exists before after,
          pgs = before ++ p :: after /\ slug p = k
          /\ forall p', In p' after -> slug p' <> k)
      \/ (dict_get k d = Some p /\ forall p', In p' pgs -> slug p' <> k).
Proof.
  induction pgs as [|x pgs IH] using rev_ind.
  - simpl. split.
    + intros H. right. split; [exact H | intros p' []].
    + intros [[before [after [H _]]]|[H _]]; [|exact H].
      destruct before; discriminate H.
  - rewrite fold_left_app. cbn [fold_left]. rewrite dict_get_set.
    destruct (str_eqb k (slug x)) eqn:E.
    + apply str_eqb_eq in E. split.
      * intros H. inversion H; subst. left. exists pgs, [].
        repeat split. intros p' [].
      * intros [[before [after [Hsplit [Hs Hlater]]]]|[_ Hnone]].
        -- destruct after as [|y after] using rev_ind.
           ++ apply app_inj_tail in Hsplit. destruct Hsplit as [_ ->].
              reflexivity.
           ++ clear IHafter. exfalso.
              rewrite app_comm_cons, app_assoc in Hsplit.
              apply app_inj_tail in Hsplit. destruct Hsplit as [_ ->].
              apply (Hlater y); [|symmetry; exact E].
              apply in_or_app. right. left. reflexivity.
        -- exfalso. apply (Hnone x); [|symmetry; exact E].
           apply in_or_app. right. left. reflexivity.
    + apply str_eqb_neq in E. rewrite IH. split.
      * intros [[before [after [-> [Hs Hlater]]]]|[Hd Hnone]].
        -- left. exists before, (after ++ [x]). split.
           ++ rewrite <- app_assoc. reflexivity.
           ++ split; [exact Hs|]. intros p' Hin.
              apply in_app_or in Hin. destruct Hin as [Hin|[<-|[]]].
              ** apply Hlater. exact Hin.
              ** congruence.
        -- right. split; [exact Hd|]. intros p' Hin.
           apply in_app_or in Hin. destruct Hin as [Hin|[<-|[]]].
           ++ apply Hnone. exact Hin.
           ++ congruence.
      * intros [[before [after [Hsplit [Hs Hlater]]]]|[Hd Hnone]].
        -- left. destruct after as [|y after] using rev_ind.
           ++ apply app_inj_tail in Hsplit. destruct Hsplit as [_ ->].
              congruence.
           ++ clear IHafter.
              rewrite app_comm_cons, app_assoc in Hsplit.
              apply app_inj_tail in Hsplit. destruct Hsplit as [-> ->].
              exists before, after. repeat split; [exact Hs|].
              intros p' Hin. apply Hlater. apply in_or_app. left. exact Hin.
        -- right. split; [exact Hd|]. intros p' Hin. apply Hnone.
           apply in_or_app. left. exact Hin.
Qed.

Lemma pages_by_slug_get (pgs : list DocPage) (k : str) (p : DocPage) :
  dict_get k (pages_by_slug pgs) = Some p
  <-> exists before after,
        pgs = before ++ p :: after /\ slug p = k
        /\ forall p', In p' after -> slug p' <> k.
Proof.
  unfold pages_by_slug. rewrite fold_set_get. split.
  - intros [H|[H _]]; [exact H | discriminate H].
  - intros H. left. exact H.
Qed.

Lemma pages_by_slug_length (pgs : list DocPage) :
  length (pages_by_slug pgs) <= length pgs.
Proof.
  unfold pages_by_slug.
  assert (H : forall d,
             length (fold_left (fun d p => dict_set (slug p) p d) pgs d)
             <= length d + length pgs).
  { induction pgs as [|p pgs IH]; intros d; simpl; [lia|].
    specialize (IH (dict_set (slug p) p d)).
    assert (Hs : length (dict_set (slug p) p d) <= S (length d)).
    { clear. induction d as [|[k' v'] d IHd]; simpl; [lia|].
      destruct (str_eqb (slug p) k'); simpl; lia. }
    lia. }
  apply (H []).
Qed.

Section Persistence.
Unset Implicit Arguments.

Variable bracketed_netloc_ok : str -> bool.
Variable urljoin : str -> str -> outcome str.
Variable w : World.

Local Abbreviation reindex := (reindex bracketed_netloc_ok urljoin w).
Local Abbreviation ensure_fresh := (ensure_fresh bracketed_netloc_ok urljoin w).
Local Abbreviation crawl_docs := (crawl_docs bracketed_netloc_ok urljoin w).

(** X1. An index is written to the cache and read back by the constructor
    without loss, provided its pages are stored under their slugs: the
    constructor finds the same pages under the same keys, the same
    members, and the time stamp that was written. *)
Theorem cache_round_trip (self : DocIndex) :
  keyed_by_slug (pages self) ->
  __init__ (_save_to_disk w self) =
  mkDocIndex (pages self) (members self)
             (Some (match indexed_at self with
                    | Some t => t
                    | None => clock_stamp w
                    end)).
Proof.
  intros Hk. unfold __init__, _load_from_disk, _save_to_disk.
  cbn [pages_file members_file meta_file].
  rewrite loaded_pages.
  change (fold_left (fun d p => dict_set (slug p) p d)
            (dict_values (pages self)) [])
    with (pages_by_slug (dict_values (pages self))).
  rewrite (pages_by_slug_values _ Hk). reflexivity.
Qed.

(** X2. Whatever the cache files hold, the constructor builds a page map in
    which every page is stored under its own slug and no slug is a key
    twice; of two pages of the page file with the same slug, the later
    one is kept. *)
Theorem loaded_pages_keyed_by_slug (d : Disk) :
  keyed_by_slug (pages (__init__ d))
  /\ forall raw_pages before p after,
       pages_file d = Some raw_pages ->
       raw_pages = before ++ p :: after ->
       (forall p', In p' after -> slug p' <> slug p) ->
       dict_get (slug p) (pages (__init__ d)) = Some p.
Proof.
  split.
  - unfold __init__, _load_from_disk. cbn [pages].
    destruct (pages_file d) as [raw_pages|]; [|exact keyed_nil].
    rewrite loaded_pages. apply pages_by_slug_keyed.
  - intros raw_pages before p after Hfile -> Hlater.
    unfold __init__, _load_from_disk. cbn [pages]. rewrite Hfile.
    rewrite loaded_pages. apply pages_by_slug_get.
    exists before, after. repeat split. exact Hlater.
Qed.
End Persistence.

(* ===================================================================== *)
(** ** Properties of the crawl *)
(* ===================================================================== *)

Section CrawlFacts.
Unset Implicit Arguments.

Variable bracketed_netloc_ok : str -> bool.
Variable urljoin : str -> str -> outcome str.
Variable w : World.

Local Abbreviation crawl_docs := (crawl_docs bracketed_netloc_ok urljoin w).
Local Abbreviation crawl_loop := (crawl_loop bracketed_netloc_ok urljoin w).
Local Abbreviation crawl_body := (crawl_body bracketed_netloc_ok urljoin w).
Local Abbreviation visit_page := (visit_page bracketed_netloc_ok urljoin).
Local Abbreviation discover_links :=
  (discover_links bracketed_netloc_ok urljoin).
Local Abbreviation normalize_url := (normalize_url bracketed_netloc_ok).
Local Abbreviation allowed := (allowed bracketed_netloc_ok).
Local Abbreviation page_to_slug := (page_to_slug bracketed_netloc_ok).
Local Abbreviation crawl_inv := (crawl_inv bracketed_netloc_ok w).
Local Abbreviation scope_inv_holds := (scope_inv bracketed_netloc_ok).
Local Abbreviation pages_inv_holds := (pages_inv bracketed_netloc_ok w).

Lemma normalize_root : normalize_url ROOT_URL = Returned ROOT_URL.
Proof. vm_compute. reflexivity. Qed.

Lemma root_in_scope : in_scope ROOT_URL.
Proof. split; vm_compute; reflexivity. Qed.

Lemma allowed_true (x : str) :
  allowed x = Returned true ->
  exists n, normalize_url x = Returned n /\ in_scope n.
Proof.
  unfold Server.allowed, obind.
  destruct (normalize_url x) as [n|e]; [|discriminate].
  destruct (startswith n ALLOWED_PREFIX) eqn:Es; cbn [negb].
  - intros H. inversion H as [He]. exists n. split; [reflexivity|].
    split; assumption.
  - discriminate.
Qed.

(** The frontier after the links of a page were looked at: the old
    frontier, followed by links that [allowed] accepts. *)
Lemma discover_links_adds (u : str) (seen0 hrefs tv frontier : list str) :
  discover_links u seen0 hrefs tv = Returned frontier ->
  exists added,
    frontier = tv ++ added
    /\ Forall (fun x => allowed x = Returned true) added.
Proof.
  revert tv; induction hrefs as [|raw hrefs IH]; intros tv; simpl.
  - intros H. inversion H. exists []. rewrite app_nil_r.
    split; [reflexivity | constructor].
  - destruct (nonempty raw); cbn [negb]; [|apply IH].
    unfold obind.
    destruct (urljoin u raw) as [joined|e]; [|discriminate].
    destruct (normalize_url joined) as [linked|e]; [|discriminate].
    destruct (allowed linked) as [ok|e] eqn:Eok; [|discriminate].
    destruct (ok && negb (str_in linked seen0) && negb (str_in linked tv))
      eqn:Ec; [|apply IH].
    intros H. destruct (IH _ H) as [added [-> Hall]].
    exists (linked :: added). rewrite <- app_assoc. split; [reflexivity|].
    constructor; [|exact Hall].
    destruct ok; [exact Eok | discriminate Ec].
Qed.

(** One turn of the loop that does not raise. *)
Lemma crawl_body_next (c c' : Crawl) (first : str) (rest : list str) :
  to_visit c = first :: rest ->
  crawl_body c = Next c' ->
  exists u,
    normalize_url first = Returned u
    /\ ((str_in u (seen c) = true
         /\ c' = mkCrawl rest (seen c) (c_pages c) (c_members c)
                         (requests c))
        \/ (str_in u (seen c) = false /\ http_get w u = None
            /\ c' = mkCrawl rest (seen c ++ [u]) (c_pages c) (c_members c)
                            (requests c ++ [u]))
        \/ (str_in u (seen c) = false
            /\ exists soup sl frontier,
                 http_get w u = Some soup
                 /\ page_to_slug u = Returned sl
                 /\ discover_links u (seen c ++ [u]) (soup_hrefs soup) rest
                    = Returned frontier
                 /\ c' = mkCrawl frontier (seen c ++ [u])
                           (c_pages c
                            ++ [mkDocPage u sl (page_title_of soup sl)
                                          (extract_text soup)])
                           (fold_left
                              (add_member u (page_title_of soup sl))
                              (soup_dts soup) (c_members c))
                           (requests c ++ [u]))).
Proof.
  intros Htv. unfold Server.crawl_body. rewrite Htv.
  destruct (normalize_url first) as [u|e]; [|discriminate].
  intros H. exists u. split; [reflexivity|].
  destruct (str_in u (seen c)) eqn:Es.
  - left. inversion H. auto.
  - right. destruct (http_get w u) as [soup|] eqn:Eg.
    + right. split; [reflexivity|]. exists soup.
      unfold Server.visit_page, obind in H.
      destruct (page_to_slug u) as [sl|e] eqn:Esl.
      * exists sl.
        assert (Ht : match soup_title soup with
                     | Some t => if nonempty t then Returned (strip t)
                                 else Returned sl
                     | None => Returned sl
                     end = (Returned (page_title_of soup sl) : outcome str)).
        { unfold page_title_of. destruct (soup_title soup) as [t|];
            [destruct (nonempty t)|]; reflexivity. }
        rewrite Ht in H.
        destruct (discover_links u (seen c ++ [u]) (soup_hrefs soup) rest)
          as [frontier|e] eqn:Ed; [|discriminate H].
        exists frontier. inversion H. auto.
      * exfalso.
        destruct (soup_title soup) as [t|]; [destruct (nonempty t)|];
          discriminate H.
    + left. inversion H. auto.
Qed.

Lemma visit_page_requests (u : str) (soup : Soup) (rest seen' reqs : list str)
      (c : Crawl) :
  step_requests (visit_page u soup rest seen' reqs c) = reqs.
Proof.
  unfold Server.visit_page, obind.
  destruct (page_to_slug u) as [sl|e];
    (destruct (soup_title soup) as [t|]; [destruct (nonempty t)|]);
    try reflexivity;
    destruct (discover_links u seen' (soup_hrefs soup) rest); reflexivity.
Qed.

(** A turn requests nothing, or the normalized URL that it took from the
    frontier. *)
Lemma crawl_body_requests (c : Crawl) (first : str) (rest : list str) :
  to_visit c = first :: rest ->
  step_requests (crawl_body c) = requests c
  \/ exists u, normalize_url first = Returned u
               /\ str_in u (seen c) = false
               /\ step_requests (crawl_body c) = requests c ++ [u].
Proof.
  intros Htv. unfold Server.crawl_body. rewrite Htv.
  destruct (normalize_url first) as [u|e]; [|left; reflexivity].
  destruct (str_in u (seen c)) eqn:Es; [left; reflexivity|].
  right. exists u. split; [reflexivity|]. split; [exact Es|].
  destruct (http_get w u) as [soup|]; [|reflexivity].
  apply visit_page_requests.
Qed.

Lemma crawl_cond_frontier (c : Crawl) :
  crawl_cond c = true -> exists first rest, to_visit c = first :: rest.
Proof.
  unfold crawl_cond. destruct (to_visit c) as [|first rest];
    [discriminate|]. intros _. exists first, rest. reflexivity.
Qed.

(** A property that every turn keeps holds when the loop ends. *)
Lemma crawl_loop_invariant (I : Crawl -> Prop) (R : list str -> Prop) :
  (forall c, crawl_cond c = true -> I c ->
             match crawl_body c with
             | Next c' => I c'
             | Throw _ reqs => R reqs
             end) ->
  forall c, I c ->
            match crawl_loop c with
            | Next c' => I c' /\ crawl_cond c' = false
            | Throw _ reqs => R reqs
            end.
Proof.
  intros Hturn.
  apply (crawl_loop_induction bracketed_netloc_ok urljoin w
           (fun c r =>
              I c ->
              match r with
              | Next c' => I c' /\ crawl_cond c' = false
              | Throw _ reqs => R reqs
              end)).
  - intros c Hc Hi. auto.
  - intros c c' Hc Hb IH Hi. apply IH.
    pose proof (Hturn c Hc Hi) as Ht. rewrite Hb in Ht. exact Ht.
  - intros c e reqs Hc Hb Hi.
    pose proof (Hturn c Hc Hi) as Ht. rewrite Hb in Ht. exact Ht.
Qed.

(** The requests only grow. *)
Lemma crawl_loop_requests_grow (c : Crawl) :
  exists tl, step_requests (crawl_loop c) = requests c ++ tl.
Proof.
  apply (crawl_loop_induction bracketed_netloc_ok urljoin w
           (fun c r => exists tl, step_requests r = requests c ++ tl)).
  - intros c0 _. exists []. rewrite app_nil_r. reflexivity.
  - intros c0 c' Hc Hb [tl IH].
    destruct (crawl_cond_frontier c0 Hc) as [first [rest Htv]].
    destruct (crawl_body_requests c0 first rest Htv) as [H|[u [_ [_ H]]]];
      rewrite Hb in H; cbn [step_requests] in H; rewrite H in IH.
    + exists tl. exact IH.
    + exists (u :: tl). rewrite IH, <- app_assoc. reflexivity.
  - intros c0 e reqs Hc Hb.
    destruct (crawl_cond_frontier c0 Hc) as [first [rest Htv]].
    destruct (crawl_body_requests c0 first rest Htv) as [H|[u [_ [_ H]]]];
      rewrite Hb in H; cbn [step_requests] in H.
    + exists []. rewrite app_nil_r. exact H.
    + exists [u]. exact H.
Qed.

Lemma crawl_docs_requests :
  snd crawl_docs = step_requests (crawl_loop (mkCrawl [ROOT_URL] [] [] [] [])).
Proof.
  unfold Server.crawl_docs.
  destruct (crawl_loop (mkCrawl [ROOT_URL] [] [] [] [])); reflexivity.
Qed.

(** The first turn requests the seed. *)
Lemma crawl_seed_first : exists tl, snd crawl_docs = ROOT_URL :: tl.
Proof.
  rewrite crawl_docs_requests, crawl_loop_eq.
  replace (crawl_cond (mkCrawl [ROOT_URL] [] [] [] [])) with true
    by reflexivity.
  assert (Hb : step_requests (crawl_body (mkCrawl [ROOT_URL] [] [] [] []))
               = [ROOT_URL]).
  { unfold Server.crawl_body. cbn [to_visit seen requests].
    rewrite normalize_root. cbn [str_in existsb app].
    destruct (http_get w ROOT_URL) as [soup|]; [|reflexivity].
    apply visit_page_requests. }
  destruct (crawl_body (mkCrawl [ROOT_URL] [] [] [] [])) as [c'|e reqs];
    cbn [step_requests] in Hb.
  - destruct (crawl_loop_requests_grow c') as [tl Htl].
    rewrite Htl, Hb. exists tl. reflexivity.
  - exists []. cbn [step_requests]. exact Hb.
Qed.

Lemma crawl_scope_turn (c : Crawl) :
  crawl_cond c = true -> scope_inv_holds c ->
  match crawl_body c with
  | Next c' => scope_inv_holds c'
  | Throw _ reqs => Forall in_scope reqs
  end.
Proof.
  intros Hc [Htv Hreq].
  destruct (crawl_cond_frontier c Hc) as [first [rest Hfr]].
  rewrite Hfr in Htv. inversion Htv as [|? ? [n [Hn Hin]] Hrest]; subst.
  assert (Hgrow : forall u, normalize_url first = Returned u ->
                            Forall in_scope (requests c ++ [u])).
  { intros u Hu. apply Forall_app. split; [exact Hreq|].
    constructor; [|constructor]. congruence. }
  destruct (crawl_body c) as [c'|e reqs] eqn:Hb.
  - destruct (crawl_body_next c c' first rest Hfr Hb)
      as [u [Hu [[_ ->]|[[_ [_ ->]]|[_ [soup [sl [fr [_ [_ [Hd ->]]]]]]]]]]];
      split; cbn [to_visit requests]; auto.
    destruct (discover_links_adds _ _ _ _ _ Hd) as [added [-> Hadd]].
    apply Forall_app. split; [exact Hrest|].
    eapply Forall_impl; [|exact Hadd]. intros x Hx.
    apply allowed_true. exact Hx.
  - destruct (crawl_body_requests c first rest Hfr) as [H|[u [Hu [_ H]]]];
      rewrite Hb in H; cbn [step_requests] in H; rewrite H; auto.
Qed.

Lemma scope_inv_start : scope_inv_holds (mkCrawl [ROOT_URL] [] [] [] []).
Proof.
  split; cbn [to_visit requests]; [|constructor].
  constructor; [|constructor]. exists ROOT_URL.
  split; [exact normalize_root | exact root_in_scope].
Qed.

Lemma crawl_requests_scope : Forall in_scope (snd crawl_docs).
Proof.
  rewrite crawl_docs_requests.
  pose proof (crawl_loop_invariant scope_inv_holds (Forall in_scope)
                crawl_scope_turn _ scope_inv_start) as H.
  destruct (crawl_loop (mkCrawl [ROOT_URL] [] [] [] [])) as [c|e reqs];
    cbn [step_requests]; [exact (proj2 (proj1 H)) | exact H].
Qed.

(** X12. Every URL that a crawl requests is a URL of the documentation site:
    it starts with the allowed prefix and ends with ".html". The first
    request goes to the seed, so that a crawl never ends without a
    request. This holds whether the crawl returns or raises. *)
Theorem crawl_requests_in_scope :
  Forall in_scope (snd crawl_docs)
  /\ exists tl, snd crawl_docs = ROOT_URL :: tl.
Proof. split; [exact crawl_requests_scope | exact crawl_seed_first]. Qed.

Lemma crawl_pages_turn (c : Crawl) :
  crawl_cond c = true -> pages_inv_holds c ->
  match crawl_body c with
  | Next c' => pages_inv_holds c'
  | Throw _ _ => True
  end.
Proof.
  intros Hc [Hmap Hall].
  destruct (crawl_cond_frontier c Hc) as [first [rest Hfr]].
  destruct (crawl_body c) as [c'|e reqs] eqn:Hb; [|exact I].
  destruct (crawl_body_next c c' first rest Hfr Hb)
    as [u [Hu [[_ ->]|[[_ [Hg ->]]|[_ [soup [sl [fr [Hg [Hsl [_ ->]]]]]]]]]]];
    split; cbn [c_pages seen]; auto.
  - rewrite filter_app. cbn [filter]. unfold answered at 2. rewrite Hg.
    rewrite app_nil_r. exact Hmap.
  - rewrite map_app, filter_app. cbn [filter map url].
    unfold answered at 2. rewrite Hg, Hmap. reflexivity.
  - apply Forall_app. split; [exact Hall|]. constructor; [|constructor].
    exists soup. cbn [url slug title text]. auto.
Qed.

Lemma pages_inv_start : pages_inv_holds (mkCrawl [ROOT_URL] [] [] [] []).
Proof. split; [reflexivity | constructor]. Qed.

Lemma crawl_docs_returned (pgs : list DocPage) (mems : dict (dict str))
      (reqs : list str) :
  crawl_docs = (Returned (pgs, mems), reqs) ->
  exists c, crawl_loop (mkCrawl [ROOT_URL] [] [] [] []) = Next c
            /\ pgs = c_pages c /\ mems = c_members c /\ reqs = requests c.
Proof.
  unfold Server.crawl_docs.
  destruct (crawl_loop (mkCrawl [ROOT_URL] [] [] [] [])) as [c|e r];
    [|discriminate].
  intros H. inversion H. exists c. auto.
Qed.

Lemma NoDup_filter {A} (f : A -> bool) (l : list A) :
  NoDup l -> NoDup (filter f l).
Proof.
  induction 1 as [|x l Hx Hl IH]; simpl; [constructor|].
  destruct (f x); [|exact IH]. constructor; [|exact IH].
  intros Hin. apply filter_In in Hin. tauto.
Qed.

Lemma filter_length_le {A} (f : A -> bool) (l : list A) :
  length (filter f l) <= length l.
Proof.
  induction l as [|x l IH]; simpl; [lia|]. destruct (f x); simpl; lia.
Qed.

Lemma crawl_pages_from (pgs : list DocPage) (mems : dict (dict str))
      (reqs : list str) :
  crawl_docs = (Returned (pgs, mems), reqs) ->
  map url pgs = filter (answered w) reqs
  /\ Forall (page_from bracketed_netloc_ok w) pgs
  /\ NoDup reqs /\ length reqs <= MAX_PAGES
  /\ Forall (fun u => exists x, normalize_url x = Returned u) reqs
  /\ mems = fold_left (put element_id element_entry)
                      (crawled_elements w pgs) [].
Proof.
  intros H. destruct (crawl_docs_returned _ _ _ H) as [c [Hc [-> [-> ->]]]].
  pose proof (crawl_loop_invariant pages_inv_holds (fun _ => True)
                crawl_pages_turn _ pages_inv_start) as Hp.
  pose proof (crawl_loop_inv bracketed_netloc_ok urljoin w _
                (crawl_inv_start bracketed_netloc_ok w)) as Hi.
  rewrite Hc in Hp, Hi.
  destruct Hp as [[Hmap Hall] _].
  destruct Hi as [[Hreq [Hnd [Hlen [Hnorm Hmem]]]] _].
  rewrite Hreq. auto 10.
Qed.

(** X13. The pages that a crawl returns are the requests that were answered,
    in the order of the requests: a request that failed leaves no
    page. Each page carries the URL that was requested,
    the slug of that URL, the text extracted from the answer, and as its
    title the stripped title of the answer or, without one, the slug.
    So the pages have pairwise distinct URLs and are at most
    [MAX_PAGES] many. *)
Theorem crawl_pages_are_answered_requests
        (pgs : list DocPage) (mems : dict (dict str)) (reqs : list str) :
  crawl_docs = (Returned (pgs, mems), reqs) ->
  map url pgs = filter (answered w) reqs
  /\ Forall (page_from bracketed_netloc_ok w) pgs
  /\ NoDup (map url pgs)
  /\ length pgs <= MAX_PAGES.
Proof.
  intros H.
  destruct (crawl_pages_from _ _ _ H) as [Hmap [Hall [Hnd [Hlen _]]]].
  split; [exact Hmap|]. split; [exact Hall|].
  rewrite Hmap. split; [apply NoDup_filter; exact Hnd|].
  rewrite <- (length_map url), Hmap.
  pose proof (filter_length_le (answered w) reqs). lia.
Qed.
(** The crawl of a site whose seed does not answer. *)
Lemma crawl_unreachable :
  http_get w ROOT_URL = None ->
  crawl_docs = (Returned ([], []), [ROOT_URL]).
Proof.
  intros Hg. unfold Server.crawl_docs. rewrite crawl_loop_eq.
  replace (crawl_cond (mkCrawl [ROOT_URL] [] [] [] [])) with true
    by reflexivity.
  unfold Server.crawl_body at 1. cbn [to_visit seen requests c_pages c_members].
  rewrite normalize_root. cbn [str_in existsb app]. rewrite Hg.
  rewrite crawl_loop_eq. reflexivity.
Qed.
End CrawlFacts.

(* ===================================================================== *)
(** ** Properties of the refresh *)
(* ===================================================================== *)

Section Refresh.
Unset Implicit Arguments.

Variable bracketed_netloc_ok : str -> bool.
Variable urljoin : str -> str -> outcome str.
Variable w : World.

Local Abbreviation ensure_fresh := (ensure_fresh bracketed_netloc_ok urljoin w).
Local Abbreviation reindex := (reindex bracketed_netloc_ok urljoin w).
Local Abbreviation search := (search bracketed_netloc_ok urljoin w).
Local Abbreviation get_page := (get_page bracketed_netloc_ok urljoin w).
Local Abbreviation get_member := (get_member bracketed_netloc_ok urljoin w).
Local Abbreviation crawl_docs := (crawl_docs bracketed_netloc_ok urljoin w).
Local Abbreviation crawl_loop := (crawl_loop bracketed_netloc_ok urljoin w).
Local Abbreviation normalize_slug_or_url :=
  (normalize_slug_or_url bracketed_netloc_ok).

(** The index that a crawl leaves. *)
Local Abbreviation crawled_index pgs mems :=
  (mkDocIndex (pages_by_slug pgs) mems (Some (clock_stamp w))).

(** The three ways in which [reindex] ends. *)
Lemma reindex_outcome (force : bool) (s : Sys) :
  (dict_nonempty (pages (index s)) && negb force
   && negb (is_stale w (index s)) = true
   /\ reindex force s =
      (Returned (mkStatus (py "ok") (py "Index already fresh.")
                          (stamp_of (index s))), s))
  \/ (dict_nonempty (pages (index s)) && negb force
      && negb (is_stale w (index s)) = false
      /\ ((exists e reqs,
              crawl_docs = (Raised e, reqs)
              /\ reindex force s =
                 (Raised e, mkSys (index s) (disk s) (fetched s ++ reqs)))
          \/ (exists pgs mems reqs,
                 crawl_docs = (Returned (pgs, mems), reqs)
                 /\ reindex force s =
                    (Returned
                       (mkStatus (py "ok")
                          (py "Indexed "
                           ++ str_of_nat (length (pages_by_slug pgs))
                           ++ py " pages and " ++ str_of_nat (length mems)
                           ++ py " API members.")
                          (Iso (clock_stamp w))),
                     mkSys (crawled_index pgs mems)
                           (_save_to_disk w (crawled_index pgs mems))
                           (fetched s ++ reqs))))).
Proof.
  unfold Server.reindex.
  destruct (dict_nonempty (pages (index s)) && negb force
            && negb (is_stale w (index s))); [left; auto|].
  right. split; [reflexivity|].
  destruct crawl_docs as [[[pgs mems]|e] reqs].
  - right. exists pgs, mems, reqs. auto.
  - left. exists e, reqs. auto.
Qed.

(** The two ways in which [ensure_fresh] goes. *)
Lemma ensure_fresh_outcome (s : Sys) :
  (dict_nonempty (pages (index s)) && negb (is_stale w (index s)) = true
   /\ ensure_fresh s =
      (Returned (mkStatus (py "ok") (py "Index is fresh.")
                          (stamp_of (index s))), s))
  \/ (dict_nonempty (pages (index s)) && negb (is_stale w (index s)) = false
      /\ ensure_fresh s = reindex true s).
Proof.
  unfold Server.ensure_fresh.
  destruct (dict_nonempty (pages (index s)) && negb (is_stale w (index s)));
    [left | right]; auto.
Qed.

Lemma reindex_true_crawls (s : Sys) :
  dict_nonempty (pages (index s)) && negb true
  && negb (is_stale w (index s)) = false.
Proof. rewrite andb_false_r. reflexivity. Qed.

Lemma not_stale_stamp (self : DocIndex) :
  is_stale w self = false ->
  exists t, indexed_at self = Some t /\ (clock_check w - t <= FRESH_WINDOW)%Z.
Proof.
  unfold is_stale. destruct (indexed_at self) as [t|]; [|discriminate].
  intros H. exists t. split; [reflexivity|]. apply Z.ltb_ge. exact H.
Qed.

Lemma fresh_not_stale (self : DocIndex) (t : Z) :
  indexed_at self = Some t -> (clock_check w - t <= FRESH_WINDOW)%Z ->
  is_stale w self = false.
Proof.
  intros Ht Hf. unfold is_stale. rewrite Ht. apply Z.ltb_ge. exact Hf.
Qed.

Lemma dict_nonempty_true {V} (d : dict V) : d <> [] -> dict_nonempty d = true.
Proof. destruct d; [congruence | reflexivity]. Qed.

(** [ensure_fresh] on an index that holds pages and is fresh. *)
Lemma ensure_fresh_noop (s : Sys) (t : Z) :
  pages (index s) <> [] ->
  indexed_at (index s) = Some t ->
  (clock_check w - t <= FRESH_WINDOW)%Z ->
  ensure_fresh s =
  (Returned (mkStatus (py "ok") (py "Index is fresh.") (Iso t)), s).
Proof.
  intros Hne Ht Hf. unfold Server.ensure_fresh.
  rewrite (dict_nonempty_true _ Hne), (fresh_not_stale _ _ Ht Hf).
  unfold stamp_of. rewrite Ht. reflexivity.
Qed.

(** The state that [reindex] leaves: the one it found, or the one of a
    crawl. *)
Lemma reindex_state (force : bool) (s : Sys) :
  (index (snd (reindex force s)) = index s
   /\ disk (snd (reindex force s)) = disk s)
  \/ exists pgs mems reqs st,
       crawl_docs = (Returned (pgs, mems), reqs)
       /\ reindex force s =
          (Returned st,
           mkSys (crawled_index pgs mems)
                 (_save_to_disk w (crawled_index pgs mems))
                 (fetched s ++ reqs)).
Proof.
  destruct (reindex_outcome force s)
    as [[_ H]|[_ [[e [reqs [_ H]]]|[pgs [mems [reqs [Hc H]]]]]]].
  - left. rewrite H. auto.
  - left. rewrite H. auto.
  - right. exists pgs, mems, reqs. eexists. split; [exact Hc | exact H].
Qed.

Lemma ensure_fresh_state (s : Sys) :
  (index (snd (ensure_fresh s)) = index s
   /\ disk (snd (ensure_fresh s)) = disk s)
  \/ exists pgs mems reqs st,
       crawl_docs = (Returned (pgs, mems), reqs)
       /\ ensure_fresh s =
          (Returned st,
           mkSys (crawled_index pgs mems)
                 (_save_to_disk w (crawled_index pgs mems))
                 (fetched s ++ reqs)).
Proof.
  destruct (ensure_fresh_outcome s) as [[_ H]|[_ H]]; rewrite H.
  - left. auto.
  - apply reindex_state.
Qed.

(** The three queries leave the state that [ensure_fresh] left. *)
Lemma search_state (q : str) (limit : Z) (s : Sys) :
  snd (search q limit s) = snd (ensure_fresh s).
Proof.
  unfold Server.search, bind, get_index, ret.
  destruct (ensure_fresh s) as [[st|e] s1]; reflexivity.
Qed.

Lemma get_member_state (a b c : str) (s : Sys) :
  snd (get_member a b c s) = snd (ensure_fresh s).
Proof.
  unfold Server.get_member, bind, get_index, ret.
  destruct (ensure_fresh s) as [[st|e] s1]; reflexivity.
Qed.

Lemma get_page_state (x : str) (s : Sys) :
  snd (get_page x s) = snd (ensure_fresh s).
Proof.
  unfold Server.get_page, bind, lift, get_index, ret.
  destruct (ensure_fresh s) as [[st|e] s1]; [|reflexivity].
  destruct (normalize_slug_or_url x) as [key|e]; [|reflexivity].
  cbn [snd]. destruct (dict_get key (pages (index s1))); reflexivity.
Qed.

Lemma ensure_fresh_keyed (s : Sys) :
  keyed_by_slug (pages (index s)) ->
  keyed_by_slug (pages (index (snd (ensure_fresh s)))).
Proof.
  intros Hk.
  destruct (ensure_fresh_state s) as [[Hi _]|[pgs [mems [reqs [st [_ H]]]]]].
  - rewrite Hi. exact Hk.
  - rewrite H. apply pages_by_slug_keyed.
Qed.

(** X3. Every operation keeps the page map keyed by slug: if each page of
    the index is stored under its own slug and no slug is a key twice,
    this is so again after [reindex], [ensure_fresh], [search],
    [get_page] and [get_member], whether they return or raise. *)
Theorem operations_keep_pages_keyed (s : Sys) :
  keyed_by_slug (pages (index s)) ->
  (forall force, keyed_by_slug (pages (index (snd (reindex force s)))))
  /\ keyed_by_slug (pages (index (snd (ensure_fresh s))))
  /\ (forall q limit,
         keyed_by_slug (pages (index (snd (search q limit s)))))
  /\ (forall x, keyed_by_slug (pages (index (snd (get_page x s)))))
  /\ (forall a b c,
         keyed_by_slug (pages (index (snd (get_member a b c s))))).
Proof.
  intros Hk. split; [|split; [|split; [|split]]].
  - intros force.
    destruct (reindex_state force s)
      as [[Hi _]|[pgs [mems [reqs [st [_ H]]]]]].
    + rewrite Hi. exact Hk.
    + rewrite H. apply pages_by_slug_keyed.
  - apply ensure_fresh_keyed. exact Hk.
  - intros q limit. rewrite search_state. apply ensure_fresh_keyed. exact Hk.
  - intros x. rewrite get_page_state. apply ensure_fresh_keyed. exact Hk.
  - intros a b c. rewrite get_member_state. apply ensure_fresh_keyed.
    exact Hk.
Qed.

(** X4. A forced reindex that returns leaves cache files from which the
    constructor builds the very index that is in memory: the same pages
    under the same keys, the same members, the same time stamp. *)
Theorem restart_after_reindex (s : Sys) (st : Status) (s' : Sys) :
  reindex true s = (Returned st, s') ->
  __init__ (disk s') = index s'.
Proof.
  intros H.
  destruct (reindex_outcome true s)
    as [[Hg _]|[_ [[e [reqs [_ H']]]|[pgs [mems [reqs [_ H']]]]]]].
  - rewrite reindex_true_crawls in Hg. discriminate Hg.
  - rewrite H' in H. discriminate H.
  - rewrite H' in H. inversion H; subst. cbn [disk index].
    unfold __init__, _load_from_disk, _save_to_disk.
    cbn [pages_file members_file meta_file pages members indexed_at].
    rewrite loaded_pages.
    change (fold_left (fun d p => dict_set (slug p) p d)
              (dict_values (pages_by_slug pgs)) [])
      with (pages_by_slug (dict_values (pages_by_slug pgs))).
    rewrite (pages_by_slug_values _ (pages_by_slug_keyed pgs)). reflexivity.
Qed.

(** X5. When the crawl raises, the refresh that started it raises the same
    exception before anything of the index is replaced: pages, members
    and time stamp are those of before the call, no cache file is
    written, and the requests made are those of the crawl. This is so
    for a forced [reindex] and, when the index is empty or stale, for
    [reindex], [ensure_fresh], [search], [get_page] and [get_member]. *)
Theorem failed_crawl_keeps_snapshot (s : Sys) (e : exn) (reqs : list str) :
  crawl_docs = (Raised e, reqs) ->
  let s' := mkSys (index s) (disk s) (fetched s ++ reqs) in
  reindex true s = (Raised e, s')
  /\ (dict_nonempty (pages (index s)) && negb (is_stale w (index s)) = false ->
      reindex false s = (Raised e, s')
      /\ ensure_fresh s = (Raised e, s')
      /\ (forall q limit, search q limit s = (Raised e, s'))
      /\ (forall x, get_page x s = (Raised e, s'))
      /\ (forall a b c, get_member a b c s = (Raised e, s'))).
Proof.
  intros Hc s'.
  assert (Hre : forall force,
             dict_nonempty (pages (index s)) && negb force
             && negb (is_stale w (index s)) = false ->
             reindex force s = (Raised e, s')).
  { intros force Hg.
    destruct (reindex_outcome force s)
      as [[Hg' _]|[_ [[e' [reqs' [Hc' H']]]|[pgs [mems [reqs' [Hc' _]]]]]]].
    - rewrite Hg in Hg'. discriminate Hg'.
    - rewrite Hc in Hc'. inversion Hc'; subst e' reqs'. exact H'.
    - rewrite Hc in Hc'. discriminate Hc'. }
  split; [apply Hre, reindex_true_crawls|].
  intros Hg.
  assert (Hen : ensure_fresh s = (Raised e, s')).
  { destruct (ensure_fresh_outcome s) as [[Hg' _]|[_ H']].
    - rewrite Hg in Hg'. discriminate Hg'.
    - rewrite H'. apply Hre, reindex_true_crawls. }
  split; [apply Hre; cbn [negb]; rewrite andb_true_r; exact Hg|].
  split; [exact Hen|].
  split; [|split].
  - intros q limit. unfold Server.search, bind. rewrite Hen. reflexivity.
  - intros x. unfold Server.get_page, bind. rewrite Hen. reflexivity.
  - intros a b c. unfold Server.get_member, bind. rewrite Hen. reflexivity.
Qed.

(** X6. A forced reindex crawls whatever the state of the index: the seed is
    requested first. When it returns, the time stamp of the index and of
    the status is the time of the crawl, the status counts the pages and
    members of the new index, and the three cache files hold the new
    index. *)
Theorem forced_reindex_recrawls (s : Sys) :
  (exists tl, fetched (snd (reindex true s)) = fetched s ++ ROOT_URL :: tl)
  /\ forall st s',
       reindex true s = (Returned st, s') ->
       indexed_at (index s') = Some (clock_stamp w)
       /\ st = mkStatus (py "ok")
                 (py "Indexed " ++ str_of_nat (length (pages (index s')))
                  ++ py " pages and "
                  ++ str_of_nat (length (members (index s')))
                  ++ py " API members.")
                 (Iso (clock_stamp w))
       /\ disk s' = mkDisk (Some (dict_values (pages (index s'))))
                           (Some (members (index s')))
                           (Some (clock_stamp w, ROOT_URL)).
Proof.
  destruct (crawl_seed_first bracketed_netloc_ok urljoin w) as [tl Htl].
  destruct (reindex_outcome true s)
    as [[Hg _]|[_ [[e [reqs [Hc H]]]|[pgs [mems [reqs [Hc H]]]]]]].
  - rewrite reindex_true_crawls in Hg. discriminate Hg.
  - rewrite Hc in Htl. cbn [snd] in Htl. subst reqs. split.
    + exists tl. rewrite H. reflexivity.
    + intros st s' H'. rewrite H in H'. discriminate H'.
  - rewrite Hc in Htl. cbn [snd] in Htl. subst reqs. split.
    + exists tl. rewrite H. reflexivity.
    + intros st s' H'. rewrite H in H'. inversion H'; subst.
      cbn [index disk pages members indexed_at]. auto.
Qed.
(** X7. When the seed does not answer, a forced reindex still returns
    normally: it reports 0 pages and 0 members, and it has replaced the
    index and the three cache files by empty ones, whatever they held.
    One request was made. The same happens on any call of [reindex] or
    [ensure_fresh] that finds the index empty or stale. *)
Theorem reindex_unreachable_seed (s : Sys) :
  http_get w ROOT_URL = None ->
  let wiped :=
    (Returned (mkStatus (py "ok")
                 (py "Indexed 0 pages and 0 API members.")
                 (Iso (clock_stamp w))),
     mkSys (mkDocIndex [] [] (Some (clock_stamp w)))
           (mkDisk (Some []) (Some []) (Some (clock_stamp w, ROOT_URL)))
           (fetched s ++ [ROOT_URL])) in
  reindex true s = wiped
  /\ (pages (index s) = [] \/ is_stale w (index s) = true ->
      reindex false s = wiped /\ ensure_fresh s = wiped).
Proof.
  intros Hg wiped.
  pose proof (crawl_unreachable bracketed_netloc_ok urljoin w Hg) as Hc.
  assert (Hre : forall force,
             dict_nonempty (pages (index s)) && negb force
             && negb (is_stale w (index s)) = false ->
             reindex force s = wiped).
  { intros force Hguard. unfold Server.reindex. rewrite Hguard, Hc.
    reflexivity. }
  split; [apply Hre; apply reindex_true_crawls|].
  intros Hor.
  assert (Hguard : dict_nonempty (pages (index s))
                   && negb (is_stale w (index s)) = false).
  { destruct Hor as [H|H]; rewrite H; [reflexivity | apply andb_false_r]. }
  split.
  - apply Hre. cbn [negb]. rewrite andb_true_r. exact Hguard.
  - unfold Server.ensure_fresh. rewrite Hguard. apply Hre.
    apply reindex_true_crawls.
Qed.

(** X8. On an index that holds pages and is fresh, the three queries only
    read: they answer from the index as it is, and the index, the cache
    files and the list of requests are the same after the call. *)
Theorem fresh_queries_read_only (s : Sys) (t : Z) :
  pages (index s) <> [] ->
  indexed_at (index s) = Some t ->
  (clock_check w - t <= FRESH_WINDOW)%Z ->
  (forall q limit,
      search q limit s = (Returned (search_index (index s) q limit), s))
  /\ (forall a b c,
         get_member a b c s = (Returned (resolve_member (index s) a b c), s))
  /\ (forall x, snd (get_page x s) = s).
Proof.
  intros Hne Ht Hf. pose proof (ensure_fresh_noop s t Hne Ht Hf) as He.
  split; [|split].
  - intros q limit. unfold Server.search, bind, get_index, ret.
    rewrite He. reflexivity.
  - intros a b c. unfold Server.get_member, bind, get_index, ret.
    rewrite He. reflexivity.
  - intros x. rewrite get_page_state, He. reflexivity.
Qed.

(** X9. The branches that answer without a time stamp are never taken: a
    status that [reindex] or [ensure_fresh] returns carries the time
    stamp of the index, never "unknown", and a page that [get_page]
    finds comes with a time stamp. *)
Theorem time_stamp_always_present :
  (forall force s st s',
      reindex force s = (Returned st, s') ->
      exists t, status_indexed_at st = Iso t
                /\ indexed_at (index s') = Some t)
  /\ (forall s st s',
         ensure_fresh s = (Returned st, s') ->
         exists t, status_indexed_at st = Iso t
                   /\ indexed_at (index s') = Some t)
  /\ (forall x s a b c d ts s',
         get_page x s = (Returned (PageFound a b c d ts), s') ->
         exists t, ts = Some t).
Proof.
  assert (Hre : forall force s st s',
             reindex force s = (Returned st, s') ->
             exists t, status_indexed_at st = Iso t
                       /\ indexed_at (index s') = Some t).
  { intros force s st s' H.
    destruct (reindex_outcome force s)
      as [[Hg H']|[_ [[e [reqs [_ H']]]|[pgs [mems [reqs [_ H']]]]]]];
      rewrite H' in H; inversion H; subst; clear H.
    - apply andb_prop in Hg. destruct Hg as [_ Hg].
      apply negb_true_iff in Hg.
      destruct (not_stale_stamp _ Hg) as [t [Ht _]].
      exists t. unfold stamp_of. cbn [status_indexed_at]. rewrite Ht. auto.
    - exists (clock_stamp w). auto. }
  assert (Hen : forall s st s',
             ensure_fresh s = (Returned st, s') ->
             exists t, status_indexed_at st = Iso t
                       /\ indexed_at (index s') = Some t).
  { intros s st s' H.
    destruct (ensure_fresh_outcome s) as [[Hg H']|[_ H']]; rewrite H' in H.
    - inversion H; subst; clear H.
      apply andb_prop in Hg. destruct Hg as [_ Hg].
      apply negb_true_iff in Hg.
      destruct (not_stale_stamp _ Hg) as [t [Ht _]].
      exists t. unfold stamp_of. cbn [status_indexed_at]. rewrite Ht. auto.
    - exact (Hre true s st s' H). }
  split; [exact Hre|]. split; [exact Hen|].
  intros x s a b c d ts s' H.
  unfold Server.get_page, bind, lift, get_index, ret in H.
  destruct (ensure_fresh s) as [[st|e] s1] eqn:He; [|discriminate H].
  destruct (Hen s st s1 He) as [t [_ Ht]].
  destruct (normalize_slug_or_url x) as [key|e]; [|discriminate H].
  destruct (dict_get key (pages (index s1))); inversion H; subst.
  exists t. exact Ht.
Qed.

(** X10. The page map that a reindex builds holds, under each slug, the last
    page of the crawl that has this slug: of two crawled pages with the
    same slug only the later one can be found, and the index never
    counts more pages than were crawled. *)
Theorem reindex_pages_last_wins (s : Sys) (st : Status) (s' : Sys) :
  reindex true s = (Returned st, s') ->
  exists pgs reqs,
    crawl_docs = (Returned (pgs, members (index s')), reqs)
    /\ (forall k p,
           dict_get k (pages (index s')) = Some p
           <-> exists before after,
                 pgs = before ++ p :: after /\ slug p = k
                 /\ forall p', In p' after -> slug p' <> k)
    /\ length (pages (index s')) <= length pgs.
Proof.
  intros H.
  destruct (reindex_outcome true s)
    as [[Hg _]|[_ [[e [reqs [_ H']]]|[pgs [mems [reqs [Hc H']]]]]]].
  - rewrite reindex_true_crawls in Hg. discriminate Hg.
  - rewrite H' in H. discriminate H.
  - rewrite H' in H. inversion H; subst. cbn [index pages members].
    exists pgs, reqs. split; [exact Hc|]. split.
    + intros k p. apply pages_by_slug_get.
    + apply pages_by_slug_length.
Qed.

Lemma app_grows {A} (l tl : list A) (x : A) : l ++ x :: tl <> l.
Proof.
  intros H. apply (f_equal (@length A)) in H. rewrite length_app in H.
  simpl in H. lia.
Qed.

(** X11. [ensure_fresh] and [reindex(force=False)] go to the network exactly
    when the index holds no page, was never stamped, or was stamped
    more than 24 hours before the clock: in these cases at least the
    seed is requested, and in all others no request is made. An index
    stamped exactly 24 hours ago still counts as fresh. *)
Theorem refresh_requests_iff (s : Sys) :
  let fresh :=
    pages (index s) <> []
    /\ exists t, indexed_at (index s) = Some t
                 /\ (clock_check w - t <= FRESH_WINDOW)%Z in
  (fetched (snd (ensure_fresh s)) = fetched s <-> fresh)
  /\ (fetched (snd (reindex false s)) = fetched s <-> fresh).
Proof.
  intros fresh.
  assert (Hguard : dict_nonempty (pages (index s))
                   && negb (is_stale w (index s)) = true <-> fresh).
  { unfold fresh. rewrite andb_true_iff, negb_true_iff. split.
    - intros [Hne Hst]. split.
      + destruct (pages (index s)); [discriminate Hne | discriminate].
      + apply not_stale_stamp. exact Hst.
    - intros [Hne [t [Ht Hf]]]. split.
      + apply dict_nonempty_true. exact Hne.
      + exact (fresh_not_stale _ t Ht Hf). }
  assert (Hcrawl : forall force,
             dict_nonempty (pages (index s)) && negb force
             && negb (is_stale w (index s)) = false ->
             fetched (snd (reindex force s)) <> fetched s).
  { intros force Hg.
    destruct (crawl_seed_first bracketed_netloc_ok urljoin w) as [tl Htl].
    unfold Server.reindex. rewrite Hg.
    destruct crawl_docs as [[[pgs mems]|e] reqs]; cbn [snd] in Htl;
      subst reqs; cbn [snd fetched]; apply app_grows. }
  split.
  - rewrite <- Hguard. split.
    + intros H.
      destruct (ensure_fresh_outcome s) as [[Hg _]|[Hg He]]; [exact Hg|].
      exfalso. rewrite He in H.
      exact (Hcrawl true (reindex_true_crawls s) H).
    + intros Hg. unfold Server.ensure_fresh. rewrite Hg. reflexivity.
  - rewrite <- Hguard. split.
    + intros H.
      destruct (dict_nonempty (pages (index s))
                && negb (is_stale w (index s))) eqn:Hg; [reflexivity|].
      exfalso. apply (Hcrawl false); [|exact H].
      cbn [negb]. rewrite andb_true_r. exact Hg.
    + intros Hg. unfold Server.reindex. cbn [negb].
      rewrite andb_true_r, Hg. reflexivity.
Qed.
End Refresh.

(* ===================================================================== *)
(** ** More properties of the queries *)
(* ===================================================================== *)

(** X15. The text that [extract_text] returns has at most [MAX_PAGE_CHARS]
    characters, does not start with whitespace and holds no empty
    line. *)
Theorem extract_text_shape (soup : Soup) :
  (Z.of_nat (length (extract_text soup)) <= MAX_PAGE_CHARS)%Z
  /\ lstrip (extract_text soup) = extract_text soup
  /\ ~ occurs_in (newline ++ newline) (extract_text soup).
Proof.
  unfold extract_text.
  set (ls := filter nonempty (map strip (splitlines (soup_main_text soup)))).
  pose proof (kept_lines (soup_main_text soup)) as Hls. fold ls in Hls.
  rewrite slice_to_firstn by (unfold MAX_PAGE_CHARS; lia).
  set (n := Z.to_nat MAX_PAGE_CHARS).
  split; [|split].
  - rewrite length_firstn. unfold n, MAX_PAGE_CHARS. lia.
  - destruct ls as [|x ls']; [destruct n; reflexivity|].
    inversion Hls as [|? ? Hx _]; subst.
    destruct (kept_line_head x Hx) as [c [r [-> [Hc _]]]].
    assert (Hj : exists t, join newline ((c :: r) :: ls') = c :: t).
    { destruct ls'; cbn [join app]; eauto. }
    destruct Hj as [t ->].
    assert (Hn : exists m, n = S m)
      by (exists (Nat.pred n); unfold n, MAX_PAGE_CHARS; lia).
    destruct Hn as [m ->]. cbn [firstn].
    unfold lstrip. cbn [dropwhile]. rewrite Hc. reflexivity.
  - intros [i [a [b [H _]]]].
    apply (join_no_empty_line ls Hls a (b ++ skipn n (join newline ls))).
    rewrite <- (firstn_skipn n (join newline ls)) at 1. rewrite H.
    rewrite <- !app_assoc. reflexivity.
Qed.

Lemma NoDup_map_filter {A B} (g : A -> B) (f : A -> bool) (l : list A) :
  NoDup (map g l) -> NoDup (map g (filter f l)).
Proof.
  induction l as [|x l IH]; cbn [map filter]; [constructor|].
  intros H. inversion H as [|? ? Hx Hl]; subst.
  destruct (f x); [|apply IH; exact Hl].
  cbn [map]. constructor; [|apply IH; exact Hl].
  intros Hin. apply Hx. apply in_map_iff in Hin.
  destruct Hin as [y [Hy Hin]]. apply filter_In in Hin.
  apply in_map_iff. exists y. tauto.
Qed.

Lemma NoDup_map_firstn {A B} (g : A -> B) (n : nat) (l : list A) :
  NoDup (map g l) -> NoDup (map g (firstn n l)).
Proof.
  intros H. rewrite <- (firstn_skipn n l), map_app in H.
  apply NoDup_app_remove_r in H. exact H.
Qed.

Lemma keyed_slugs (d : dict DocPage) :
  keyed_by_slug d -> NoDup (map slug (dict_values d)).
Proof.
  intros [Hwf Hk]. unfold dict_wf, dict_keys in Hwf.
  replace (map slug (dict_values d)) with (map fst d); [exact Hwf|].
  unfold dict_values. rewrite map_map. apply map_ext_in.
  rewrite Forall_forall in Hk. exact Hk.
Qed.

Lemma window_length (t : str) (i : nat) : length (window t i) <= 240.
Proof.
  unfold window. rewrite length_skipn, length_firstn. lia.
Qed.

Section Queries.
Unset Implicit Arguments.

Variable bracketed_netloc_ok : str -> bool.
Variable urljoin : str -> str -> outcome str.
Variable w : World.

Local Abbreviation ensure_fresh := (ensure_fresh bracketed_netloc_ok urljoin w).
Local Abbreviation search := (search bracketed_netloc_ok urljoin w).
Local Abbreviation get_page := (get_page bracketed_netloc_ok urljoin w).
Local Abbreviation get_member := (get_member bracketed_netloc_ok urljoin w).
Local Abbreviation normalize_slug_or_url :=
  (normalize_slug_or_url bracketed_netloc_ok).
Local Abbreviation page_to_slug := (page_to_slug bracketed_netloc_ok).
Local Abbreviation urlparse := (Urllib.urlparse bracketed_netloc_ok).

(** X16. A query of whitespace only, or none at all, is answered without a
    look at the pages: [search] gives back the query as it came and no
    hit. The index was refreshed all the same. *)
Theorem search_blank_query (query0 : str) (limit : Z) (s : Sys)
        (r : SearchResult) (s' : Sys) :
  blank query0 ->
  search query0 limit s = (Returned r, s') ->
  r = mkSearchResult query0 [] /\ s' = snd (ensure_fresh s).
Proof.
  intros Hb H. split.
  - apply search_returns in H. subst r. unfold search_index.
    rewrite (strip_blank _ Hb). reflexivity.
  - pose proof (search_state bracketed_netloc_ok urljoin w query0 limit s)
      as Hs.
    rewrite H in Hs. exact Hs.
Qed.

(** X17. [search] returns as many hits as it may: the number of hits is the
    smaller of [max(1, min(limit, 20))] and the number of pages that
    match the query. So a limit of 0 or below still gives one hit when
    a page matches. *)
Theorem search_count (query0 : str) (limit : Z) (s : Sys)
        (r : SearchResult) (s' : Sys) :
  search query0 limit s = (Returned r, s') ->
  lower (strip query0) <> [] ->
  let found := matching (lower (strip query0)) (index s') in
  length (sr_results r)
  = Nat.min (Z.to_nat (clamp_limit limit)) (length found)
  /\ (found <> [] -> sr_results r <> []).
Proof.
  intros H Hq found. apply search_returns in H. subst r.
  rewrite search_index_results by exact Hq.
  assert (Hlen : length (map (make_hit (lower (strip query0)))
                    (firstn (Z.to_nat (clamp_limit limit))
                       (sort_by search_key tuple_leb
                          (score_pages (lower (strip query0))
                             (dict_values (pages (index s')))))))
                 = Nat.min (Z.to_nat (clamp_limit limit)) (length found)).
  { rewrite length_map, length_firstn.
    rewrite (Permutation_length (sort_by_perm search_key tuple_leb _)).
    rewrite score_pages_eq, length_map. reflexivity. }
  split; [exact Hlen|].
  intros Hne E. rewrite E in Hlen. cbn [length] in Hlen.
  pose proof (clamp_limit_range limit).
  destruct found; [congruence|]. cbn [length] in Hlen. lia.
Qed.

Lemma make_snippet_shape (q : str) (page : DocPage) :
  length (make_snippet q page) <= 240
  /\ collapse_ws (make_snippet q page) = make_snippet q page.
Proof.
  destruct (make_snippet_spec q page) as [[i [_ ->]]|[_ ->]].
  - split; [|apply collapse_ws_idem].
    pose proof (collapse_ws_length (window (text page) i)).
    pose proof (window_length (text page) i). lia.
  - split; [|apply collapse_ws_idem].
    pose proof (collapse_ws_length (firstn 240 (text page))) as H.
    rewrite length_firstn in H. lia.
Qed.

(** X18. The snippet of every hit has at most 240 characters and is in
    collapsed form: collapsing its whitespace again changes nothing, so
    it neither starts nor ends with whitespace and its words are
    separated by single spaces. *)
Theorem search_snippet_shape (query0 : str) (limit : Z) (s : Sys)
        (r : SearchResult) (s' : Sys) (h : SearchHit) :
  search query0 limit s = (Returned r, s') ->
  In h (sr_results r) ->
  length (hit_snippet h) <= 240
  /\ collapse_ws (hit_snippet h) = hit_snippet h.
Proof.
  intros H Hh. apply search_returns in H. subst r.
  destruct (lower (strip query0)) as [|c q'] eqn:E.
  - rewrite search_index_empty in Hh by exact E. destruct Hh.
  - rewrite search_index_results in Hh by (rewrite E; discriminate).
    apply in_map_iff in Hh. destruct Hh as [[k page] [<- _]].
    cbn [make_hit hit_snippet]. apply make_snippet_shape.
Qed.

(** X19. On an index whose pages are stored under their slugs, no page is
    returned twice: the slugs of the hits are pairwise distinct. *)
Theorem search_hits_distinct (query0 : str) (limit : Z) (s : Sys)
        (r : SearchResult) (s' : Sys) :
  keyed_by_slug (pages (index s)) ->
  search query0 limit s = (Returned r, s') ->
  NoDup (map hit_slug (sr_results r)).
Proof.
  intros Hk H.
  assert (Hk' : keyed_by_slug (pages (index s'))).
  { pose proof (search_state bracketed_netloc_ok urljoin w query0 limit s)
      as Hs.
    rewrite H in Hs. cbn [snd] in Hs. rewrite Hs.
    apply ensure_fresh_keyed. exact Hk. }
  apply search_returns in H. subst r.
  destruct (lower (strip query0)) as [|c q'] eqn:E.
  - rewrite search_index_empty by exact E. constructor.
  - rewrite search_index_results by (rewrite E; discriminate).
    rewrite E. rewrite map_map.
    assert (Hext : forall l : list (Z * DocPage),
               map (fun x => hit_slug (make_hit (c :: q') x)) l
               = map (fun x => slug (snd x)) l).
    { intros l. apply map_ext. intros [k p]. reflexivity. }
    rewrite Hext.
    apply NoDup_map_firstn.
    apply (Permutation_NoDup
             (Permutation_map _
                (Permutation_sym (sort_by_perm search_key tuple_leb _)))).
    rewrite score_pages_eq, map_map. cbn [snd].
    apply NoDup_map_filter. apply keyed_slugs. exact Hk'.
Qed.

Lemma startswith_slash_h (sl k p : str) :
  slashes sl -> startswith k ("h"%char :: p) = false ->
  startswith (sl ++ k) ("h"%char :: p) = false.
Proof.
  unfold slashes. destruct sl as [|c sl]; [auto|].
  cbn [forallb app startswith]. intros H _. apply andb_prop in H.
  destruct H as [Hc _]. apply Ascii.eqb_eq in Hc. subst c. reflexivity.
Qed.

Lemma lstrip_slashes (sl k : str) :
  slashes sl -> startswith k (py "/") = false ->
  lstrip_chars (py "/") (sl ++ k) = k.
Proof.
  unfold slashes, lstrip_chars. intros Hsl Hk.
  rewrite dropwhile_app_all.
  - destruct k as [|c k]; [reflexivity|]. cbn [dropwhile].
    change (py "/") with ["/"%char] in *. cbn [startswith] in Hk.
    replace (startswith k []) with true in Hk by (destruct k; reflexivity).
    rewrite andb_true_r in Hk. cbn [char_in existsb].
    rewrite Ascii.eqb_sym, Hk. reflexivity.
  - apply (forallb_weaken (fun c => Ascii.eqb c "/")); [|exact Hsl].
    intros c Hc. change (py "/") with ["/"%char]. cbn [char_in existsb].
    rewrite Hc. reflexivity.
Qed.

(** The key that [get_page] computes from a slug: whitespace around it
    and slashes before it are dropped. *)
Lemma normalize_plain_slug (a sl k b : str) :
  blank a -> slashes sl -> plain_slug k -> blank b ->
  normalize_slug_or_url (a ++ sl ++ k ++ b) = Returned k.
Proof.
  intros Ha Hsl [Hk [Hslash [Hhttp Hhttps]]] Hb.
  unfold Server.normalize_slug_or_url.
  replace (a ++ sl ++ k ++ b) with (a ++ (sl ++ k) ++ b)
    by (rewrite <- app_assoc; reflexivity).
  rewrite (strip_pad a (sl ++ k) b Ha Hb
             (strip_app sl k (strip_slashes sl Hsl) Hk)).
  assert (H1 : startswith (sl ++ k) (py "http://") = false)
    by exact (startswith_slash_h sl k _ Hsl Hhttp).
  assert (H2 : startswith (sl ++ k) (py "https://") = false)
    by exact (startswith_slash_h sl k _ Hsl Hhttps).
  rewrite H1, H2. cbn [orb]. rewrite (lstrip_slashes sl k Hsl Hslash). reflexivity.
Qed.

(** X20. A page is found by its key: when the refreshed index holds a page
    under a key that has no whitespace at its ends, no slash in front
    and is not the start of a URL, [get_page] returns the record of
    that page for the key, also when the key comes with whitespace
    around it and slashes before it. On an index whose pages are stored
    under their slugs, the slug of the record is the key. *)
Theorem get_page_by_slug (a sl k b : str) (s : Sys) (st : Status)
        (s1 : Sys) (p : DocPage) :
  blank a -> slashes sl -> plain_slug k -> blank b ->
  ensure_fresh s = (Returned st, s1) ->
  dict_get k (pages (index s1)) = Some p ->
  get_page (a ++ sl ++ k ++ b) s =
  (Returned (PageFound (title p) (slug p) (url p) (text p)
                       (indexed_at (index s1))), s1)
  /\ (keyed_by_slug (pages (index s)) -> slug p = k).
Proof.
  intros Ha Hsl Hk Hb He Hget. split.
  - rewrite (get_page_after_refresh bracketed_netloc_ok urljoin w _ s st s1
               He).
    rewrite (normalize_plain_slug a sl k b Ha Hsl Hk Hb), Hget.
    reflexivity.
  - intros Hkeyed.
    pose proof (ensure_fresh_keyed bracketed_netloc_ok urljoin w s Hkeyed)
      as [_ Hall].
    rewrite He in Hall. cbn [snd] in Hall.
    rewrite Forall_forall in Hall.
    symmetry. apply (Hall (k, p)). apply dict_get_In. exact Hget.
Qed.

(** X24. Among the members with the highest score, [get_member] returns the
    one that comes first in the member map: every member before the
    best match scores strictly less, and no member after it scores
    more. The fields of the best match are read from its record. *)
Theorem get_member_tie_break (service class_name member : str) (s : Sys)
        (s' : Sys) (q : str * str * str) (best : BestMatch)
        (alts : list Alternative) :
  get_member service class_name member s =
  (Returned (MemberFound q best alts), s') ->
  let target :=
    lower (service ++ py "." ++ class_name ++ py "." ++ member) in
  let score := member_score target class_name member in
  exists before entry after,
    members (index s') = before ++ (bm_id best, entry) :: after
    /\ (0 < score (bm_id best))%Z
    /\ (forall e, In e before -> (score (fst e) < score (bm_id best))%Z)
    /\ (forall e, In e after -> (score (fst e) <= score (bm_id best))%Z)
    /\ best = mkBest (bm_id best)
                     (get_or entry (py "title") [])
                     (get_or entry (py "url") [])
                     (get_or entry (py "signature") [])
                     (get_or entry (py "description") []).
Proof.
  intros H target score. apply get_member_returns in H.
  unfold resolve_member in H. fold target in H.
  set (key := fun x : Z * str * dict str => (- fst (fst x))%Z) in H.
  destruct (sort_by key Z.leb
              (member_candidates target class_name member
                 (members (index s')))) as [|[[k bid] bentry] rest] eqn:Es;
    [discriminate H|].
  inversion H; subst q best alts; clear H. cbn [bm_id].
  destruct (sort_by_head _ _ key Z.leb Z_leb_total Z_leb_trans _ _ _ Es)
    as [l1 [l2 [Hsplit [Hl1 Hl2]]]].
  rewrite member_candidates_eq in Hsplit. fold score in Hsplit.
  apply map_eq_app in Hsplit.
  destruct Hsplit as [f1 [f2' [Hf [Hm1 Hm2]]]].
  destruct f2' as [|e f2]; [discriminate Hm2|].
  cbn [map] in Hm2. inversion Hm2 as [[Hk Hid Hentry Hm2']]. clear Hm2.
  destruct (filter_split _ _ _ _ _ Hf) as [m1 [m2 [Hm [Hfm1 [Hfm2 Hfe]]]]].
  destruct e as [eid eentry]. cbn [fst snd] in *. subst eid eentry.
  assert (Hpos : (0 < score bid)%Z).
  { apply negb_true_iff, Z.eqb_neq in Hfe.
    pose proof (member_score_nonneg target class_name member bid).
    fold score in H. lia. }
  exists m1, bentry, m2. split; [exact Hm|]. split; [exact Hpos|].
  split; [|split; [|reflexivity]].
  - intros e He.
    destruct (negb (score (fst e) =? 0)%Z) eqn:Ee.
    + assert (Hin : In (score (fst e), fst e, snd e) l1).
      { rewrite <- Hm1. apply in_map_iff. exists e. split; [reflexivity|].
        rewrite <- Hfm1. apply filter_In. auto. }
      pose proof (Hl1 _ Hin) as Hlt. unfold key in Hlt. cbn [fst] in Hlt.
      apply Z.leb_gt in Hlt. lia.
    + apply negb_false_iff, Z.eqb_eq in Ee. lia.
  - intros e He.
    destruct (negb (score (fst e) =? 0)%Z) eqn:Ee.
    + assert (Hin : In (score (fst e), fst e, snd e) l2).
      { rewrite <- Hm2'. apply in_map_iff. exists e. split; [reflexivity|].
        rewrite <- Hfm2. apply filter_In. auto. }
      pose proof (Hl2 _ Hin) as Hle. unfold key in Hle. cbn [fst] in Hle.
      apply Z.leb_le in Hle. lia.
    + apply negb_false_iff, Z.eqb_eq in Ee. lia.
Qed.

(** X23. The slug of a URL is the end of its path: it holds no marker
    "/krpc/", and it is the whole path when the path holds no marker,
    and otherwise what follows a marker in the path. *)
Theorem page_to_slug_after_marker (u sl : str) :
  page_to_slug u = Returned sl ->
  exists parsed,
    urlparse u = Returned parsed
    /\ ~ occurs_in marker sl
    /\ ((~ occurs_in marker (Urllib.path parsed)
         /\ sl = Urllib.path parsed)
        \/ exists a, Urllib.path parsed = a ++ marker ++ sl).
Proof.
  unfold Server.page_to_slug, Server.urlparse, obind.
  destruct (urlparse u) as [parsed|e]; [|discriminate].
  intros H. inversion H as [Hsl]. exists parsed. split; [reflexivity|].
  unfold after_krpc.
  assert (Hm : marker <> []) by discriminate.
  exact (last_piece marker (Urllib.path parsed) Hm).
Qed.
End Queries.

(* ===================================================================== *)
(** ** The URLs of the documentation site *)
(* ===================================================================== *)

Lemma scheme_char_path (c : ascii) :
  Urllib.scheme_char c = true -> path_char c = true.
Proof. ascii_cases c; vm_compute; intros H; try discriminate H; auto. Qed.

Lemma netloc_char_path (c : ascii) :
  netloc_char c = true -> path_char c = true.
Proof. ascii_cases c; vm_compute; intros H; try discriminate H; auto. Qed.

(** [urlunsplit] writes the characters of the parts, colons and
    slashes. *)
Lemma urlunsplit_chars (s n p : str) :
  forallb path_char s = true ->
  forallb path_char n = true ->
  forallb path_char p = true ->
  forallb path_char (Urllib.urlunsplit (Urllib.mkSplit s n p [] [])) = true.
Proof.
  intros Hs Hn Hp. unfold Urllib.urlunsplit.
  cbn [Urllib.s_scheme Urllib.s_netloc Urllib.s_path Urllib.s_query
       Urllib.s_fragment nonempty].
  cbv zeta.
  assert (H1 : forallb path_char
                 (if nonempty p && negb (str_eqb (slice_to p 1) (py "/"))
                  then py "/" ++ p else p) = true).
  { destruct (nonempty p && negb (str_eqb (slice_to p 1) (py "/")));
      [|exact Hp].
    rewrite forallb_app, Hp. reflexivity. }
  assert (H2 : forall b : bool,
             forallb path_char
               (if b
                then py "//" ++ n
                     ++ (if nonempty p
                            && negb (str_eqb (slice_to p 1) (py "/"))
                         then py "/" ++ p else p)
                else p) = true).
  { intros [|]; [|exact Hp]. rewrite !forallb_app, Hn, H1. reflexivity. }
  destruct (nonempty s); [|apply H2].
  rewrite !forallb_app, Hs, H2. reflexivity.
Qed.

Lemma endswith_last (x p : str) (c d : ascii) :
  endswith (x ++ [c]) (p ++ [d]) = true -> c = d.
Proof.
  unfold endswith. rewrite !rev_app_distr. cbn [rev app startswith].
  intros H. apply andb_prop in H. destruct H as [H _].
  apply Ascii.eqb_eq in H. congruence.
Qed.

Lemma in_scope_shape (u : str) :
  in_scope u ->
  exists t, u = py "https://krpc.github.io" ++ py "/krpc/python" ++ t.
Proof.
  intros [Hs _]. apply startswith_app in Hs. destruct Hs as [t ->].
  exists t. reflexivity.
Qed.

(** A URL of the site has no whitespace at its ends. *)
Lemma in_scope_strip (u : str) : in_scope u -> strip u = u.
Proof.
  intros Hin. destruct (in_scope_shape u Hin) as [t Hu].
  destruct Hin as [_ He]. apply strip_fixed. split.
  - rewrite Hu. reflexivity.
  - unfold endswith in He. apply startswith_app in He.
    destruct He as [b Hb].
    assert (Hl : lstrip (rev u) = rev u) by (rewrite Hb; reflexivity).
    rewrite rstrip_rev, Hl. apply rev_involutive.
Qed.

Section SiteUrls.
Unset Implicit Arguments.

Variable bracketed_netloc_ok : str -> bool.

Local Abbreviation urlsplit := (Urllib.urlsplit bracketed_netloc_ok).
Local Abbreviation urlparse := (Urllib.urlparse bracketed_netloc_ok).
Local Abbreviation normalize_url := (normalize_url bracketed_netloc_ok).
Local Abbreviation normalize_slug_or_url :=
  (normalize_slug_or_url bracketed_netloc_ok).
Local Abbreviation allowed := (allowed bracketed_netloc_ok).
Local Abbreviation page_to_slug := (page_to_slug bracketed_netloc_ok).

(** What [normalize_url] returns holds no [?], no [#], no tab and no
    line break. *)
Lemma normalize_chars (x r : str) :
  normalize_url x = Returned r -> forallb path_char r = true.
Proof.
  unfold Server.normalize_url, Server.urlparse, obind, Urllib.urlparse.
  destruct (urlsplit x) as [sr|e] eqn:Esr; [|discriminate].
  destruct (urlsplit_facts bracketed_netloc_ok x sr Esr)
    as [Hs [Hn [Hp _]]].
  fold (params_split (Urllib.s_scheme sr) (Urllib.s_path sr)).
  destruct (params_split (Urllib.s_scheme sr) (Urllib.s_path sr))
    as [pa pr] eqn:Eps.
  intros H. inversion H; subst r; clear H.
  unfold Urllib.geturl, Urllib.urlunparse, Urllib._replace_query_fragment.
  cbn [Urllib.scheme Urllib.netloc Urllib.path Urllib.params
       Urllib.query Urllib.fragment].
  change (if nonempty pr then pa ++ py ";" ++ pr else pa)
    with (with_params pa pr).
  apply urlunsplit_chars.
  - destruct Hs as [->|[_ [Hall _]]]; [reflexivity|].
    exact (forallb_weaken _ _ _ scheme_char_path Hall).
  - exact (forallb_weaken _ _ _ netloc_char_path Hn).
  - destruct (@params_rejoin _ _ pa pr Eps) as [_ [Hw|Hw]].
    + rewrite Hw. exact Hp.
    + rewrite Hw, forallb_app in Hp. apply andb_prop in Hp. tauto.
Qed.

(** A URL of the site without query, fragment, tab or line break is
    its own normal form. *)
Lemma site_url_fixed (u : str) :
  in_scope u -> forallb path_char u = true ->
  normalize_url u = Returned u.
Proof.
  intros Hin Hchars. destruct (in_scope_shape u Hin) as [t Hu].
  set (pth := py "/krpc/python" ++ t) in *.
  assert (Hpth : forallb path_char pth = true).
  { rewrite Hu, forallb_app in Hchars. apply andb_prop in Hchars. tauto. }
  assert (Hroot : rooted pth) by (right; eexists; reflexivity).
  assert (Hs : scheme_ok (py "https")).
  { right. split; [exists "h"%char, (py "ttps"); split; reflexivity|].
    split; reflexivity. }
  assert (Hsplit : urlsplit u =
                   Returned (Urllib.mkSplit (py "https") (py "krpc.github.io")
                                            pth [] [])).
  { rewrite Hu.
    apply (urlsplit_written bracketed_netloc_ok (py "https")
             (py "krpc.github.io") pth Hs); try assumption; reflexivity. }
  unfold Server.normalize_url, Server.urlparse, obind, Urllib.urlparse.
  rewrite Hsplit.
  cbn [Urllib.s_scheme Urllib.s_netloc Urllib.s_path Urllib.s_query
       Urllib.s_fragment].
  fold (params_split (py "https") pth).
  destruct (params_split (py "https") pth) as [pa pr] eqn:Eps.
  unfold Urllib.geturl, Urllib.urlunparse, Urllib._replace_query_fragment.
  cbn [Urllib.scheme Urllib.netloc Urllib.path Urllib.params
       Urllib.query Urllib.fragment].
  change (if nonempty pr then pa ++ py ";" ++ pr else pa)
    with (with_params pa pr).
  destruct (@params_rejoin _ _ pa pr Eps) as [_ [Hw|Hw]].
  - rewrite Hw, urlunsplit_authority by (assumption || discriminate).
    rewrite Hu. reflexivity.
  - exfalso. destruct Hin as [_ He].
    rewrite Hu, Hw in He.
    change (py ".html") with (py ".htm" ++ ["l"%char]) in He.
    change (py ";") with [";"%char] in He.
    rewrite !app_assoc in He. apply endswith_last in He. discriminate He.
Qed.

(** X22. Every URL of the documentation site that holds no [?], no [#], no
    tab and no line break is in normal form and within the crawl scope:
    [normalize_url] returns it unchanged and [allowed] accepts it. *)
Theorem site_url_is_normal_form (u : str) :
  in_scope u -> forallb path_char u = true ->
  normalize_url u = Returned u /\ allowed u = Returned true.
Proof.
  intros Hin Hchars. pose proof (site_url_fixed u Hin Hchars) as Hn.
  split; [exact Hn|]. unfold Server.allowed, obind. rewrite Hn.
  destruct Hin as [Hs He]. rewrite Hs, He. reflexivity.
Qed.

(** The key that [get_page] computes from the URL of a page of the site
    is the slug that the crawler computes for it. *)
Lemma site_url_key (u sl : str) :
  in_scope u -> forallb path_char u = true ->
  page_to_slug u = Returned sl ->
  normalize_slug_or_url u = Returned sl.
Proof.
  intros Hin Hchars Hsl. unfold Server.normalize_slug_or_url.
  rewrite (in_scope_strip u Hin).
  destruct (in_scope_shape u Hin) as [t Hu].
  replace (startswith u (py "https://")) with true
    by (rewrite Hu; reflexivity).
  rewrite orb_true_r. unfold obind at 1.
  rewrite (site_url_fixed u Hin Hchars). exact Hsl.
Qed.
End SiteUrls.

(* ===================================================================== *)
(** ** What a crawl stores, and how it is found again *)
(* ===================================================================== *)

Section CrawledSite.
Unset Implicit Arguments.

Variable bracketed_netloc_ok : str -> bool.
Variable urljoin : str -> str -> outcome str.
Variable w : World.

Local Abbreviation normalize_url := (normalize_url bracketed_netloc_ok).
Local Abbreviation normalize_slug_or_url :=
  (normalize_slug_or_url bracketed_netloc_ok).
Local Abbreviation page_to_slug := (page_to_slug bracketed_netloc_ok).
Local Abbreviation crawl_docs := (crawl_docs bracketed_netloc_ok urljoin w).
Local Abbreviation reindex := (reindex bracketed_netloc_ok urljoin w).
Local Abbreviation ensure_fresh := (ensure_fresh bracketed_netloc_ok urljoin w).
Local Abbreviation get_page := (get_page bracketed_netloc_ok urljoin w).

(** A page of a crawl has a URL of the site, in normal form, and the
    key that [get_page] computes from this URL is the slug of the
    page. *)
Lemma crawled_page_site (pgs : list DocPage) (mems : dict (dict str))
      (reqs : list str) (p : DocPage) :
  crawl_docs = (Returned (pgs, mems), reqs) -> In p pgs ->
  In (url p) reqs
  /\ in_scope (url p)
  /\ normalize_url (url p) = Returned (url p)
  /\ normalize_slug_or_url (url p) = Returned (slug p).
Proof.
  intros H Hp.
  destruct (crawl_pages_from bracketed_netloc_ok urljoin w _ _ _ H)
    as [Hmap [Hall [_ [_ [Hnorm _]]]]].
  assert (Hin : In (url p) reqs).
  { assert (Hu : In (url p) (map url pgs)) by (apply in_map; exact Hp).
    rewrite Hmap in Hu. apply filter_In in Hu. tauto. }
  assert (Hscope : in_scope (url p)).
  { pose proof (crawl_requests_scope bracketed_netloc_ok urljoin w) as Hs.
    rewrite H in Hs. cbn [snd] in Hs. rewrite Forall_forall in Hs.
    apply Hs. exact Hin. }
  assert (Hchars : forallb path_char (url p) = true).
  { rewrite Forall_forall in Hnorm. destruct (Hnorm _ Hin) as [x Hx].
    exact (normalize_chars bracketed_netloc_ok x (url p) Hx). }
  rewrite Forall_forall in Hall.
  destruct (Hall p Hp) as [soup [_ [Hsl _]]].
  split; [exact Hin|]. split; [exact Hscope|]. split.
  - apply site_url_fixed; assumption.
  - apply site_url_key; assumption.
Qed.

Lemma pages_by_slug_In (pgs : list DocPage) (p : DocPage) :
  In p (dict_values (pages_by_slug pgs)) ->
  In p pgs /\ dict_get (slug p) (pages_by_slug pgs) = Some p.
Proof.
  intros Hin. unfold dict_values in Hin. apply in_map_iff in Hin.
  destruct Hin as [[k p'] [Hp Hin]]. cbn [snd] in Hp. subst p'.
  destruct (pages_by_slug_keyed pgs) as [Hwf Hk].
  rewrite Forall_forall in Hk. pose proof (Hk _ Hin) as Hkey.
  cbn [fst snd] in Hkey. subst k.
  pose proof (In_dict_get _ _ _ Hwf Hin) as Hget.
  split; [|exact Hget].
  apply pages_by_slug_get in Hget. destruct Hget as [b [a [-> _]]].
  apply in_or_app. right. left. reflexivity.
Qed.

(** X21. Every page that a forced reindex stored is found again by its URL:
    as long as the index is fresh, [get_page] on the URL of a stored
    page returns the record of that very page, without a request. *)
Theorem get_page_by_crawled_url (s : Sys) (st : Status) (s1 : Sys)
        (p : DocPage) :
  reindex true s = (Returned st, s1) ->
  (clock_check w - clock_stamp w <= FRESH_WINDOW)%Z ->
  In p (dict_values (pages (index s1))) ->
  get_page (url p) s1 =
  (Returned (PageFound (title p) (slug p) (url p) (text p)
                       (Some (clock_stamp w))), s1).
Proof.
  intros H Hfresh Hp.
  destruct (reindex_outcome bracketed_netloc_ok urljoin w true s)
    as [[Hg _]|[_ [[e [reqs [_ H']]]|[pgs [mems [reqs [Hc H']]]]]]].
  - rewrite reindex_true_crawls in Hg. discriminate Hg.
  - rewrite H' in H. discriminate H.
  - rewrite H' in H. inversion H; subst st s1; clear H H'.
    cbn [index pages] in Hp.
    destruct (pages_by_slug_In pgs p Hp) as [Hin Hget].
    destruct (crawled_page_site pgs mems reqs p Hc Hin)
      as [_ [_ [_ Hkey]]].
    set (s1 := mkSys (mkDocIndex (pages_by_slug pgs) mems
                                 (Some (clock_stamp w)))
                     (_save_to_disk w
                        (mkDocIndex (pages_by_slug pgs) mems
                                    (Some (clock_stamp w))))
                     (fetched s ++ reqs)).
    assert (He : ensure_fresh s1 =
                 (Returned (mkStatus (py "ok") (py "Index is fresh.")
                                     (Iso (clock_stamp w))), s1)).
    { apply ensure_fresh_noop; [|reflexivity | exact Hfresh].
      cbn [s1 index pages]. intros E. rewrite E in Hget.
      discriminate Hget. }
    rewrite (get_page_after_refresh bracketed_netloc_ok urljoin w _ _ _ _
               He).
    rewrite Hkey. cbn [s1 index pages indexed_at]. rewrite Hget.
    reflexivity.
Qed.

Lemma crawled_element_page (pgs : list DocPage) (e : DocPage * DtTag) :
  In e (crawled_elements w pgs) -> In (fst e) pgs.
Proof.
  unfold crawled_elements. intros H. apply in_flat_map in H.
  destruct H as [p [Hp He]]. unfold page_elements in He.
  destruct (http_get w (url p)) as [soup|]; [|destruct He].
  apply in_map_iff in He. destruct He as [dt [<- _]]. exact Hp.
Qed.

(** X14. Everything that a crawl returns points into the documentation
    site. The URL of every page starts with the allowed prefix and ends
    with ".html". Every member record is stored under its id, which is
    not empty and has no whitespace at its ends, and carries this id,
    the title of a returned page, and as its URL the URL of that page,
    a [#] and the id. *)
Theorem crawl_results_in_scope (pgs : list DocPage)
        (mems : dict (dict str)) (reqs : list str) :
  crawl_docs = (Returned (pgs, mems), reqs) ->
  Forall (fun p => in_scope (url p)) pgs
  /\ forall mid entry,
       In (mid, entry) mems ->
       mid <> [] /\ strip mid = mid
       /\ exists p,
            In p pgs
            /\ dict_get (py "id") entry = Some mid
            /\ dict_get (py "title") entry = Some (title p)
            /\ dict_get (py "url") entry = Some (url p ++ py "#" ++ mid).
Proof.
  intros H. split.
  - apply Forall_forall. intros p Hp.
    exact (proj1 (proj2 (crawled_page_site pgs mems reqs p H Hp))).
  - intros mid entry Hin.
    destruct (crawl_pages_from bracketed_netloc_ok urljoin w _ _ _ H)
      as [_ [_ [_ [_ [_ Hmem]]]]].
    assert (Hwf : dict_wf mems).
    { rewrite Hmem. apply fold_put_wf. constructor. }
    pose proof (In_dict_get _ _ _ Hwf Hin) as Hget.
    rewrite Hmem in Hget. apply fold_put_last in Hget.
    destruct Hget as [before [e [after [Hsplit [Hid [Hne [_ Hentry]]]]]]].
    split; [exact Hne|]. split.
    + rewrite <- Hid. unfold element_id. apply strip_strip.
    + exists (fst e). split.
      * apply crawled_element_page. rewrite Hsplit.
        apply in_or_app. right. left. reflexivity.
      * rewrite Hentry. unfold element_entry, member_entry.
        rewrite Hid. auto.
Qed.
End CrawledSite.

(* ===================================================================== *)
(** ** How a crawl ends *)
(* ===================================================================== *)

Section CrawlEnds.
Unset Implicit Arguments.

Variable bracketed_netloc_ok : str -> bool.
Variable urljoin : str -> str -> outcome str.
Variable w : World.

Local Abbreviation crawl_docs := (crawl_docs bracketed_netloc_ok urljoin w).
Local Abbreviation crawl_loop := (crawl_loop bracketed_netloc_ok urljoin w).
Local Abbreviation crawl_body := (crawl_body bracketed_netloc_ok urljoin w).
Local Abbreviation runs := (crawl_runs bracketed_netloc_ok urljoin w).
Local Abbreviation discover_links :=
  (discover_links bracketed_netloc_ok urljoin).
Local Abbreviation link := (link_outcome bracketed_netloc_ok urljoin).
Local Abbreviation bad := (bad_link bracketed_netloc_ok urljoin w).
Local Abbreviation links_ok := (links_inv bracketed_netloc_ok urljoin w).
Local Abbreviation normalize_url := (normalize_url bracketed_netloc_ok).
Local Abbreviation page_to_slug := (page_to_slug bracketed_netloc_ok).
Local Abbreviation allowed := (allowed bracketed_netloc_ok).
Local Abbreviation scope_inv_holds := (scope_inv bracketed_netloc_ok).
Local Abbreviation crawl_inv := (crawl_inv bracketed_netloc_ok w).









End CrawlEnds.

(* ===================================================================== *)
(** ** The snippet on text beyond U+00FF *)
(* ===================================================================== *)

Lemma wide_lower (s : str) : Wide.lower (Wide.wide s) = Wide.wide (lower s).
Proof.
  induction s as [|c s IH]; [reflexivity|].
  unfold Wide.lower, Wide.wide in *. simpl. rewrite IH. reflexivity.
Qed.

Lemma wide_startswith (s p : str) :
  Wide.startswith (Wide.wide s) (Wide.wide p) = startswith s p.
Proof.
  revert s; induction p as [|x p IH]; intros [|y s]; simpl; try reflexivity.
  rewrite IH. reflexivity.
Qed.

Lemma wide_find_at (sub s : str) (i : nat) :
  Wide.find_at (Wide.wide sub) (Wide.wide s) i = find_at sub s i.
Proof.
  revert i; induction s as [|c s IH]; intros i.
  - pose proof (wide_startswith [] sub) as H.
    cbn [Wide.wide map Wide.find_at find_at] in *. rewrite H. reflexivity.
  - cbn [Wide.wide map Wide.find_at find_at].
    change (Wide.Latin c :: map Wide.Latin s) with (Wide.wide (c :: s)).
    rewrite wide_startswith.
    destruct (startswith (c :: s) sub); [reflexivity|]. apply IH.
Qed.

Lemma wide_str_find (s sub : str) :
  Wide.str_find (Wide.wide s) (Wide.wide sub) = str_find s sub.
Proof. unfold Wide.str_find, str_find. rewrite wide_find_at. reflexivity. Qed.

Lemma wide_length (s : str) : length (Wide.wide s) = length s.
Proof. apply length_map. Qed.

Lemma wide_slice (s : str) (lo hi : Z) :
  slice (Wide.wide s) lo hi = Wide.wide (slice s lo hi).
Proof.
  unfold slice, Wide.wide.
  rewrite length_map, skipn_map, firstn_map. reflexivity.
Qed.

Lemma wide_split_ws_aux (s cur : str) :
  Wide.split_ws_aux (Wide.wide s) (Wide.wide cur) =
  map Wide.wide (split_ws_aux s cur).
Proof.
  assert (Hrev : forall x cur,
             rev (Wide.wide (x :: cur)) = Wide.wide (rev (x :: cur))).
  { intros x cur'. unfold Wide.wide. symmetry. apply map_rev. }
  revert cur; induction s as [|c s IH]; intros cur.
  - destruct cur as [|x cur]; [reflexivity|].
    change (Wide.split_ws_aux (Wide.wide []) (Wide.wide (x :: cur)))
      with [rev (Wide.wide (x :: cur))].
    rewrite Hrev. reflexivity.
  - change (Wide.split_ws_aux (Wide.wide (c :: s)) (Wide.wide cur))
      with (if isspace c
            then match Wide.wide cur with
                 | [] => Wide.split_ws_aux (Wide.wide s) (Wide.wide [])
                 | _ => rev (Wide.wide cur)
                        :: Wide.split_ws_aux (Wide.wide s) (Wide.wide [])
                 end
            else Wide.split_ws_aux (Wide.wide s) (Wide.wide (c :: cur))).
    cbn [split_ws_aux]. destruct (isspace c); [|apply IH].
    destruct cur as [|x cur]; [apply IH|].
    change (match Wide.wide (x :: cur) with
            | [] => Wide.split_ws_aux (Wide.wide s) (Wide.wide [])
            | _ :: _ => rev (Wide.wide (x :: cur))
                        :: Wide.split_ws_aux (Wide.wide s) (Wide.wide [])
            end)
      with (rev (Wide.wide (x :: cur))
            :: Wide.split_ws_aux (Wide.wide s) (Wide.wide [])).
    rewrite Hrev, (IH []). reflexivity.
Qed.

Lemma wide_join (sep : str) (l : list str) :
  Wide.join (Wide.wide sep) (map Wide.wide l) = Wide.wide (join sep l).
Proof.
  induction l as [|x l IH]; [reflexivity|].
  destruct l as [|y l]; [reflexivity|].
  change (Wide.join (Wide.wide sep) (map Wide.wide (x :: y :: l)))
    with (Wide.wide x ++ Wide.wide sep
          ++ Wide.join (Wide.wide sep) (map Wide.wide (y :: l))).
  rewrite IH. unfold Wide.wide. rewrite <- !map_app. reflexivity.
Qed.

(** On text of the code points U+0000..U+00FF the snippet of this
    module is the snippet of [search]. *)
Lemma wide_make_snippet (q : str) (page : DocPage) :
  Wide.make_snippet (Wide.wide q) (Wide.wide (text page)) =
  Wide.wide (make_snippet q page).
Proof.
  unfold Wide.make_snippet, make_snippet.
  rewrite wide_lower, wide_str_find, wide_length.
  unfold slice_to, Wide.split_ws, split_ws.
  destruct (str_find (lower (text page)) q <? 0)%Z;
    rewrite wide_slice;
    change (@nil Wide.wchar) with (Wide.wide []);
    rewrite wide_split_ws_aux, wide_join; reflexivity.
Qed.

(** C4. The snippet is cut from the text at the index that the query has
    in the lower-cased text. In [Examples.dotted_text] the query "vessel" occurs
    once, at index 100; lower-casing doubles the 100 characters before
    it, so that the index found is 200 and the snippet is the 240
    characters from index 120 on, which do not hold the query. The
    window around the occurrence would be the 80 characters before
    index 100, the query and the 154 characters after it. *)
Theorem search_snippet_off_occurrence :
  let q := Wide.wide (py "vessel") in
  Wide.lower q = q
  /\ Wide.str_find Examples.dotted_text q = 100%Z
  /\ Wide.str_find (Wide.lower Examples.dotted_text) q = 200%Z
  /\ Wide.make_snippet q Examples.dotted_text = repeat (Wide.Latin "x") 240
  /\ Wide.str_find (Wide.make_snippet q Examples.dotted_text) q = (-1)%Z
  /\ wide_window Examples.dotted_text 100 =
     repeat Wide.CapitalIDot 80 ++ q ++ repeat (Wide.Latin "x") 154
  /\ Wide.make_snippet q Examples.dotted_text <> wide_window Examples.dotted_text 100.
Proof.
  cbv zeta. repeat split; try (vm_compute; reflexivity).
  vm_compute. discriminate.
Qed.

Set Implicit Arguments.

(* ===================================================================== *)
(** ** The properties on the example data *)
(* ===================================================================== *)

Section OnExamples.
Import Examples.

Local Abbreviation search := (search accept_all join_absolute offline).
Local Abbreviation get_page := (get_page accept_all join_absolute offline).
Local Abbreviation get_member :=
  (get_member accept_all join_absolute offline).
Local Abbreviation reindex := (reindex accept_all join_absolute offline).
Local Abbreviation ensure_fresh :=
  (ensure_fresh accept_all join_absolute offline).

Lemma search_vessel :
  search (py " Vessel ") 1 filled_sys =
  (Returned (search_index filled (py " Vessel ") 1), filled_sys).
Proof. vm_compute. reflexivity. Defined.

(** The ranking of C1 on the search for "vessel" with limit 1. *)
Lemma search_sorted_and_bounded_witness :
  search (py " Vessel ") 1 filled_sys =
  (Returned (search_index filled (py " Vessel ") 1), filled_sys)
  /\ StronglySorted hit_precedes
       (sr_results (search_index filled (py " Vessel ") 1))
  /\ (Z.of_nat (length (sr_results (search_index filled (py " Vessel ") 1)))
      <= clamp_limit 1)%Z.
Proof.
  split; [exact search_vessel|].
  exact (search_sorted_and_bounded accept_all join_absolute offline
           (py " Vessel ") 1 filled_sys _ _ search_vessel).
Defined.

(** The scores of C2 on the same search. *)
Lemma search_scores_witness :
  search (py " Vessel ") 1 filled_sys =
  (Returned (search_index filled (py " Vessel ") 1), filled_sys)
  /\ lower (strip (py " Vessel ")) <> []
  /\ (forall page,
         score_is (py "vessel") page (page_score (py "vessel") page))
  /\ (forall h,
         In h (sr_results (search_index filled (py " Vessel ") 1)) ->
         (0 < hit_score h)%Z).
Proof.
  assert (Hq : lower (strip (py " Vessel ")) <> []) by discriminate.
  split; [exact search_vessel|]. split; [exact Hq|].
  pose proof (search_scores accept_all join_absolute offline
                (py " Vessel ") 1 filled_sys _ _ search_vessel Hq) as H.
  cbv zeta in H. split; [exact (proj1 H) | exact (proj1 (proj2 H))].
Defined.

(** The snippet of the hit of that search. *)
Lemma search_snippet_example :
  search (py " Vessel ") 1 filled_sys =
  (Returned (search_index filled (py " Vessel ") 1), filled_sys)
  /\ In vessel_hit (sr_results (search_index filled (py " Vessel ") 1))
  /\ exists page,
       In page (dict_values (pages filled))
       /\ hit_title vessel_hit = title page
       /\ hit_slug vessel_hit = slug page
       /\ hit_url vessel_hit = url page
       /\ ((exists i,
              first_occurrence (py "vessel") (lower (text page)) i
              /\ hit_snippet vessel_hit
                 = collapse_ws (window (text page) i))
           \/ (~ occurs_in (py "vessel") (lower (text page))
               /\ hit_snippet vessel_hit
                  = collapse_ws (firstn 240 (text page)))).
Proof.
  assert (Hin : In vessel_hit
                   (sr_results (search_index filled (py " Vessel ") 1)))
    by (left; reflexivity).
  split; [exact search_vessel|]. split; [exact Hin|].
  exact (search_snippet accept_all join_absolute offline
           (py " Vessel ") 1 filled_sys _ _ vessel_hit search_vessel Hin).
Defined.

Lemma member_name :
  get_member (py "SpaceCenter") (py "Vessel") (py "name") filled_sys =
  (Returned (resolve_member filled (py "SpaceCenter") (py "Vessel")
                            (py "name")), filled_sys).
Proof. vm_compute. reflexivity. Defined.

(** The ranking of C3 for SpaceCenter.Vessel.name. *)
Lemma get_member_ranking_witness :
  get_member (py "SpaceCenter") (py "Vessel") (py "name") filled_sys =
  (Returned (resolve_member filled (py "SpaceCenter") (py "Vessel")
                            (py "name")), filled_sys)
  /\ (forall mid,
         member_tier (py "spacecenter.vessel.name") (py "Vessel")
           (py "name") mid
           (member_score (py "spacecenter.vessel.name") (py "Vessel")
                         (py "name") mid))
  /\ ((exists e m,
          resolve_member filled (py "SpaceCenter") (py "Vessel")
                         (py "name") = MemberNotFound e m)
      <-> forall mid entry,
            In (mid, entry) (members filled) ->
            (member_score (py "spacecenter.vessel.name") (py "Vessel")
                          (py "name") mid <= 0)%Z).
Proof.
  split; [exact member_name|].
  pose proof (get_member_ranking accept_all join_absolute offline
                (py "SpaceCenter") (py "Vessel") (py "name")
                filled_sys _ _ member_name) as H.
  cbv zeta in H. split; [exact (proj1 H) | exact (proj2 (proj2 H))].
Defined.

Lemma member_unnamed :
  get_member (py "SpaceCenter") (py "Vessel") [] filled_sys =
  (Returned (resolve_member filled (py "SpaceCenter") (py "Vessel") []),
   filled_sys).
Proof. vm_compute. reflexivity. Defined.

(** C9 on the example index: the empty member name finds a match. *)
Lemma get_member_empty_name_witness :
  get_member (py "SpaceCenter") (py "Vessel") [] filled_sys =
  (Returned (resolve_member filled (py "SpaceCenter") (py "Vessel") []),
   filled_sys)
  /\ members filled <> []
  /\ exists q best alts,
       resolve_member filled (py "SpaceCenter") (py "Vessel") []
       = MemberFound q best alts.
Proof.
  assert (Hne : members filled <> []) by discriminate.
  split; [exact member_unnamed|]. split; [exact Hne|].
  exact (proj2 (get_member_empty_name accept_all join_absolute offline
                  (py "SpaceCenter") (py "Vessel") filled_sys _ _
                  member_unnamed Hne)).
Defined.

Lemma filled_is_fresh :
  ensure_fresh filled_sys =
  (Returned (mkStatus (py "ok") (py "Index is fresh.") (Iso 0)),
   filled_sys).
Proof. vm_compute. reflexivity. Defined.



(** C6, as amended, on the example index. *)
Lemma reindex_fresh_is_noop_witness :
  pages (index filled_sys) <> []
  /\ indexed_at (index filled_sys) = Some 0%Z
  /\ (clock_check offline - 0 <= FRESH_WINDOW)%Z
  /\ reindex false filled_sys =
     (Returned (mkStatus (py "ok") (py "Index already fresh.") (Iso 0)),
      filled_sys).
Proof.
  assert (H1 : pages (index filled_sys) <> []) by discriminate.
  assert (H2 : indexed_at (index filled_sys) = Some 0%Z) by reflexivity.
  assert (H3 : (clock_check offline - 0 <= FRESH_WINDOW)%Z)
    by (vm_compute; discriminate).
  split; [exact H1|]. split; [exact H2|]. split; [exact H3|].
  exact (reindex_fresh_is_noop accept_all join_absolute offline
           filled_sys 0 H1 H2 H3).
Defined.

(** C6 as it was stated fails on a fresh snapshot without pages: the
    stamp is one second old, and yet [reindex(force=False)] requests the
    seed URL and moves [indexed_at]. *)
Lemma reindex_fresh_empty_counterexample :
  indexed_at (index empty_sys) = Some 0%Z
  /\ (clock_check offline - 0 <= FRESH_WINDOW)%Z
  /\ fetched empty_sys = []
  /\ fetched (snd (reindex false empty_sys)) = [ROOT_URL]
  /\ indexed_at (index (snd (reindex false empty_sys))) = Some 2000000%Z
  /\ snd (reindex false empty_sys) <> empty_sys.
Proof.
  split; [reflexivity|]. split; [vm_compute; discriminate|].
  split; [reflexivity|]. split; [vm_compute; reflexivity|].
  split; [vm_compute; reflexivity|].
  intros H. apply (f_equal fetched) in H. vm_compute in H. discriminate H.
Qed.

Lemma crawl_one_page :
  crawl_docs accept_all join_absolute one_page =
  (Returned ([twice_page], [(py "Vessel.name", twice_entry)]), [ROOT_URL]).
Proof. vm_compute. reflexivity. Defined.

(** C10 on a page with two elements of the same id: the record of the
    second one is the one that is kept. *)
Lemma crawl_members_last_wins_witness :
  crawl_docs accept_all join_absolute one_page =
  (Returned ([twice_page], [(py "Vessel.name", twice_entry)]), [ROOT_URL])
  /\ length (crawled_elements one_page [twice_page]) = 2
  /\ dict_wf [(py "Vessel.name", twice_entry)]
  /\ (dict_get (py "Vessel.name") [(py "Vessel.name", twice_entry)]
      = Some twice_entry
      <-> exists before e after,
            crawled_elements one_page [twice_page] = before ++ e :: after
            /\ element_id e = py "Vessel.name" /\ py "Vessel.name" <> []
            /\ (forall e', In e' after -> element_id e' <> py "Vessel.name")
            /\ twice_entry = element_entry e).
Proof.
  split; [exact crawl_one_page|]. split; [reflexivity|].
  pose proof (crawl_members_last_wins accept_all join_absolute one_page
                _ _ _ crawl_one_page) as H.
  split; [exact (proj1 H) | exact (proj2 H _ _)].
Defined.

Lemma shouted_parsed :
  Urllib.urlparse accept_all shouted = Returned shouted_parse.
Proof. vm_compute. reflexivity. Defined.

(** C7, as amended, on an upper-case URL with a query and a fragment. *)
Lemma normalize_url_idempotent_witness :
  Urllib.urlparse accept_all shouted = Returned shouted_parse
  /\ Urllib.netloc shouted_parse <> []
  /\ normalize_url accept_all shouted
     = Returned (py "http://krpc.github.io/krpc/python.html")
  /\ ~ In "?"%char (py "http://krpc.github.io/krpc/python.html")
  /\ ~ In "#"%char (py "http://krpc.github.io/krpc/python.html")
  /\ normalize_url accept_all (py "http://krpc.github.io/krpc/python.html")
     = Returned (py "http://krpc.github.io/krpc/python.html")
  /\ Urllib.urlparse accept_all (py "http://krpc.github.io/krpc/python.html")
     = Returned (Urllib._replace_query_fragment shouted_parse [] []).
Proof.
  assert (Hn : Urllib.netloc shouted_parse <> []) by discriminate.
  split; [exact shouted_parsed|]. split; [exact Hn|].
  destruct (normalize_url_idempotent accept_all shouted shouted_parse
              shouted_parsed) as [H1 [H2 [H3 [H4 H5]]]].
  split; [exact H1|]. split; [exact H2|]. split; [exact H3|].
  split; [exact (H4 (or_introl Hn)) | exact (H5 Hn)].
Defined.

(** C7 as it was stated fails twice. The text returned for an upper-case
    scheme is not the text of the URL with query and fragment cut off;
    and on a URL without authority whose path starts with slashes a
    second normalization changes the text again. *)
Lemma normalize_url_counterexample :
  normalize_url accept_all shouted
  = Returned (py "http://krpc.github.io/krpc/python.html")
  /\ without_query_fragment shouted
     = py "HTTP://krpc.github.io/krpc/python.html"
  /\ normalize_url accept_all shouted
     <> Returned (without_query_fragment shouted)
  /\ Urllib.urlparse accept_all (py "/////x")
     = Returned (Urllib.mkParse [] [] (py "///x") [] [] [])
  /\ normalize_url accept_all (py "/////x") = Returned (py "///x")
  /\ normalize_url accept_all (py "///x") = Returned (py "/x")
  /\ py "///x" <> py "/x".
Proof.
  split; [vm_compute; reflexivity|]. split; [vm_compute; reflexivity|].
  split; [vm_compute; discriminate|]. split; [vm_compute; reflexivity|].
  split; [vm_compute; reflexivity|]. split; [vm_compute; reflexivity|].
  vm_compute; discriminate.
Qed.
End OnExamples.

(* ===================================================================== *)
(** ** The further properties on the example data *)
(* ===================================================================== *)

Section MoreOnExamples.
Import Examples.

Lemma filled_keyed : keyed_by_slug (pages filled).
Proof.
  split.
  - unfold dict_wf. cbn [dict_keys map filled pages fst].
    constructor; [|constructor; [intros [] | constructor]].
    intros [H|[]]. vm_compute in H. discriminate H.
  - repeat constructor.
Defined.

(** The cache round trip on the example index. *)
Lemma cache_round_trip_witness :
  keyed_by_slug (pages filled)
  /\ __init__ (_save_to_disk offline filled) = filled.
Proof.
  split; [exact filled_keyed|].
  exact (cache_round_trip offline filled filled_keyed).
Defined.

(** The operations on the example index keep its pages keyed. *)
Lemma operations_keep_pages_keyed_witness :
  keyed_by_slug (pages (index filled_sys))
  /\ keyed_by_slug
       (pages (index (snd (reindex accept_all join_absolute offline true
                                   filled_sys))))
  /\ keyed_by_slug
       (pages (index (snd (get_page accept_all join_absolute offline
                                    (py "python/tutorials.html")
                                    filled_sys)))).
Proof.
  split; [exact filled_keyed|].
  destruct (operations_keep_pages_keyed accept_all join_absolute offline
              filled_sys filled_keyed) as [H1 [_ [_ [H4 _]]]].
  split; [exact (H1 true) | exact (H4 (py "python/tutorials.html"))].
Defined.

Lemma reindex_two_pages :
  reindex accept_all join_parsed two_pages true new_sys =
  (Returned two_pages_status, two_pages_sys).
Proof. vm_compute. reflexivity. Defined.

Lemma crawl_two_pages :
  crawl_docs accept_all join_parsed two_pages =
  (Returned ([first_page; second_page], []), [ROOT_URL; second_url]).
Proof. vm_compute. reflexivity. Defined.

(** A restart after the crawl of the site of two pages. *)
Lemma restart_after_reindex_witness :
  reindex accept_all join_parsed two_pages true new_sys =
  (Returned two_pages_status, two_pages_sys)
  /\ __init__ (disk two_pages_sys) = index two_pages_sys.
Proof.
  split; [exact reindex_two_pages|].
  exact (restart_after_reindex accept_all join_parsed two_pages
           new_sys two_pages_status two_pages_sys reindex_two_pages).
Defined.

Lemma crawl_broken :
  crawl_docs accept_all join_parsed one_broken = (Raised ValueError, [ROOT_URL]).
Proof. vm_compute. reflexivity. Defined.

(** A crawl that raises on a link leaves the example index as it was. *)
Lemma failed_crawl_keeps_snapshot_witness :
  crawl_docs accept_all join_parsed one_broken = (Raised ValueError, [ROOT_URL])
  /\ reindex accept_all join_parsed one_broken true filled_sys =
     (Raised ValueError, mkSys filled no_files [ROOT_URL]).
Proof.
  split; [exact crawl_broken|].
  exact (proj1 (failed_crawl_keeps_snapshot accept_all join_parsed one_broken
                  filled_sys ValueError [ROOT_URL] crawl_broken)).
Defined.

(** With the network down, a forced reindex empties the example index. *)
Lemma reindex_unreachable_seed_witness :
  http_get offline ROOT_URL = None
  /\ reindex accept_all join_absolute offline true filled_sys =
     (Returned (mkStatus (py "ok")
                  (py "Indexed 0 pages and 0 API members.")
                  (Iso 2000000)),
      mkSys (mkDocIndex [] [] (Some 2000000%Z))
            (mkDisk (Some []) (Some []) (Some (2000000%Z, ROOT_URL)))
            [ROOT_URL]).
Proof.
  assert (H : http_get offline ROOT_URL = None) by reflexivity.
  split; [exact H|].
  exact (proj1 (reindex_unreachable_seed accept_all join_absolute offline
                  filled_sys H)).
Defined.

(** The queries on the fresh example index only read. *)
Lemma fresh_queries_read_only_witness :
  pages (index filled_sys) <> []
  /\ indexed_at (index filled_sys) = Some 0%Z
  /\ (clock_check offline - 0 <= FRESH_WINDOW)%Z
  /\ search accept_all join_absolute offline (py "vessel") 5 filled_sys =
     (Returned (search_index filled (py "vessel") 5), filled_sys)
  /\ snd (get_page accept_all join_absolute offline (py "http://[")
                   filled_sys) = filled_sys.
Proof.
  assert (H1 : pages (index filled_sys) <> []) by discriminate.
  assert (H2 : indexed_at (index filled_sys) = Some 0%Z) by reflexivity.
  assert (H3 : (clock_check offline - 0 <= FRESH_WINDOW)%Z)
    by (vm_compute; discriminate).
  split; [exact H1|]. split; [exact H2|]. split; [exact H3|].
  destruct (fresh_queries_read_only accept_all join_absolute offline
              filled_sys 0 H1 H2 H3) as [Hs [_ Hp]].
  split; [exact (Hs (py "vessel") 5%Z) | exact (Hp (py "http://["))].
Defined.

(** Of the two pages with the slug "python.html" the second is kept. *)
Lemma reindex_pages_last_wins_witness :
  reindex accept_all join_parsed two_pages true new_sys =
  (Returned two_pages_status, two_pages_sys)
  /\ dict_get (py "python.html") (pages (index two_pages_sys))
     = Some second_page
  /\ exists pgs reqs,
       crawl_docs accept_all join_parsed two_pages =
       (Returned (pgs, members (index two_pages_sys)), reqs)
       /\ length (pages (index two_pages_sys)) <= length pgs.
Proof.
  split; [exact reindex_two_pages|]. split; [reflexivity|].
  destruct (reindex_pages_last_wins accept_all join_parsed two_pages
              new_sys two_pages_status two_pages_sys reindex_two_pages)
    as [pgs [reqs [Hc [_ Hlen]]]].
  exists pgs, reqs. split; [exact Hc | exact Hlen].
Defined.

(** The pages of the site of two pages are its two answered requests. *)
Lemma crawl_pages_are_answered_requests_witness :
  crawl_docs accept_all join_parsed two_pages =
  (Returned ([first_page; second_page], []), [ROOT_URL; second_url])
  /\ map url [first_page; second_page]
     = filter (answered two_pages) [ROOT_URL; second_url]
  /\ NoDup (map url [first_page; second_page]).
Proof.
  split; [exact crawl_two_pages|].
  destruct (crawl_pages_are_answered_requests accept_all join_parsed
              two_pages _ _ _ crawl_two_pages) as [H1 [_ [H3 _]]].
  split; [exact H1 | exact H3].
Defined.

(** The record of the page with two elements points to that page. *)
Lemma crawl_results_in_scope_witness :
  crawl_docs accept_all join_absolute one_page =
  (Returned ([twice_page], [(py "Vessel.name", twice_entry)]), [ROOT_URL])
  /\ Forall (fun p => in_scope (url p)) [twice_page]
  /\ py "Vessel.name" <> []
  /\ strip (py "Vessel.name") = py "Vessel.name".
Proof.
  split; [exact crawl_one_page|].
  destruct (crawl_results_in_scope accept_all join_absolute one_page
              _ _ _ crawl_one_page) as [H1 H2].
  split; [exact H1|].
  destruct (H2 (py "Vessel.name") twice_entry (or_introl eq_refl))
    as [H3 [H4 _]].
  split; [exact H3 | exact H4].
Defined.

Lemma search_spaces :
  search accept_all join_absolute offline (py "   ") 5 filled_sys =
  (Returned (mkSearchResult (py "   ") []), filled_sys).
Proof. vm_compute. reflexivity. Defined.

(** The search for three spaces. *)
Lemma search_blank_query_witness :
  blank (py "   ")
  /\ search accept_all join_absolute offline (py "   ") 5 filled_sys =
     (Returned (mkSearchResult (py "   ") []), filled_sys)
  /\ mkSearchResult (py "   ") [] = mkSearchResult (py "   ") [].
Proof.
  assert (Hb : blank (py "   ")) by reflexivity.
  split; [exact Hb|]. split; [exact search_spaces|].
  exact (proj1 (search_blank_query accept_all join_absolute offline
                  (py "   ") 5 filled_sys _ _ Hb search_spaces)).
Defined.

Lemma search_vessel_nowhere :
  search accept_all join_absolute offline (py "vessel") 0 filled_sys =
  (Returned (search_index filled (py "vessel") 0), filled_sys).
Proof. vm_compute. reflexivity. Defined.

(** The search for "vessel" with limit 0: two pages match, one hit. *)
Lemma search_count_witness :
  search accept_all join_absolute offline (py "vessel") 0 filled_sys =
  (Returned (search_index filled (py "vessel") 0), filled_sys)
  /\ lower (strip (py "vessel")) <> []
  /\ length (matching (py "vessel") filled) = 2
  /\ length (sr_results (search_index filled (py "vessel") 0)) = 1.
Proof.
  assert (Hq : lower (strip (py "vessel")) <> []) by discriminate.
  split; [exact search_vessel_nowhere|]. split; [exact Hq|].
  split; [reflexivity|].
  exact (proj1 (search_count accept_all join_absolute offline
                  (py "vessel") 0 filled_sys _ _ search_vessel_nowhere Hq)).
Defined.

(** The snippet of the hit for "vessel". *)
Lemma search_snippet_shape_witness :
  search accept_all join_absolute offline (py " Vessel ") 1 filled_sys =
  (Returned (search_index filled (py " Vessel ") 1), filled_sys)
  /\ In vessel_hit (sr_results (search_index filled (py " Vessel ") 1))
  /\ length (hit_snippet vessel_hit) <= 240
  /\ collapse_ws (hit_snippet vessel_hit) = hit_snippet vessel_hit.
Proof.
  assert (Hin : In vessel_hit
                   (sr_results (search_index filled (py " Vessel ") 1)))
    by (left; reflexivity).
  split; [exact search_vessel|]. split; [exact Hin|].
  exact (search_snippet_shape accept_all join_absolute offline
           (py " Vessel ") 1 filled_sys _ _ vessel_hit search_vessel Hin).
Defined.

(** The hits for "vessel" on the example index are two pages. *)
Lemma search_hits_distinct_witness :
  keyed_by_slug (pages (index filled_sys))
  /\ search accept_all join_absolute offline (py "vessel") 0 filled_sys =
     (Returned (search_index filled (py "vessel") 0), filled_sys)
  /\ NoDup (map hit_slug (sr_results (search_index filled (py "vessel") 0))).
Proof.
  split; [exact filled_keyed|]. split; [exact search_vessel_nowhere|].
  exact (search_hits_distinct accept_all join_absolute offline
           (py "vessel") 0 filled_sys _ _ filled_keyed
           search_vessel_nowhere).
Defined.

Lemma tutorials_plain : plain_slug (py "python/tutorials.html").
Proof. repeat split. Defined.

(** The page "python/tutorials.html", asked for with a space and a
    slash in front and a newline behind. *)
Lemma get_page_by_slug_witness :
  blank (py " ") /\ slashes (py "/")
  /\ plain_slug (py "python/tutorials.html") /\ blank newline
  /\ ensure_fresh accept_all join_absolute offline filled_sys =
     (Returned (mkStatus (py "ok") (py "Index is fresh.") (Iso 0)),
      filled_sys)
  /\ dict_get (py "python/tutorials.html") (pages (index filled_sys))
     = Some tutorials
  /\ get_page accept_all join_absolute offline
       (py " " ++ py "/" ++ py "python/tutorials.html" ++ newline)
       filled_sys
     = (Returned tutorials_found, filled_sys).
Proof.
  assert (Ha : blank (py " ")) by reflexivity.
  assert (Hs : slashes (py "/")) by reflexivity.
  assert (Hb : blank newline) by reflexivity.
  assert (Hg : dict_get (py "python/tutorials.html")
                        (pages (index filled_sys)) = Some tutorials)
    by reflexivity.
  split; [exact Ha|]. split; [exact Hs|]. split; [exact tutorials_plain|].
  split; [exact Hb|]. split; [exact filled_is_fresh|]. split; [exact Hg|].
  exact (proj1 (get_page_by_slug accept_all join_absolute offline
                  (py " ") (py "/") (py "python/tutorials.html") newline
                  filled_sys _ filled_sys tutorials
                  Ha Hs tutorials_plain Hb filled_is_fresh Hg)).
Defined.

(** The second page of the site of two pages, asked for by its URL. *)
Lemma get_page_by_crawled_url_witness :
  reindex accept_all join_parsed two_pages true new_sys =
  (Returned two_pages_status, two_pages_sys)
  /\ (clock_check two_pages - clock_stamp two_pages <= FRESH_WINDOW)%Z
  /\ In second_page (dict_values (pages (index two_pages_sys)))
  /\ get_page accept_all join_parsed two_pages second_url two_pages_sys =
     (Returned (PageFound (py "Second") (py "python.html") second_url
                          (py "two") (Some 5%Z)), two_pages_sys).
Proof.
  assert (Hf : (clock_check two_pages - clock_stamp two_pages
                <= FRESH_WINDOW)%Z) by (vm_compute; discriminate).
  assert (Hin : In second_page (dict_values (pages (index two_pages_sys))))
    by (left; reflexivity).
  split; [exact reindex_two_pages|]. split; [exact Hf|].
  split; [exact Hin|].
  exact (get_page_by_crawled_url accept_all join_parsed two_pages
           new_sys two_pages_status two_pages_sys second_page
           reindex_two_pages Hf Hin).
Defined.

(** The seed is in normal form and within the scope. *)
Lemma site_url_is_normal_form_witness :
  in_scope ROOT_URL /\ forallb path_char ROOT_URL = true
  /\ normalize_url accept_all ROOT_URL = Returned ROOT_URL
  /\ allowed accept_all ROOT_URL = Returned true.
Proof.
  assert (H1 : in_scope ROOT_URL) by (split; reflexivity).
  assert (H2 : forallb path_char ROOT_URL = true) by reflexivity.
  split; [exact H1|]. split; [exact H2|].
  exact (site_url_is_normal_form accept_all ROOT_URL H1 H2).
Defined.

Lemma second_slug :
  page_to_slug accept_all second_url = Returned (py "python.html").
Proof. vm_compute. reflexivity. Defined.

(** The slug of the second page follows the second marker of its path. *)
Lemma page_to_slug_after_marker_witness :
  page_to_slug accept_all second_url = Returned (py "python.html")
  /\ exists parsed,
       Urllib.urlparse accept_all second_url = Returned parsed
       /\ ~ occurs_in marker (py "python.html").
Proof.
  split; [exact second_slug|].
  destruct (page_to_slug_after_marker accept_all second_url
              (py "python.html") second_slug) as [parsed [H1 [H2 _]]].
  exists parsed. split; [exact H1 | exact H2].
Defined.

Lemma member_name_found :
  get_member accept_all join_absolute offline (py "spacecenter")
             (py "vessel") (py "NAME") filled_sys =
  (Returned (MemberFound (py "spacecenter", py "vessel", py "NAME")
               name_match
               [mkAlt (py "SpaceCenter.Vessel.name_tag") (py "SpaceCenter")
                      [];
                mkAlt (py "SpaceCenter.Part.name") [] []]), filled_sys).
Proof. vm_compute. reflexivity. Defined.

(** The best match for spacecenter.vessel.NAME is the first member. *)
Lemma get_member_tie_break_witness :
  get_member accept_all join_absolute offline (py "spacecenter")
             (py "vessel") (py "NAME") filled_sys =
  (Returned (MemberFound (py "spacecenter", py "vessel", py "NAME")
               name_match
               [mkAlt (py "SpaceCenter.Vessel.name_tag") (py "SpaceCenter")
                      [];
                mkAlt (py "SpaceCenter.Part.name") [] []]), filled_sys)
  /\ exists before entry after,
       members (index filled_sys)
       = before ++ (bm_id name_match, entry) :: after.
Proof.
  split; [exact member_name_found|].
  destruct (get_member_tie_break accept_all join_absolute offline
              (py "spacecenter") (py "vessel") (py "NAME") filled_sys
              filled_sys _ _ _ member_name_found)
    as [before [entry [after [H _]]]].
  exists before, entry, after. exact H.
Defined.
End MoreOnExamples.
